(** * DNAcrypt: the grayscale PNG codec (dnapng.go), the one-time pad
      (dnacrypt.go) and the byte codec (dnacodec), embedded shallowly and
      checked against their specification.

    Conventions of the embedding.
    - A Go [string] is an immutable sequence of bytes: [list ascii]. [range]
      over a string decodes UTF-8 ([utf8.rangeString]); [WriteRune] and
      [string(rune)] encode it ([utf8.EncodeRune]).
    - A Go [rune], [int], [uint8], [uint32] is a [Z]. [int] is taken to be 64
      bits wide: every arithmetic operation of the source on [int] is written
      with its two's-complement wrap-around ([iadd], [imul], ...), and the
      conversions to [uint8] and [uint32] are written [u8] and [u32].
    - A Go function returning [(T, error)] returns an [outcome T]; a run-time
      panic (index out of range, division by zero, a grid too large for
      [image.NewRGBA]) is the third constructor [Panic].
    - [range] over a Go map visits the entries in an order the language leaves
      unspecified: [findClosestDNABaseGrayscale] takes the order as an
      argument, the decoder takes one order per classification ([ord]), and
      the theorems quantify over every permutation of the entries.
    - A loop without a bound known beforehand (the outer loop of the decoder,
      whose step is [cfg.RowsPerBlock]) takes fuel; [None] means that the
      fuel did not reach the end of the loop.
    - A writer is the list of what has been written to it.
    - The bytes of the PNG container are outside the embedding, and the
      serialisation ([png.Encode], [png.Decode]) is taken to be lossless on
      pixel grids: the writer of the encoder receives the grid it built, the
      decoder starts from a grid of the same kind ([image.RGBA], 8 bits per
      channel). The check of the dimensions that [png.Encode] makes before
      it writes is embedded ([png.Encode]). Reading files and parsing flags
      are outside the embedding too: a command starts from the contents of
      its input files and ends with the contents of its output file.
    - The TPM is a function from the number of the call and the number of
      bytes asked for to the answer of [tpm2.GetRandom].
    - [strings.TrimSpace] and [strings.ToUpper] are embedded on their ASCII
      paths; on a byte of 128 or more the library takes a Unicode-aware
      path, which is outside the embedding ([None]). *)

From Stdlib Require Import ZArith Lia Ascii String List.
From stdpp Require Import base decidable option list strings gmap.

Local Open Scope Z_scope.

(** String literals of the source, as byte sequences. *)
Definition str (s : string) : list ascii := list_ascii_of_string s.

(** ** Errors and outcomes *)

Inductive error : Type :=
| InvalidConfiguration (msg : string)
| DimensionMismatch (imgWidth imgHeight blockSize : Z)
| IntensityTooFar (intensity minDiff : Z)
| UnclassifiablePixel (pixelX pixelY : Z) (cause : error)
| InvalidSequence (msg : string)
| InvalidBase (base : Z)
| InvalidBaseAt (operand : Z) (index : Z) (cause : error)
| InvalidBinaryValue (val : Z)
| XorConversion (cause : error)
| InvalidImageSize (width height : Z).

Inductive outcome (T : Type) : Type :=
| Ok (v : T)
| Err (e : error)
| Panic.
Arguments Ok {T} v.
Arguments Err {T} e.
Arguments Panic {T}.

#[global] Instance outcome_ret : MRet outcome := fun _ v => Ok v.
#[global] Instance outcome_bind : MBind outcome := fun _ _ f m =>
  match m with
  | Ok v => f v
  | Err e => Err e
  | Panic => Panic
  end.

(** ** Machine integers *)

Definition wrap64 (z : Z) : Z := (z + 2 ^ 63) mod 2 ^ 64 - 2 ^ 63.
Definition fits64 (z : Z) : Prop := - 2 ^ 63 <= z < 2 ^ 63.

Definition iadd (a b : Z) : Z := wrap64 (a + b).
Definition isub (a b : Z) : Z := wrap64 (a - b).
Definition imul (a b : Z) : Z := wrap64 (a * b).
(** Go's [/] and [%] truncate toward zero; the caller handles a zero divisor. *)
Definition idiv (a b : Z) : Z := wrap64 (a ÷ b).
Definition irem (a b : Z) : Z := Z.rem a b.

Definition u8 (z : Z) : Z := z mod 256.
Definition u32 (z : Z) : Z := z mod 2 ^ 32.

Definition rune (c : ascii) : Z := Z.of_N (N_of_ascii c).
Definition byte (z : Z) : ascii := ascii_of_N (Z.to_N (u8 z)).
Definition len {T : Type} (s : list T) : Z := Z.of_nat (length s).

(** ** UTF-8 (package [unicode/utf8]): what [range] over a string and
       [strings.Builder.WriteRune] do *)

Module utf8.

Definition RuneError : Z := 65533.

Definition between (lo hi b : Z) : bool := (lo <=? b) && (b <=? hi).

(** [utf8.DecodeRuneInString]: the rune at the head of [s] and its width in
    bytes; an invalid or truncated encoding yields [(RuneError, 1)]. *)
Definition DecodeRuneInString (s : list ascii) : Z * nat :=
  match s with
  | [] => (RuneError, 0%nat)
  | c0 :: t =>
    let s0 := rune c0 in
    if s0 <? 128 then (s0, 1%nat)
    else if (s0 <? 194) || (244 <? s0) then (RuneError, 1%nat)
    else if s0 <? 224 then
      match t with
      | c1 :: _ =>
        let s1 := rune c1 in
        if between 128 191 s1
        then (Z.lor (Z.shiftl (Z.land s0 31) 6) (Z.land s1 63), 2%nat)
        else (RuneError, 1%nat)
      | _ => (RuneError, 1%nat)
      end
    else if s0 <? 240 then
      let lo := if s0 =? 224 then 160 else 128 in
      let hi := if s0 =? 237 then 159 else 191 in
      match t with
      | c1 :: c2 :: _ =>
        let s1 := rune c1 in
        let s2 := rune c2 in
        if between lo hi s1 && between 128 191 s2
        then (Z.lor (Z.lor (Z.shiftl (Z.land s0 15) 12)
                           (Z.shiftl (Z.land s1 63) 6))
                    (Z.land s2 63), 3%nat)
        else (RuneError, 1%nat)
      | _ => (RuneError, 1%nat)
      end
    else
      let lo := if s0 =? 240 then 144 else 128 in
      let hi := if s0 =? 244 then 143 else 191 in
      match t with
      | c1 :: c2 :: c3 :: _ =>
        let s1 := rune c1 in
        let s2 := rune c2 in
        let s3 := rune c3 in
        if between lo hi s1 && between 128 191 s2 && between 128 191 s3
        then (Z.lor (Z.lor (Z.lor (Z.shiftl (Z.land s0 7) 18)
                                  (Z.shiftl (Z.land s1 63) 12))
                           (Z.shiftl (Z.land s2 63) 6))
                    (Z.land s3 63), 4%nat)
        else (RuneError, 1%nat)
      | _ => (RuneError, 1%nat)
      end
  end.

(** [for i, r := range s]: the pairs (byte offset, rune) the loop visits.
    [skip] counts the continuation bytes of the rune just decoded. *)
Fixpoint rangeFrom (skip : nat) (off : Z) (s : list ascii) : list (Z * Z) :=
  match s with
  | [] => []
  | _ :: t =>
    match skip with
    | S k => rangeFrom k (off + 1) t
    | O =>
      let '(r, w) := DecodeRuneInString s in
      (off, r) :: rangeFrom (Nat.pred w) (off + 1) t
    end
  end.

Definition rangeString (s : list ascii) : list (Z * Z) := rangeFrom 0 0 s.

(** [utf8.AppendRune], as used by [strings.Builder.WriteRune]. *)
Definition EncodeRune (r : Z) : list ascii :=
  if (0 <=? r) && (r <? 128) then [byte r]
  else if (0 <=? r) && (r <? 2048) then
    [byte (Z.lor 192 (Z.shiftr r 6)); byte (Z.lor 128 (Z.land r 63))]
  else if (r <? 0) || (1114111 <? r) || between 55296 57343 r then
    [byte 239; byte 191; byte 189]
  else if r <? 65536 then
    [byte (Z.lor 224 (Z.shiftr r 12));
     byte (Z.lor 128 (Z.land (Z.shiftr r 6) 63));
     byte (Z.lor 128 (Z.land r 63))]
  else
    [byte (Z.lor 240 (Z.shiftr r 18));
     byte (Z.lor 128 (Z.land (Z.shiftr r 12) 63));
     byte (Z.lor 128 (Z.land (Z.shiftr r 6) 63));
     byte (Z.lor 128 (Z.land r 63))].

(** A string of one-byte characters (below 128). *)
Definition ascii7 (s : list ascii) : Prop := Forall (fun c => rune c < 128) s.

End utf8.

(** ** Colours (package [image/color]) *)

Module color.

(** [color.RGBA]: four [uint8] channels, alpha-premultiplied. *)
Record RGBA : Type := mkRGBA { R : Z; G : Z; B : Z; A : Z }.

#[global] Instance RGBA_eq_dec : EqDecision RGBA.
Proof. solve_decision. Defined.

(** The zero value [color.RGBA{}]. *)
Definition zero : RGBA := mkRGBA 0 0 0 0.

(** [color.Transparent] after the conversion [image.RGBA.Set] applies to it
    ([color.RGBAModel.Convert] of [Alpha16{0}]). *)
Definition Transparent : RGBA := mkRGBA 0 0 0 0.

(** The method [RGBA()]: each channel widened to 16 bits, [r |= r << 8]. *)
Definition widen (v : Z) : Z := u32 (Z.lor (u32 v) (Z.shiftl (u32 v) 8)).
Definition RGBA16 (c : RGBA) : Z * Z * Z * Z :=
  (widen (R c), widen (G c), widen (B c), widen (A c)).

Definition wf (c : RGBA) : Prop :=
  0 <= R c < 256 /\ 0 <= G c < 256 /\ 0 <= B c < 256 /\ 0 <= A c < 256.

End color.

(** ** Pixel grids (package [image]) *)

Module image.

Record Rectangle : Type :=
  mkRectangle { MinX : Z; MinY : Z; MaxX : Z; MaxY : Z }.

(** [image.Rect]: the rectangle with the corners put in order. *)
Definition Rect (x0 y0 x1 y1 : Z) : Rectangle :=
  let '(x0, x1) := if x0 >? x1 then (x1, x0) else (x0, x1) in
  let '(y0, y1) := if y0 >? y1 then (y1, y0) else (y0, y1) in
  mkRectangle x0 y0 x1 y1.

Definition Dx (r : Rectangle) : Z := isub (MaxX r) (MinX r).
Definition Dy (r : Rectangle) : Z := isub (MaxY r) (MinY r).

(** [Point{x, y}.In(r)]. *)
Definition In (x y : Z) (r : Rectangle) : bool :=
  (MinX r <=? x) && (x <? MaxX r) && (MinY r <=? y) && (y <? MaxY r).

(** [image.RGBA]. The source keeps four bytes per pixel in [Pix]; here [Pix]
    holds one [color.RGBA] per pixel and [Stride] counts pixels. *)
Record RGBA : Type :=
  mkRGBA { Pix : list color.RGBA; Stride : Z; Bounds : Rectangle }.

(** [mul3NonNeg]: the product, or -1 when an argument is negative or the
    product overflows. *)
Definition mul3NonNeg (x y z : Z) : Z :=
  if (x <? 0) || (y <? 0) || (z <? 0) then -1
  else if 2 ^ 64 <=? x * y then -1
  else if 2 ^ 64 <=? x * y * z then -1
  else if 2 ^ 63 <=? x * y * z then -1
  else x * y * z.

(** [image.NewRGBA]: a zeroed grid; panics on huge dimensions. *)
Definition NewRGBA (r : Rectangle) : outcome RGBA :=
  if mul3NonNeg 4 (Dx r) (Dy r) <? 0 then Panic
  else Ok (mkRGBA (replicate (Z.to_nat (Dx r * Dy r)) color.zero) (Dx r) r).

Definition PixOffset (p : RGBA) (x y : Z) : Z :=
  iadd (imul (isub y (MinY (Bounds p))) (Stride p)) (isub x (MinX (Bounds p))).

(** [RGBA.Set] (written [Set_]: [Set] is reserved): nothing happens outside
    the bounds. *)
Definition Set_ (p : RGBA) (x y : Z) (c : color.RGBA) : RGBA :=
  if In x y (Bounds p)
  then mkRGBA (<[Z.to_nat (PixOffset p x y) := c]> (Pix p)) (Stride p) (Bounds p)
  else p.

(** [RGBA.At]: the zero colour outside the bounds. *)
Definition At (p : RGBA) (x y : Z) : color.RGBA :=
  if In x y (Bounds p)
  then default color.zero (Pix p !! Z.to_nat (PixOffset p x y))
  else color.zero.

(** The grids [NewRGBA (Rect 0 0 w h)] builds and [Set_] maintains. *)
Record wf (p : RGBA) : Prop := mkwf {
  wf_min : MinX (Bounds p) = 0 /\ MinY (Bounds p) = 0;
  wf_max : 0 <= MaxX (Bounds p) < 2 ^ 63 /\ 0 <= MaxY (Bounds p) < 2 ^ 62;
  wf_stride : Stride p = MaxX (Bounds p);
  wf_len : len (Pix p) = MaxX (Bounds p) * MaxY (Bounds p);
  wf_fits : 4 * (MaxX (Bounds p) * MaxY (Bounds p)) < 2 ^ 63
}.

Definition Width (p : RGBA) : Z := MaxX (Bounds p).
Definition Height (p : RGBA) : Z := MaxY (Bounds p).

End image.

(** ** PNG serialisation (package [image/png]) *)

Module png.

(** [png.Encode] on a writer that accepts every write. It first refuses,
    with a [FormatError] and before it writes anything, an image with a
    dimension that is not positive or does not fit 32 bits; otherwise the
    writer receives the image. *)
Definition Encode (w : list image.RGBA) (m : image.RGBA) : list image.RGBA * outcome () :=
  let mw := image.Dx (image.Bounds m) in
  let mh := image.Dy (image.Bounds m) in
  if (mw <=? 0) || (mh <=? 0) || (2 ^ 32 <=? mw) || (2 ^ 32 <=? mh)
  then (w, Err (InvalidImageSize mw mh))
  else (w ++ [m], Ok ()).

End png.

(** * dnapng.go *)

(** [dnaGrayscaleMap]: the intensity of each data symbol. *)
Definition dnaGrayscaleMap : gmap Z Z :=
  {[ rune "A" := 0; rune "T" := 64; rune "C" := 128; rune "G" := 192 ]}.

(** Indexing a Go map yields the zero value for an absent key. *)
Definition mapIndex (m : gmap Z Z) (k : Z) : Z := default 0 (m !! k).

(** The orders in which [range m] may visit the entries of [m]. *)
Definition iteration_order (m : gmap Z Z) (order : list (Z * Z)) : Prop :=
  order ≡ₚ map_to_list m.

Record Config : Type := mkConfig {
  BlockSize : Z;
  BlocksPerRow : Z;
  RowsPerBlock : Z;
  DecodeMode : bool;
  InputFile : list ascii;
  OutputFile : list ascii;
  UseStdio : bool;
  PaddingChar : list ascii;
  TransparentPad : bool
}.

(** The flag defaults of [parseFlags]. *)
Definition defaultConfig : Config :=
  mkConfig 10 40 1 false [] [] false (str "N") true.

Definition withLayout (blockSize blocksPerRow rowsPerBlock : Z) (cfg : Config) : Config :=
  mkConfig blockSize blocksPerRow rowsPerBlock (DecodeMode cfg) (InputFile cfg)
           (OutputFile cfg) (UseStdio cfg) (PaddingChar cfg) (TransparentPad cfg).

Definition withTransparentPad (b : bool) (cfg : Config) : Config :=
  mkConfig (BlockSize cfg) (BlocksPerRow cfg) (RowsPerBlock cfg) (DecodeMode cfg)
           (InputFile cfg) (OutputFile cfg) (UseStdio cfg) (PaddingChar cfg) b.

(** ** Classification *)

(** One iteration of the loop of [findClosestDNABaseGrayscale]. *)
Definition closer (intensity : Z) (acc : Z * Z) (entry : Z * Z) : Z * Z :=
  let '(minDiff, closestBase) := acc in
  let '(base, mappedIntensity) := entry in
  let diff :=
    if intensity >? mappedIntensity
    then u8 (intensity - mappedIntensity)
    else u8 (mappedIntensity - intensity) in
  if diff <? minDiff then (diff, base) else (minDiff, closestBase).

(** [findClosestDNABaseGrayscale], the map visited in the order [order]. *)
Definition findClosestDNABaseGrayscale
    (order : list (Z * Z)) (intensity tolerance : Z) : outcome Z :=
  let '(minDiff, closestBase) := foldl (closer intensity) (256, 0) order in
  if u8 minDiff >? tolerance
  then Err (IntensityTooFar intensity minDiff)
  else Ok closestBase.

(** ** Encoding *)

(** [for v := 0; v < n; v++ { body }] over a state. *)
Definition forUpTo {S : Type} (n : Z) (body : Z -> S -> S) (s : S) : S :=
  foldl (fun s v => body v s) s (seqZ 0 n).

(** The two nested loops that paint one square. *)
Definition fillSquare (blockSize x y : Z) (c : color.RGBA) (img : image.RGBA) : image.RGBA :=
  forUpTo blockSize (fun dx =>
    forUpTo blockSize (fun dy img => image.Set_ img (iadd x dx) (iadd y dy) c)) img.

(** The transparent background, painted when [TransparentPad] is set. *)
Definition fillTransparent (imgWidth imgHeight : Z) (img : image.RGBA) : image.RGBA :=
  forUpTo imgHeight (fun y =>
    forUpTo imgWidth (fun x img => image.Set_ img x y color.Transparent)) img.

(** The body of [for i, base := range blockSeq]. *)
Definition paintBase (cfg : Config) (block : Z) (img : image.RGBA) (ib : Z * Z) : image.RGBA :=
  let '(i, base) := ib in
  let col := irem i (BlocksPerRow cfg) in
  let row := iadd (idiv i (BlocksPerRow cfg)) (imul block (RowsPerBlock cfg)) in
  let x := imul col (BlockSize cfg) in
  let y := imul row (BlockSize cfg) in
  let grayVal := mapIndex dnaGrayscaleMap base in
  let c := color.mkRGBA grayVal grayVal grayVal 255 in
  fillSquare (BlockSize cfg) x y c img.

(** [s[lo:hi]]; panics unless [0 <= lo <= hi <= len(s)]. *)
Definition slice (s : list ascii) (lo hi : Z) : outcome (list ascii) :=
  if (0 <=? lo) && (lo <=? hi) && (hi <=? len s)
  then Ok (take (Z.to_nat (hi - lo)) (drop (Z.to_nat lo) s))
  else Panic.

(** The body of [for block := 0; block < numBlocks; block++]. *)
Definition paintBlock (dnaSequence : list ascii) (cfg : Config) (basesPerBlock : Z)
    (img : image.RGBA) (block : Z) : outcome image.RGBA :=
  let start := imul block basesPerBlock in
  let end_ := iadd start basesPerBlock in
  let end_ := if end_ >? len dnaSequence then len dnaSequence else end_ in
  blockSeq ← slice dnaSequence start end_;
  Ok (foldl (paintBase cfg block) img (utf8.rangeString blockSeq)).

(** [dnaToPNGGrayscale] up to the call of [png.Encode]: the pixel grid. *)
Definition dnaToGrid (dnaSequence : list ascii) (cfg : Config) : outcome image.RGBA :=
  if BlockSize cfg <=? 0 then Err (InvalidConfiguration "block size must be positive")
  else if BlocksPerRow cfg <=? 0 then Err (InvalidConfiguration "blocks per row must be positive")
  else if RowsPerBlock cfg <=? 0 then Err (InvalidConfiguration "rows per block must be positive")
  else
    let basesPerBlock := imul (BlocksPerRow cfg) (RowsPerBlock cfg) in
    if basesPerBlock =? 0 then Panic
    else
      let numBlocks := idiv (isub (iadd (len dnaSequence) basesPerBlock) 1) basesPerBlock in
      let imgWidth := imul (BlocksPerRow cfg) (BlockSize cfg) in
      let imgHeight := imul (imul numBlocks (RowsPerBlock cfg)) (BlockSize cfg) in
      img ← image.NewRGBA (image.Rect 0 0 imgWidth imgHeight);
      let img := if TransparentPad cfg then fillTransparent imgWidth imgHeight img else img in
      foldl (fun acc block => img ← acc; paintBlock dnaSequence cfg basesPerBlock img block)
            (Ok img) (seqZ 0 numBlocks).

(** [dnaToPNGGrayscale]: [writer] holds the images written so far; the only
    write is the final [png.Encode], whose error the function returns.
    Returns the writer and the result. *)
Definition dnaToPNGGrayscale (dnaSequence : list ascii) (writer : list image.RGBA)
    (cfg : Config) : list image.RGBA * outcome () :=
  match dnaToGrid dnaSequence cfg with
  | Ok img => png.Encode writer img
  | Err e => (writer, Err e)
  | Panic => (writer, Panic)
  end.

(** ** Decoding *)

Section decoder.

(** [ord k] is the order in which the classification of the block decoded
    when the builder holds [k] bytes visits [dnaGrayscaleMap]. *)
Variable ord : nat -> list (Z * Z).
Variable img : image.RGBA.
Variable cfg : Config.

(** The body of the innermost loop for the block whose top-left pixel is
    [(pixelX, pixelY)]: the rune written to the builder. *)
Definition decodePixel (order : list (Z * Z)) (paddingChar pixelX pixelY : Z) : outcome Z :=
  let '(r, g, b, a) := color.RGBA16 (image.At img pixelX pixelY) in
  if a <? 65535 ÷ 2 then Ok paddingChar
  else
    let intensity := u8 (u32 (u32 (u32 (u32 (r + g) + b) ÷ 3) ÷ 257)) in
    match findClosestDNABaseGrayscale order intensity 20 with
    | Ok base => Ok base
    | Err e => Err (UnclassifiablePixel pixelX pixelY e)
    | Panic => Panic
    end.

Variable paddingChar : Z.
Variable blocksPerRow rowsOfBlocks : Z.

(** [for rowInBlock := 0; rowInBlock < cfg.RowsPerBlock; rowInBlock++], with
    its [break]; [rows] are the values of [rowInBlock] still to visit. *)
Fixpoint rowLoop (blockRow col : Z) (rows : list Z) (sb : list ascii) : outcome (list ascii) :=
  match rows with
  | [] => Ok sb
  | rowInBlock :: rows' =>
    if iadd blockRow rowInBlock >=? rowsOfBlocks then Ok sb
    else
      let pixelX := imul col (BlockSize cfg) in
      let pixelY := imul (iadd blockRow rowInBlock) (BlockSize cfg) in
      base ← decodePixel (ord (length sb)) paddingChar pixelX pixelY;
      rowLoop blockRow col rows' (sb ++ utf8.EncodeRune base)
  end.

(** [for col := 0; col < blocksPerRow; col++]. *)
Definition colLoop (blockRow : Z) (sb : list ascii) : outcome (list ascii) :=
  foldl (fun acc col => sb ← acc; rowLoop blockRow col (seqZ 0 (RowsPerBlock cfg)) sb)
        (Ok sb) (seqZ 0 blocksPerRow).

(** [for blockRow := 0; blockRow < rowsOfBlocks; blockRow += cfg.RowsPerBlock]:
    [None] when [fuel] iterations do not reach the end of the loop. *)
Fixpoint groupLoop (fuel : nat) (blockRow : Z) (sb : list ascii) : option (outcome (list ascii)) :=
  match fuel with
  | O => None
  | S fuel' =>
    if blockRow <? rowsOfBlocks then
      match colLoop blockRow sb with
      | Ok sb' => groupLoop fuel' (iadd blockRow (RowsPerBlock cfg)) sb'
      | Err e => Some (Err e)
      | Panic => Some Panic
      end
    else Some (Ok sb)
  end.

End decoder.

(** [pngToDNAGrayscale] from the decoded image to the contents of the
    builder. *)
Definition gridToDNA (fuel : nat) (ord : nat -> list (Z * Z)) (img : image.RGBA)
    (cfg : Config) : option (outcome (list ascii)) :=
  if BlockSize cfg <=? 0 then Some (Err (InvalidConfiguration "block size must be positive"))
  else
    let imgWidth := image.MaxX (image.Bounds img) in
    let imgHeight := image.MaxY (image.Bounds img) in
    if negb (irem imgWidth (BlockSize cfg) =? 0) || negb (irem imgHeight (BlockSize cfg) =? 0)
    then Some (Err (DimensionMismatch imgWidth imgHeight (BlockSize cfg)))
    else
      let blocksPerRow := idiv imgWidth (BlockSize cfg) in
      let rowsOfBlocks := idiv imgHeight (BlockSize cfg) in
      match PaddingChar cfg with
      | [] => Some Panic
      | c :: _ => groupLoop ord img cfg (rune c) blocksPerRow rowsOfBlocks fuel 0 []
      end.

(** [pngToDNAGrayscale]: [writer] holds the bytes written so far; the only
    write is the final [writer.Write]. Returns the writer and the result. *)
Definition pngToDNAGrayscale (fuel : nat) (ord : nat -> list (Z * Z)) (img : image.RGBA)
    (writer : list ascii) (cfg : Config) : option (list ascii * outcome ()) :=
  match gridToDNA fuel ord img cfg with
  | None => None
  | Some (Ok dna) => Some (writer ++ dna, Ok ())
  | Some (Err e) => Some (writer, Err e)
  | Some Panic => Some (writer, Panic)
  end.

(** [validateDNA]. *)
Definition validateDNA (sequence : list ascii) (paddingChar : Z) : bool :=
  forallb (fun '(_, c) =>
    negb (negb (c =? rune "A") && negb (c =? rune "T") && negb (c =? rune "C")
          && negb (c =? rune "G") && negb (c =? paddingChar)))
    (utf8.rangeString sequence).

(** ** The command: [main] with [DecodeMode] unset *)

(** [strings.TrimSpace] on its ASCII path: leading and trailing bytes of
    [asciiSpace] are dropped. [None] when the scan meets a byte of 128 or
    more; the library then falls back on its Unicode-aware path, which is
    outside the embedding. *)
Definition asciiSpace (c : ascii) : bool :=
  let b := rune c in
  (b =? 9) || (b =? 10) || (b =? 11) || (b =? 12) || (b =? 13) || (b =? 32).

Fixpoint trimLeading (s : list ascii) : option (list ascii) :=
  match s with
  | [] => Some []
  | c :: t =>
    if 128 <=? rune c then None
    else if asciiSpace c then trimLeading t
    else Some s
  end.

Definition TrimSpace (s : list ascii) : option (list ascii) :=
  s' ← trimLeading s;
  r ← trimLeading (reverse s');
  Some (reverse r).

(** [strings.ToUpper] on its ASCII path; [None] when the string holds a byte
    of 128 or more. *)
Definition ToUpper (s : list ascii) : option (list ascii) :=
  if forallb (fun c => rune c <? 128) s
  then Some ((fun c => if (rune "a" <=? rune c) && (rune c <=? rune "z")
                       then byte (rune c - (rune "a" - rune "A")) else c) <$> s)
  else None.

(** How [main] ends: normally, through [os.Exit(1)], or in a panic. *)
Inductive status : Type :=
| Success
| Failure
| Panicked.

(** [main] when [cfg.DecodeMode] is false, from the bytes read from the
    input to the images written. [None]: the input leaves the ASCII paths
    of [TrimSpace] and [ToUpper]. *)
Definition mainEncode (cfg : Config) (data : list ascii) (writer : list image.RGBA)
    : option (list image.RGBA * status) :=
  match PaddingChar cfg with
  | [] => Some (writer, Panicked)
  | c :: _ =>
    let paddingChar := rune c in
    trimmed ← TrimSpace data;
    sequence ← ToUpper trimmed;
    if negb (validateDNA sequence paddingChar) then Some (writer, Failure)
    else
      match dnaToPNGGrayscale sequence writer cfg with
      | (writer, Ok _) => Some (writer, Success)
      | (writer, Err _) => Some (writer, Failure)
      | (writer, Panic) => Some (writer, Panicked)
      end
  end.

(** * dnacrypt.go *)

(** [byteToDNA]: the four bases of a byte, most significant pair first. *)
Definition byteToDNA (b : Z) : list ascii :=
  foldl (fun dnaSequence i =>
           let twoBits := Z.land (u8 (Z.shiftr b (i * 2))) 3 in
           dnaSequence ++
             (if twoBits =? 0 then str "A"
              else if twoBits =? 1 then str "T"
              else if twoBits =? 2 then str "C"
              else if twoBits =? 3 then str "G"
              else []))
        [] [3; 2; 1; 0].

(** [dnaToByte]. *)
Definition dnaToByte (dna : list ascii) : outcome Z :=
  if negb (len dna =? 4) then Err (InvalidSequence "DNA sequence must be 4 bases long")
  else
    foldl (fun acc ir =>
             b ← acc;
             let r := ir.2 in
             val ← (if (r =? rune "A") || (r =? rune "a") then Ok 0
                    else if (r =? rune "T") || (r =? rune "t") then Ok 1
                    else if (r =? rune "C") || (r =? rune "c") then Ok 2
                    else if (r =? rune "G") || (r =? rune "g") then Ok 3
                    else Err (InvalidBase r));
             Ok (u8 (Z.lor (u8 (Z.shiftl b 2)) val)))
          (Ok 0) (utf8.rangeString dna).

(** [textToDNA]. *)
Definition textToDNA (text : list ascii) : list ascii :=
  foldl (fun dnaBuilder char => dnaBuilder ++ byteToDNA (rune char)) [] text.

(** [dnaToText]; the loop variable takes the values 0, 4, 8, ... below
    [len(dna)]. *)
Definition dnaToText (dna : list ascii) : outcome (list ascii) :=
  if negb (irem (len dna) 4 =? 0)
  then Err (InvalidSequence "DNA sequence length must be a multiple of 4")
  else
    foldl (fun acc i =>
             textBuilder ← acc;
             dnaSegment ← slice dna i (iadd i 4);
             b ← dnaToByte dnaSegment;
             Ok (textBuilder ++ [byte b]))
          (Ok []) ((fun k => 4 * k) <$> seqZ 0 ((len dna + 3) / 4)).

(** [dnaBaseToBinary]. *)
Definition dnaBaseToBinary (base : Z) : outcome Z :=
  if (base =? rune "A") || (base =? rune "a") then Ok 0
  else if (base =? rune "T") || (base =? rune "t") then Ok 1
  else if (base =? rune "C") || (base =? rune "c") then Ok 2
  else if (base =? rune "G") || (base =? rune "g") then Ok 3
  else Err (InvalidBase base).

(** [binaryToDNABase]. *)
Definition binaryToDNABase (val : Z) : outcome Z :=
  let v := Z.land val 3 in
  if v =? 0 then Ok (rune "A")
  else if v =? 1 then Ok (rune "T")
  else if v =? 2 then Ok (rune "C")
  else if v =? 3 then Ok (rune "G")
  else Err (InvalidBinaryValue val).

(** [s[i]]; panics outside the string. *)
Definition index (s : list ascii) (i : Z) : outcome ascii :=
  if i <? 0 then Panic
  else match s !! Z.to_nat i with
       | Some c => Ok c
       | None => Panic
       end.

Definition located (operand i : Z) (res : outcome Z) : outcome Z :=
  match res with
  | Err e => Err (InvalidBaseAt operand i e)
  | other => other
  end.

(** [xorDNAStrings]. *)
Definition xorDNAStrings (dna1 dna2 : list ascii) : outcome (list ascii) :=
  if negb (len dna1 =? len dna2)
  then Err (InvalidSequence "DNA strings must have the same length")
  else
    foldl (fun acc i =>
             resultBuilder ← acc;
             c1 ← index dna1 i;
             b1 ← located 1 i (dnaBaseToBinary (rune c1));
             c2 ← index dna2 i;
             b2 ← located 2 i (dnaBaseToBinary (rune c2));
             let xorResult := Z.lxor b1 b2 in
             resBase ← match binaryToDNABase xorResult with
                       | Err e => Err (XorConversion e)
                       | other => other
                       end;
             Ok (resultBuilder ++ utf8.EncodeRune resBase))
          (Ok []) (seqZ 0 (len dna1)).

(** * dnacrypt.go: the commands of [main] *)

(** [min]. *)
Definition min (a b : Z) : Z := if a <? b then a else b.

(** The ways a command stops through [log.Fatalf]. *)
Inductive fatal : Type :=
| KeyTooShort (needs has : Z)
| KeyLengthMismatch (keyLength ciphertextLength : Z)
| DuringEncryption (cause : error)
| DuringDecryption (cause : error)
| DecodingDNAToText (cause : error)
| InvalidKeyLength
| GettingRandomBytes.

(** How a command ends: the output file is written with [content], or the
    command stops through [log.Fatalf] and writes no file, or it panics. *)
Inductive ending : Type :=
| Written (content : list ascii)
| Fatal (f : fatal)
| Crashed.

(** The command [encrypt], from the contents of the plaintext file and of
    the key file to the contents of the output file. [None]: the key file
    leaves the ASCII path of [TrimSpace]. *)
Definition encryptCommand (plaintext keyFile : list ascii) : option ending :=
  let dnaPlaintext := textToDNA plaintext in
  match slice dnaPlaintext 0 (min (len dnaPlaintext) 20) with
  | Ok _ =>
    keyDNA ← TrimSpace keyFile;
    if len keyDNA <? len dnaPlaintext
    then Some (Fatal (KeyTooShort (len dnaPlaintext) (len keyDNA)))
    else
      match slice keyDNA 0 (len dnaPlaintext) with
      | Ok keyDNA =>
        match xorDNAStrings dnaPlaintext keyDNA with
        | Ok ciphertextDNA => Some (Written ciphertextDNA)
        | Err e => Some (Fatal (DuringEncryption e))
        | Panic => Some Crashed
        end
      | _ => Some Crashed
      end
  | _ => Some Crashed
  end.

(** The command [decrypt]. *)
Definition decryptCommand (ciphertextFile keyFile : list ascii) : option ending :=
  ciphertextDNA ← TrimSpace ciphertextFile;
  keyDNA ← TrimSpace keyFile;
  if negb (len keyDNA =? len ciphertextDNA)
  then Some (Fatal (KeyLengthMismatch (len keyDNA) (len ciphertextDNA)))
  else
    match xorDNAStrings ciphertextDNA keyDNA with
    | Ok decryptedDNAPlaintext =>
      match dnaToText decryptedDNAPlaintext with
      | Ok decryptedText => Some (Written decryptedText)
      | Err e => Some (Fatal (DecodingDNAToText e))
      | Panic => Some Crashed
      end
    | Err e => Some (Fatal (DuringDecryption e))
    | Panic => Some Crashed
    end.

Definition u16 (z : Z) : Z := z mod 2 ^ 16.

Section genkey.

(** [tpm call n]: what the call number [call] of [tpm2.GetRandom] returns
    when asked for [n] bytes; [None] is an error. *)
Variable tpm : nat -> Z -> option (list ascii).
Variable keyLength : Z.

(** [for remaining > 0 { ... }]: [None] when [fuel] iterations do not reach
    the end of the loop; otherwise the builder, or the fatal error. *)
Fixpoint genkeyLoop (fuel call : nat) (remaining : Z) (keyBuilder : list ascii)
    : option (fatal + list ascii) :=
  match fuel with
  | O => None
  | S fuel' =>
    if remaining >? 0 then
      let bytesNeeded := idiv (iadd remaining 3) 4 in
      let bytesNeeded := if bytesNeeded >? 1024 then 1024 else bytesNeeded in
      match tpm call (u16 bytesNeeded) with
      | None => Some (inl GettingRandomBytes)
      | Some tpmRandomBytes =>
        let keyBuilder :=
          foldl (fun sb b => sb ++ byteToDNA (rune b)) keyBuilder tpmRandomBytes in
        let generated := len keyBuilder in
        if generated >=? keyLength then Some (inr keyBuilder)
        else genkeyLoop fuel' (S call) (isub keyLength generated) keyBuilder
      end
    else Some (inr keyBuilder)
  end.

(** The command [genkey], from the parsed length on. *)
Definition genkeyCommand (fuel : nat) : option ending :=
  if keyLength <=? 0 then Some (Fatal InvalidKeyLength)
  else
    match genkeyLoop fuel 0 keyLength [] with
    | None => None
    | Some (inl f) => Some (Fatal f)
    | Some (inr keyBuilder) =>
      match slice keyBuilder 0 keyLength with
      | Ok keyDNA => Some (Written keyDNA)
      | _ => Some Crashed
      end
    end.

End genkey.

(** * dnacodec (src/unnamed/part_000) *)

(** [bufio.Writer], with its default buffer of 4096 bytes, over a writer that
    accepts every write: [out] is what the underlying writer has received,
    [buf] the bytes still in the buffer. *)
Module bufio.

Record Writer : Type := mkWriter { out : list ascii; buf : list ascii }.

Definition defaultBufSize : Z := 4096.

Definition NewWriter (w : list ascii) : Writer := mkWriter w [].

Definition Available (b : Writer) : Z := defaultBufSize - len (buf b).

Definition Flush (b : Writer) : Writer := mkWriter (out b ++ buf b) [].

Definition WriteByte (b : Writer) (c : ascii) : Writer :=
  let b := if Available b <=? 0 then Flush b else b in
  mkWriter (out b) (buf b ++ [c]).

End bufio.

(** The errors of the two conversions. The reader is a byte string followed
    by [io.EOF] and the writer accepts every write, so the errors of reading
    and writing do not arise. *)
Inductive codecError : Type :=
| InvalidDNABase (dnaBaseByte : Z)
| OddNumberOfBits.

Definition newline : ascii := "010"%char.

(** The [switch bits] of [encodeBytesToDNA]; [dnaBase] keeps its zero value
    when no case applies. *)
Definition dnaBaseOf (bits : Z) : ascii :=
  if bits =? 0 then "A"%char
  else if bits =? 1 then "C"%char
  else if bits =? 2 then "G"%char
  else if bits =? 3 then "T"%char
  else "000"%char.

(** The body of [for i := 3; i >= 0; i--] in [encodeBytesToDNA], on the
    writer and [charsWrittenInLine]. *)
Definition encodeBase (wrapWidth : Z) (b : Z) (st : bufio.Writer * Z) (i : Z)
    : bufio.Writer * Z :=
  let '(writer, charsWrittenInLine) := st in
  let bits := Z.land (u8 (Z.shiftr b (i * 2))) 3 in
  let writer := bufio.WriteByte writer (dnaBaseOf bits) in
  let charsWrittenInLine := iadd charsWrittenInLine 1 in
  if (wrapWidth >? 0) && (charsWrittenInLine >=? wrapWidth)
  then (bufio.WriteByte writer newline, 0)
  else (writer, charsWrittenInLine).

(** [encodeBytesToDNA]: what the underlying writer holds in the end, and the
    error. *)
Definition encodeBytesToDNA (input output : list ascii) (wrapWidth : Z)
    : list ascii * option codecError :=
  let '(writer, charsWrittenInLine) :=
    foldl (fun st b => foldl (encodeBase wrapWidth (rune b)) st [3; 2; 1; 0])
          (bufio.NewWriter output, 0) input in
  let writer :=
    if (wrapWidth >? 0) && (charsWrittenInLine >? 0)
    then bufio.WriteByte writer newline else writer in
  (bufio.out (bufio.Flush writer), None).

(** The [switch dnaBaseByte] of [decodeDNAToBytes]. *)
Inductive symbol : Type :=
| Bits (bits : Z)
| Skipped
| Unknown.

Definition classify (dnaBaseByte : Z) : symbol :=
  if (dnaBaseByte =? rune "A") || (dnaBaseByte =? rune "a") then Bits 0
  else if (dnaBaseByte =? rune "C") || (dnaBaseByte =? rune "c") then Bits 1
  else if (dnaBaseByte =? rune "G") || (dnaBaseByte =? rune "g") then Bits 2
  else if (dnaBaseByte =? rune "T") || (dnaBaseByte =? rune "t") then Bits 3
  else if (dnaBaseByte =? rune newline) || (dnaBaseByte =? rune "013")
          || (dnaBaseByte =? rune " ") then Skipped
  else Unknown.

(** The loop of [decodeDNAToBytes] on the bytes still to read. *)
Fixpoint decodeLoop (input : list ascii) (currentByte bitsCollected : Z)
    (writer : bufio.Writer) : bufio.Writer * option codecError :=
  match input with
  | [] =>
    if negb (bitsCollected =? 0) then (writer, Some OddNumberOfBits) else (writer, None)
  | dnaBaseByte :: rest =>
    match classify (rune dnaBaseByte) with
    | Skipped => decodeLoop rest currentByte bitsCollected writer
    | Unknown => (writer, Some (InvalidDNABase (rune dnaBaseByte)))
    | Bits bits =>
      let currentByte := u8 (Z.lor (u8 (Z.shiftl currentByte 2)) bits) in
      let bitsCollected := iadd bitsCollected 2 in
      if bitsCollected =? 8
      then decodeLoop rest 0 0 (bufio.WriteByte writer (byte currentByte))
      else decodeLoop rest currentByte bitsCollected writer
    end
  end.

(** [decodeDNAToBytes]: an error returns before the final [Flush]. *)
Definition decodeDNAToBytes (input output : list ascii) : list ascii * option codecError :=
  match decodeLoop input 0 0 (bufio.NewWriter output) with
  | (writer, Some e) => (bufio.out writer, Some e)
  | (writer, None) => (bufio.out (bufio.Flush writer), None)
  end.

(** * The vocabulary of the properties *)

(** The distance between a sampled intensity and the intensity of a symbol. *)
Definition distance (intensity mappedIntensity : Z) : Z := Z.abs (intensity - mappedIntensity).

(** The transparency test [decodePixel] makes on the sampled pixel. *)
Definition transparent (c : color.RGBA) : bool :=
  let '(_, _, _, a) := color.RGBA16 c in a <? 65535 ÷ 2.

(** The intensity [decodePixel] computes from the sampled pixel. *)
Definition sampled (c : color.RGBA) : Z :=
  let '(r, g, b, _) := color.RGBA16 c in
  u8 (u32 (u32 (u32 (u32 (r + g) + b) ÷ 3) ÷ 257)).

(** Every classification visits the map in one of its possible orders. *)
Definition valid_orders (ord : nat -> list (Z * Z)) : Prop :=
  forall k, iteration_order dnaGrayscaleMap (ord k).

(** The order in which stdpp lists the map. *)
Definition listedOrder : nat -> list (Z * Z) := fun _ => map_to_list dnaGrayscaleMap.

(** A grid of one pixel. *)
Definition pixel1 (c : color.RGBA) : image.RGBA :=
  image.mkRGBA [c] 1 (image.mkRectangle 0 0 1 1).

(** Two blocks of one pixel side by side. *)
Definition pixel2 (c0 c1 : color.RGBA) : image.RGBA :=
  image.mkRGBA [c0; c1] 2 (image.mkRectangle 0 0 2 1).

(** A grid of [w] by [h] pixels, all of the zero colour. *)
Definition blank (w h : Z) : image.RGBA :=
  image.mkRGBA (replicate (Z.to_nat (w * h)) color.zero) w (image.mkRectangle 0 0 w h).

(** The blocks [(col, row)] of one block group, in the order of the two inner
    loops of the decoder: column by column, and down the rows of the group
    inside a column. *)
Definition groupBlocks (rowsPerBlock blocksPerRow rowsOfBlocks blockRow : Z) : list (Z * Z) :=
  col ← seqZ 0 blocksPerRow;
  (fun rowInBlock => (col, blockRow + rowInBlock))
    <$> seqZ 0 (Z.min rowsPerBlock (rowsOfBlocks - blockRow)).

(** The blocks of the whole image in the order of the three loops. *)
Definition visitOrder (img : image.RGBA) (cfg : Config) : list (Z * Z) :=
  let blocksPerRow := image.Width img / BlockSize cfg in
  let rowsOfBlocks := image.Height img / BlockSize cfg in
  let groups := (rowsOfBlocks + RowsPerBlock cfg - 1) / RowsPerBlock cfg in
  group ← seqZ 0 groups;
  groupBlocks (RowsPerBlock cfg) blocksPerRow rowsOfBlocks (group * RowsPerBlock cfg).

(** The images and configurations the decoder accepts. *)
Record decodable (img : image.RGBA) (cfg : Config) : Prop := mkdecodable {
  dec_wf : image.wf img;
  dec_bs : 0 < BlockSize cfg;
  dec_rpb : 0 < RowsPerBlock cfg < 2 ^ 63;
  dec_w : (BlockSize cfg | image.Width img);
  dec_h : (BlockSize cfg | image.Height img);
  dec_pad : PaddingChar cfg <> []
}.

(** [rune(cfg.PaddingChar[0])], zero when the string is empty (the source
    panics there). *)
Definition paddingRune (cfg : Config) : Z :=
  match PaddingChar cfg with
  | c :: _ => rune c
  | [] => 0
  end.

(** The number of iterations of the outer loop of the decoder. *)
Definition groupCount (img : image.RGBA) (cfg : Config) : nat :=
  Z.to_nat ((image.Height img / BlockSize cfg + RowsPerBlock cfg - 1) / RowsPerBlock cfg).

(** Decoding the blocks of a list one after the other. *)
Fixpoint decodeSeq (ord : nat -> list (Z * Z)) (img : image.RGBA) (cfg : Config)
    (paddingChar : Z) (blocks : list (Z * Z)) (sb : list ascii) : outcome (list ascii) :=
  match blocks with
  | [] => Ok sb
  | (col, row) :: rest =>
    base ← decodePixel img (ord (length sb)) paddingChar
             (col * BlockSize cfg) (row * BlockSize cfg);
    decodeSeq ord img cfg paddingChar rest (sb ++ utf8.EncodeRune base)
  end.

(** The block [blk] decodes to the rune [r], for some order of visit of the
    map that [ord] supplies. *)
Definition decodesTo (ord : nat -> list (Z * Z)) (img : image.RGBA) (cfg : Config)
    (paddingChar : Z) (blk : Z * Z) (r : Z) : Prop :=
  exists k, decodePixel img (ord k) paddingChar
              (blk.1 * BlockSize cfg) (blk.2 * BlockSize cfg) = Ok r.

(** Writing one colour at each point of a list. *)
Definition paint (c : color.RGBA) (img : image.RGBA) (pts : list (Z * Z)) : image.RGBA :=
  foldl (fun img p => image.Set_ img p.1 p.2 c) img pts.

(** A grid whose pixels are all of the zero colour, as [NewRGBA] returns. *)
Definition zeroed (img : image.RGBA) : Prop :=
  exists n, image.Pix img = replicate n color.zero.

(** The quantities the encoder derives from the layout and the length [n] of
    the sequence, without wrap-around. *)
Definition basesPerBlock (cfg : Config) : Z := BlocksPerRow cfg * RowsPerBlock cfg.
Definition numBlocks (cfg : Config) (n : Z) : Z :=
  (n + basesPerBlock cfg - 1) / basesPerBlock cfg.
Definition imgWidth (cfg : Config) : Z := BlocksPerRow cfg * BlockSize cfg.
Definition imgHeight (cfg : Config) (n : Z) : Z :=
  numBlocks cfg n * RowsPerBlock cfg * BlockSize cfg.

(** A valid layout whose image, for a sequence of [n] bytes, fits the address
    space: none of the encoder's integer operations wraps around. *)
Definition layout_ok (cfg : Config) (n : Z) : Prop :=
  0 < BlockSize cfg /\ 0 < BlocksPerRow cfg /\ 0 < RowsPerBlock cfg /\
  4 * (BlocksPerRow cfg * BlockSize cfg)
    * ((n + BlocksPerRow cfg * RowsPerBlock cfg) * BlockSize cfg) < 2 ^ 63.

(** The colour the encoder paints for the rune [base]. *)
Definition grayOf (base : Z) : color.RGBA :=
  let grayVal := mapIndex dnaGrayscaleMap base in
  color.mkRGBA grayVal grayVal grayVal 255.

(** Painting the block of the position [j] of the sequence, counted from the
    start of the sequence, with the colour of the rune [r]. *)
Definition paintAt (cfg : Config) (img : image.RGBA) (w : Z * Z) : image.RGBA :=
  fillSquare (BlockSize cfg)
    (w.1 mod BlocksPerRow cfg * BlockSize cfg)
    (w.1 / BlocksPerRow cfg * BlockSize cfg)
    (grayOf w.2) img.

(** The position of the sequence whose block holds the pixel [(x, y)]. *)
Definition blockIndex (cfg : Config) (x y : Z) : Z :=
  y / BlockSize cfg * BlocksPerRow cfg + x / BlockSize cfg.

(** [dnaSequence[start:end]] for the block group [block]. *)
Definition blockSeq (dnaSequence : list ascii) (cfg : Config) (block : Z) : list ascii :=
  take (Z.to_nat (basesPerBlock cfg)) (drop (Z.to_nat (block * basesPerBlock cfg)) dnaSequence).

(** The pairs (position in the sequence, rune) the encoder's loops visit. *)
Definition writes (dnaSequence : list ascii) (cfg : Config) : list (Z * Z) :=
  block ← seqZ 0 (numBlocks cfg (len dnaSequence));
  (fun ir => (block * basesPerBlock cfg + ir.1, ir.2))
    <$> utf8.rangeString (blockSeq dnaSequence cfg block).

(** The positions of [ws] name blocks inside a grid of height [h]. *)
Definition inGrid (cfg : Config) (h : Z) (ws : list (Z * Z)) : Prop :=
  forall j r, (j, r) ∈ ws -> 0 <= j /\ (j / BlocksPerRow cfg + 1) * BlockSize cfg <= h.

(** Two blocks per row and two rows per block group, blocks of one pixel. *)
Definition layout2x2 : Config := withLayout 1 2 2 defaultConfig.

(** The sequences of length [n] whose grid [png.Encode] accepts: the grid
    has a row, and its dimensions fit 32 bits. *)
Definition serialisable (cfg : Config) (n : Z) : Prop :=
  0 < n /\ imgWidth cfg < 2 ^ 32 /\ imgHeight cfg n < 2 ^ 32.


(** The four data symbols, in upper case. *)
Definition isBase (c : ascii) : Prop :=
  c = "A"%char \/ c = "T"%char \/ c = "C"%char \/ c = "G"%char.

(** The base [xorDNAStrings] writes for the bases [c1] and [c2]. *)
Definition xorBase (c1 c2 : ascii) : ascii :=
  match dnaBaseToBinary (rune c1), dnaBaseToBinary (rune c2) with
  | Ok b1, Ok b2 =>
    match binaryToDNABase (Z.lxor b1 b2) with
    | Ok r => byte r
    | _ => c1
    end
  | _, _ => c1
  end.

(** The bytes the decoder writes for the block of the position [k] of an
    encoded sequence: the symbol of the sequence at [k], or the padding
    symbol past its end. *)
Definition symbolAt (dnaSequence : list ascii) (cfg : Config) (k : Z) : list ascii :=
  match dnaSequence !! Z.to_nat k with
  | Some c => [c]
  | None => utf8.EncodeRune (paddingRune cfg)
  end.

(** ** The vocabulary of the further properties *)

(** The part of a decoded rune that the first two bytes of a multi-byte
    encoding contribute is at least 128. *)
Definition leading_ok (s0 s1 : Z) : bool :=
  (negb (utf8.between 194 223 s0 && utf8.between 128 191 s1)
   || (128 <=? Z.shiftl (Z.land s0 31) 6))
  && (negb (utf8.between 224 239 s0
            && utf8.between (if s0 =? 224 then 160 else 128) (if s0 =? 237 then 159 else 191) s1)
      || (128 <=? Z.lor (Z.shiftl (Z.land s0 15) 12) (Z.shiftl (Z.land s1 63) 6)))
  && (negb (utf8.between 240 244 s0
            && utf8.between (if s0 =? 240 then 144 else 128) (if s0 =? 244 then 143 else 191) s1)
      || (128 <=? Z.lor (Z.shiftl (Z.land s0 7) 18) (Z.shiftl (Z.land s1 63) 12))).

(** The symbols [validateDNA] lets through. *)
Definition allowed (paddingChar : Z) (c : Z) : bool :=
  negb (negb (c =? rune "A") && negb (c =? rune "T") && negb (c =? rune "C")
        && negb (c =? rune "G") && negb (c =? paddingChar)).


(** A base in either case: the eight symbols the conversions of dnacrypt.go
    accept. *)
Definition anyCaseBase (c : ascii) : Prop := c ∈ str "ATCGatcg".

#[global] Instance anyCaseBase_dec c : Decision (anyCaseBase c).
Proof. unfold anyCaseBase. apply _. Defined.

(** The upper-case form of a base; other bytes are left as they are. *)
Definition upperBase (c : ascii) : ascii :=
  if rune c =? rune "a" then "A"%char
  else if rune c =? rune "t" then "T"%char
  else if rune c =? rune "c" then "C"%char
  else if rune c =? rune "g" then "G"%char
  else c.

(** The body of the loop of [xorDNAStrings]. *)
Definition xorStep (dna1 dna2 : list ascii) (acc : outcome (list ascii)) (i : Z)
    : outcome (list ascii) :=
  resultBuilder ← acc;
  c1 ← index dna1 i;
  b1 ← located 1 i (dnaBaseToBinary (rune c1));
  c2 ← index dna2 i;
  b2 ← located 2 i (dnaBaseToBinary (rune c2));
  let xorResult := Z.lxor b1 b2 in
  resBase ← match binaryToDNABase xorResult with
            | Err e => Err (XorConversion e)
            | other => other
            end;
  Ok (resultBuilder ++ utf8.EncodeRune resBase).

(** The body of the loop of [dnaToByte]. *)
Definition dnaToByteStep (acc : outcome Z) (ir : Z * Z) : outcome Z :=
  b ← acc;
  let r := ir.2 in
  val ← (if (r =? rune "A") || (r =? rune "a") then Ok 0
         else if (r =? rune "T") || (r =? rune "t") then Ok 1
         else if (r =? rune "C") || (r =? rune "c") then Ok 2
         else if (r =? rune "G") || (r =? rune "g") then Ok 3
         else Err (InvalidBase r));
  Ok (u8 (Z.lor (u8 (Z.shiftl b 2)) val)).

(** The body of the loop of [dnaToText]. *)
Definition dnaToTextStep (dna : list ascii) (acc : outcome (list ascii)) (i : Z)
    : outcome (list ascii) :=
  textBuilder ← acc;
  dnaSegment ← slice dna i (iadd i 4);
  b ← dnaToByte dnaSegment;
  Ok (textBuilder ++ [byte b]).

(** [dnaToText] on a string of [n] segments of four bytes, one segment after
    the other. *)
Fixpoint decodeSegments (n : nat) (dna : list ascii) (textBuilder : list ascii)
    : outcome (list ascii) :=
  match n with
  | O => Ok textBuilder
  | S n' =>
    b ← dnaToByte (take 4 dna);
    decodeSegments n' (drop 4 dna) (textBuilder ++ [byte b])
  end.

(** What a buffered writer has been given: the bytes written through and the
    bytes still in the buffer. *)
Definition contents (w : bufio.Writer) : list ascii := bufio.out w ++ bufio.buf w.

(** The two bits of a byte at the shift [i * 2]. *)
Definition twoBits (b i : Z) : Z := Z.land (u8 (Z.shiftr b (i * 2))) 3.

(** The four bases [encodeBytesToDNA] writes for a byte. *)
Definition codecBases (b : ascii) : list ascii :=
  (fun i => dnaBaseOf (twoBits (rune b) i)) <$> [3; 2; 1; 0].

(** One step of [currentByte = (currentByte << 2) | bits]. *)
Definition shiftIn (currentByte bits : Z) : Z := u8 (Z.lor (u8 (Z.shiftl currentByte 2)) bits).

(** The bytes [decodeDNAToBytes] skips. *)
Definition skipped (c : ascii) : bool :=
  match classify (rune c) with
  | Skipped => true
  | _ => false
  end.

(** What the writer under a buffered writer over [output] has received:
    [output] and whole buffers of 4096 bytes. *)
Definition flushedInBlocks (output : list ascii) (w : bufio.Writer) : Prop :=
  exists written,
    bufio.out w = output ++ written /\ (4096 | len written) /\ len (bufio.buf w) <= 4096.

(** The values [bitsCollected] takes. *)
Definition pending (bitsCollected : Z) : Prop :=
  bitsCollected = 0 \/ bitsCollected = 2 \/ bitsCollected = 4 \/ bitsCollected = 6.

(** A byte the decoder accepts: a base in either case, or a skipped byte. *)
Definition known (c : ascii) : Prop := classify (rune c) <> Unknown.

(** The number of bases of a string. *)
Definition baseCount (input : list ascii) : Z :=
  len (List.filter (fun c => match classify (rune c) with Bits _ => true | _ => false end) input).

(** One base written by [encodeBytesToDNA], with the newline that ends a
    full line. *)
Definition emitBase (wrapWidth : Z) (st : bufio.Writer * Z) (dnaBase : ascii)
    : bufio.Writer * Z :=
  let '(writer, charsWrittenInLine) := st in
  let writer := bufio.WriteByte writer dnaBase in
  let charsWrittenInLine := iadd charsWrittenInLine 1 in
  if (wrapWidth >? 0) && (charsWrittenInLine >=? wrapWidth)
  then (bufio.WriteByte writer newline, 0)
  else (writer, charsWrittenInLine).

(** The bases of a byte string, four per byte. *)
Definition allBases (input : list ascii) : list ascii := c ← input; codecBases c.

(** The letter dnacodec writes for the two bits that a letter of dnacrypt
    stands for. *)
Definition relabel (c : ascii) : ascii :=
  match dnaBaseToBinary (rune c) with
  | Ok bits => dnaBaseOf bits
  | _ => c
  end.

(** * Properties *)

(** ** Outcomes, machine integers and bytes *)

Lemma bind_Ok {S T : Type} (m : outcome S) (f : S -> outcome T) (v : T) :
  m ≫= f = Ok v -> exists u, m = Ok u /\ f u = Ok v.
Proof. destruct m; simpl; intros H; try discriminate; eauto. Qed.

Lemma wrap64_id z : fits64 z -> wrap64 z = z.
Proof.
  unfold fits64, wrap64. intros H.
  rewrite Z.mod_small; lia.
Qed.

Lemma rune_range c : 0 <= rune c < 256.
Proof.
  unfold rune. destruct c as [[] [] [] [] [] [] [] []]; vm_compute; split; congruence.
Qed.

Lemma byte_rune c : byte (rune c) = c.
Proof.
  unfold byte, u8. rewrite Z.mod_small by apply rune_range.
  unfold rune. rewrite N2Z.id. apply ascii_N_embedding.
Qed.

(** A property checked on every value of a [uint8]. *)
Lemma forall_u8 (P : Z -> bool) :
  forallb P (seqZ 0 256) = true -> forall v, 0 <= v < 256 -> P v = true.
Proof.
  intros H v Hv. rewrite forallb_forall in H. apply H.
  apply list_elem_of_In, elem_of_seqZ. lia.
Qed.

(** ** UTF-8 *)

Section utf8_facts.

Import utf8.

Lemma rangeFrom_ascii7 s : ascii7 s ->
  forall off, rangeFrom 0 off s = imap (fun i c => (off + Z.of_nat i, rune c)) s.
Proof.
  induction 1 as [|c s Hc Hs IH]; intros off; [reflexivity|].
  cbn [rangeFrom DecodeRuneInString imap].
  destruct (Z.ltb_spec (rune c) 128) as [_|]; [|lia].
  cbn [Nat.pred]. rewrite IH. f_equal; [f_equal; lia|].
  apply imap_ext. intros i x _. simpl. f_equal. lia.
Qed.

Lemma EncodeRune_ascii7 c : rune c < 128 -> EncodeRune (rune c) = [c].
Proof.
  intros H. unfold EncodeRune. pose proof (rune_range c) as Hr.
  destruct (Z.leb_spec 0 (rune c)); [|lia].
  destruct (Z.ltb_spec (rune c) 128); [|lia].
  simpl. by rewrite byte_rune.
Qed.

End utf8_facts.

(** ** Colours and pixel grids *)

Section color_facts.

Import color.

Lemma widen_257 v : 0 <= v < 256 -> widen v = 257 * v.
Proof.
  intros Hv.
  assert (H : (widen v =? 257 * v) = true)
    by (revert v Hv; apply forall_u8; vm_compute; reflexivity).
  by apply Z.eqb_eq in H.
Qed.

End color_facts.

Section image_facts.

Import image.

Lemma In_spec p x y : wf p ->
  In x y (Bounds p) = true <-> 0 <= x < Width p /\ 0 <= y < Height p.
Proof.
  intros [[Hx Hy] _ _ _ _]. unfold In, Width, Height. rewrite Hx, Hy.
  rewrite !andb_true_iff, !Z.leb_le, !Z.ltb_lt. lia.
Qed.

Lemma PixOffset_wf p x y : wf p ->
  0 <= x < Width p -> 0 <= y < Height p ->
  PixOffset p x y = y * Width p + x /\ 0 <= y * Width p + x < len (Pix p).
Proof.
  intros [[Hx Hy] [Hw Hh] Hs Hl Hf] Hxr Hyr. unfold PixOffset, Width, Height in *.
  rewrite Hx, Hy, Hs, Hl.
  assert (Hb : 0 <= y * MaxX (Bounds p) + x < MaxX (Bounds p) * MaxY (Bounds p)) by nia.
  split; [|exact Hb].
  unfold iadd, imul, isub. rewrite !Z.sub_0_r.
  rewrite (wrap64_id y), (wrap64_id x) by (unfold fits64; nia).
  rewrite (wrap64_id (y * _)) by (unfold fits64; nia).
  apply wrap64_id. unfold fits64. nia.
Qed.

Lemma Set_wf p x y c : wf p -> wf (Set_ p x y c).
Proof.
  intros Hp. unfold Set_. destruct (In x y (Bounds p)); [|exact Hp].
  destruct Hp as [? ? ? Hl ?]. constructor; cbn; try assumption.
  unfold len in *. by rewrite length_insert.
Qed.

Lemma Set_Bounds p x y c : Bounds (Set_ p x y c) = Bounds p.
Proof. unfold Set_. by destruct (In x y (Bounds p)). Qed.

(** Reading a pixel after a write: the written colour at the written place
    (when it lies inside the grid), the old colour everywhere else. *)
Lemma At_Set p x y c x' y' : wf p ->
  At (Set_ p x y c) x' y' =
    if decide (x' = x /\ y' = y /\ In x y (Bounds p) = true) then c else At p x' y'.
Proof.
  intros Hp. unfold At. rewrite Set_Bounds. unfold Set_.
  destruct (In x y (Bounds p)) eqn:Hin.
  - destruct (In x' y' (Bounds p)) eqn:Hin'.
    + apply In_spec in Hin as [Hx Hy]; [|done].
      apply In_spec in Hin' as [Hx' Hy']; [|done].
      destruct (PixOffset_wf p x y Hp Hx Hy) as [Ho Hb].
      destruct (PixOffset_wf p x' y' Hp Hx' Hy') as [Ho' Hb'].
      unfold PixOffset in *. cbn [Pix Stride Bounds]. rewrite Ho, Ho'.
      unfold len in *.
      case_decide as Hd.
      * destruct Hd as (-> & -> & _). rewrite list_lookup_insert_eq by lia. done.
      * rewrite list_lookup_insert_ne; [done|].
        intros Heq. apply Hd. unfold Width in *.
        assert (y * MaxX (Bounds p) + x = y' * MaxX (Bounds p) + x') by lia.
        assert (y = y') by nia. subst. split_and!; [lia|done|done].
    + case_decide as Hd; [|done].
      destruct Hd as (-> & -> & _).
      apply In_spec in Hin; [|done]. apply In_spec in Hin; [|done]. congruence.
  - case_decide as Hd; [|done]. destruct Hd as (_ & _ & ?). congruence.
Qed.

End image_facts.

(** ** Classification: [findClosestDNABaseGrayscale] *)

Section classification.

Variable intensity : Z.
Hypothesis intensity_u8 : 0 <= intensity < 256.

(** What the loop has computed after visiting [order]: the least distance
    seen (capped by the initial value) and a base that attains it. *)
Lemma closer_fold order : forall minDiff closestBase m b,
  Forall (fun e => 0 <= e.2 < 256) order ->
  foldl (closer intensity) (minDiff, closestBase) order = (m, b) ->
  m <= minDiff /\
  Forall (fun e => m <= distance intensity e.2) order /\
  ((m, b) = (minDiff, closestBase) \/ (exists s, (b, s) ∈ order /\ m = distance intensity s)).
Proof.
  induction order as [|[base s] order IH]; intros minDiff closestBase m b Hr H.
  - simpl in H. injection H as <- <-. split; [lia|].
    split; [constructor|by left].
  - apply Forall_cons in Hr as [Hs Hr]. simpl in Hs, H.
    assert (Hd : (if intensity >? s then u8 (intensity - s) else u8 (s - intensity))
                 = distance intensity s).
    { unfold distance, u8. destruct (Z.gtb_spec intensity s);
        rewrite Z.mod_small; lia. }
    rewrite Hd in H.
    destruct (Z.ltb_spec (distance intensity s) minDiff) as [Hlt|Hge];
      apply IH in H as (Hle & Hall & Hwho); try assumption.
    + split; [lia|]. split; [constructor; [simpl; lia|exact Hall]|].
      right. destruct Hwho as [[= -> ->]|(s' & Hin & ->)].
      * exists s. split; [left|reflexivity].
      * exists s'. split; [by right|reflexivity].
    + split; [lia|]. split; [constructor; [simpl; lia|exact Hall]|].
      destruct Hwho as [Heq|(s' & Hin & ->)]; [by left|].
      right. exists s'. split; [by right|reflexivity].
Qed.

End classification.

Lemma dnaGrayscaleMap_entries base s :
  dnaGrayscaleMap !! base = Some s <->
  (base, s) = (rune "A", 0) \/ (base, s) = (rune "T", 64) \/
  (base, s) = (rune "C", 128) \/ (base, s) = (rune "G", 192).
Proof.
  rewrite <- elem_of_map_to_list.
  replace (map_to_list dnaGrayscaleMap)
    with [(rune "G", 192); (rune "C", 128); (rune "A", 0); (rune "T", 64)]
    by (vm_compute; reflexivity).
  rewrite !elem_of_cons, elem_of_nil. tauto.
Qed.

Lemma iteration_order_elem order base s :
  iteration_order dnaGrayscaleMap order ->
  (base, s) ∈ order <-> dnaGrayscaleMap !! base = Some s.
Proof. intros H. unfold iteration_order in H. rewrite H. apply elem_of_map_to_list. Qed.

Lemma iteration_order_range order :
  iteration_order dnaGrayscaleMap order -> Forall (fun e => 0 <= e.2 < 256) order.
Proof.
  intros H. apply Forall_forall. intros [base s] Hin.
  apply (iteration_order_elem _ _ _ H), dnaGrayscaleMap_entries in Hin.
  simpl. destruct Hin as [[= _ ->]|[[= _ ->]|[[= _ ->]|[= _ ->]]]]; lia.
Qed.

(** Within the tolerance of a symbol the classification returns that symbol,
    whatever the order of the visit. *)
Lemma findClosest_within order intensity base s :
  iteration_order dnaGrayscaleMap order ->
  0 <= intensity < 256 ->
  dnaGrayscaleMap !! base = Some s ->
  Z.abs (intensity - s) <= 20 ->
  findClosestDNABaseGrayscale order intensity 20 = Ok base.
Proof.
  intros Ho Hi Hs Hd. unfold findClosestDNABaseGrayscale.
  destruct (foldl _ _ _) as [m b] eqn:E.
  apply closer_fold in E as (Hle & Hall & Hwho);
    [|assumption|by apply iteration_order_range].
  pose proof (proj2 (iteration_order_elem _ _ _ Ho) Hs) as Hin.
  rewrite Forall_forall in Hall. pose proof (Hall _ Hin) as Hm.
  unfold distance in Hm. simpl in Hm.
  destruct Hwho as [[= -> ->]|(s' & Hin' & ->)]; [lia|].
  pose proof (Z.abs_nonneg (intensity - s')).
  unfold u8, distance in *. rewrite Z.mod_small by lia.
  destruct (Z.gtb_spec (Z.abs (intensity - s')) 20); [lia|].
  f_equal.
  apply (iteration_order_elem _ _ _ Ho), dnaGrayscaleMap_entries in Hin'.
  apply dnaGrayscaleMap_entries in Hs.
  destruct Hin' as [[= -> ->]|[[= -> ->]|[[= -> ->]|[= -> ->]]]];
    destruct Hs as [[= -> ->]|[[= -> ->]|[[= -> ->]|[= -> ->]]]];
    first [reflexivity | lia].
Qed.

(** Beyond the tolerance of every symbol the classification fails and
    reports the least distance. *)
Lemma findClosest_beyond order intensity :
  iteration_order dnaGrayscaleMap order ->
  0 <= intensity < 256 ->
  (forall base s, dnaGrayscaleMap !! base = Some s -> 20 < Z.abs (intensity - s)) ->
  exists minDiff,
    findClosestDNABaseGrayscale order intensity 20 = Err (IntensityTooFar intensity minDiff) /\
    (exists base s, dnaGrayscaleMap !! base = Some s /\ minDiff = Z.abs (intensity - s)) /\
    (forall base s, dnaGrayscaleMap !! base = Some s -> minDiff <= Z.abs (intensity - s)).
Proof.
  intros Ho Hi Hfar. unfold findClosestDNABaseGrayscale.
  destruct (foldl _ _ _) as [m b] eqn:E.
  apply closer_fold in E as (Hle & Hall & Hwho);
    [|assumption|by apply iteration_order_range].
  rewrite Forall_forall in Hall.
  assert (HA : (rune "A", 0) ∈ order)
    by (apply (iteration_order_elem _ _ _ Ho), dnaGrayscaleMap_entries; tauto).
  pose proof (Hall _ HA) as HmA. unfold distance in HmA. simpl in HmA.
  destruct Hwho as [[= -> ->]|(s' & Hin' & ->)]; [lia|].
  apply (iteration_order_elem _ _ _ Ho) in Hin'.
  pose proof (Hfar _ _ Hin') as Hgt. unfold distance in *.
  exists (Z.abs (intensity - s')).
  unfold u8. rewrite Z.mod_small by lia.
  destruct (Z.gtb_spec (Z.abs (intensity - s')) 20); [|lia].
  split; [reflexivity|]. split; [eauto|].
  intros base s Hs. apply (iteration_order_elem _ _ _ Ho) in Hs.
  apply (Hall _ Hs).
Qed.

(** The result does not depend on the order in which the map is visited. *)
Lemma findClosest_order_indep order1 order2 intensity :
  iteration_order dnaGrayscaleMap order1 ->
  iteration_order dnaGrayscaleMap order2 ->
  0 <= intensity < 256 ->
  findClosestDNABaseGrayscale order1 intensity 20 =
  findClosestDNABaseGrayscale order2 intensity 20.
Proof.
  intros H1 H2 Hi.
  destruct (decide (Exists (fun e => Z.abs (intensity - e.2) <= 20)
                           (map_to_list dnaGrayscaleMap))) as [Hyes|Hno].
  - apply Exists_exists in Hyes as ([base s] & Hin & Hd).
    apply elem_of_map_to_list in Hin. simpl in Hd.
    by rewrite !(findClosest_within _ _ base s).
  - assert (Hfar : forall base s, dnaGrayscaleMap !! base = Some s -> 20 < Z.abs (intensity - s)).
    { intros base s Hs. destruct (Z_lt_dec 20 (Z.abs (intensity - s))); [done|].
      exfalso. apply Hno, Exists_exists. exists (base, s). split; [by apply elem_of_map_to_list|simpl; lia]. }
    destruct (findClosest_beyond order1 intensity H1 Hi Hfar) as (m1 & -> & (b1 & s1 & Hs1 & ->) & Hmin1).
    destruct (findClosest_beyond order2 intensity H2 Hi Hfar) as (m2 & -> & (b2 & s2 & Hs2 & ->) & Hmin2).
    pose proof (Hmin1 _ _ Hs2). pose proof (Hmin2 _ _ Hs1).
    do 2 f_equal. lia.
Qed.

Lemma decodePixel_eq img order paddingChar pixelX pixelY :
  decodePixel img order paddingChar pixelX pixelY =
    if transparent (image.At img pixelX pixelY) then Ok paddingChar
    else match findClosestDNABaseGrayscale order (sampled (image.At img pixelX pixelY)) 20 with
         | Ok base => Ok base
         | Err e => Err (UnclassifiablePixel pixelX pixelY e)
         | Panic => Panic
         end.
Proof. reflexivity. Qed.

Lemma sampled_u8 c : 0 <= sampled c < 256.
Proof.
  unfold sampled. destruct (color.RGBA16 c) as [[[r g] b] a].
  unfold u8. apply Z.mod_pos_bound. reflexivity.
Qed.

(** A pixel of alpha below half of 255 is transparent, at least half is not. *)
Lemma transparent_spec c : 0 <= color.A c < 256 ->
  transparent c = true <-> 2 * color.A c < 255.
Proof.
  intros Ha. unfold transparent, color.RGBA16. rewrite (widen_257 (color.A c)) by done.
  change (65535 ÷ 2) with 32767. rewrite Z.ltb_lt. lia.
Qed.

(** A uniform gray pixel is sampled at its gray value. *)
Lemma sampled_gray v a : 0 <= v < 256 -> sampled (color.mkRGBA v v v a) = v.
Proof.
  intros Hv. change (sampled (color.mkRGBA v v v a)) with (sampled (color.mkRGBA v v v 0)).
  assert (H : (sampled (color.mkRGBA v v v 0) =? v) = true)
    by (revert v Hv; apply forall_u8; vm_compute; reflexivity).
  by apply Z.eqb_eq in H.
Qed.

(** C4. With the tolerance of 20 the decoder uses, an intensity at distance
    exactly 20 from a symbol's intensity is classified as that symbol, and an
    intensity at distance exactly 21 is rejected with the least distance 21;
    an opaque block sampled at such an intensity decodes accordingly (to the
    symbol, or to the error wrapped with the pixel's coordinates). This holds
    whatever the order in which the map is visited. *)
Theorem C4_tolerance_boundary img order paddingChar pixelX pixelY base s intensity :
  iteration_order dnaGrayscaleMap order ->
  dnaGrayscaleMap !! base = Some s ->
  0 <= intensity < 256 ->
  transparent (image.At img pixelX pixelY) = false ->
  sampled (image.At img pixelX pixelY) = intensity ->
  (Z.abs (intensity - s) = 20 ->
     findClosestDNABaseGrayscale order intensity 20 = Ok base /\
     decodePixel img order paddingChar pixelX pixelY = Ok base) /\
  (Z.abs (intensity - s) = 21 ->
     findClosestDNABaseGrayscale order intensity 20 = Err (IntensityTooFar intensity 21) /\
     decodePixel img order paddingChar pixelX pixelY =
       Err (UnclassifiablePixel pixelX pixelY (IntensityTooFar intensity 21))).
Proof.
  intros Ho Hs Hi Hopaque Hsampled. rewrite decodePixel_eq, Hopaque, Hsampled.
  split; intros Hd.
  - rewrite (findClosest_within order intensity base s) by (try assumption; lia). done.
  - destruct (findClosest_beyond order intensity Ho Hi) as (m & -> & (b' & s' & Hs' & ->) & Hmin).
    + intros b' s' Hs'. apply dnaGrayscaleMap_entries in Hs, Hs'.
      destruct Hs as [[= -> ->]|[[= -> ->]|[[= -> ->]|[= -> ->]]]];
        destruct Hs' as [[= -> ->]|[[= -> ->]|[[= -> ->]|[= -> ->]]]]; lia.
    + pose proof (Hmin _ _ Hs) as Hle.
      apply dnaGrayscaleMap_entries in Hs, Hs'.
      assert (Z.abs (intensity - s') = 21); [|by replace (Z.abs (intensity - s')) with 21].
      destruct Hs as [[= -> ->]|[[= -> ->]|[[= -> ->]|[= -> ->]]]];
        destruct Hs' as [[= -> ->]|[[= -> ->]|[[= -> ->]|[= -> ->]]]]; lia.
Qed.

Lemma C4_tolerance_boundary_witness :
  (findClosestDNABaseGrayscale (map_to_list dnaGrayscaleMap) 84 20 = Ok (rune "T") /\
   decodePixel (pixel1 (color.mkRGBA 84 84 84 255)) (map_to_list dnaGrayscaleMap) (rune "N") 0 0
     = Ok (rune "T")) /\
  (findClosestDNABaseGrayscale (map_to_list dnaGrayscaleMap) 43 20 = Err (IntensityTooFar 43 21) /\
   decodePixel (pixel1 (color.mkRGBA 43 43 43 255)) (map_to_list dnaGrayscaleMap) (rune "N") 0 0
     = Err (UnclassifiablePixel 0 0 (IntensityTooFar 43 21))).
Proof.
  split.
  - apply (C4_tolerance_boundary (pixel1 (color.mkRGBA 84 84 84 255))
             (map_to_list dnaGrayscaleMap) (rune "N") 0 0 (rune "T") 64 84);
      [unfold iteration_order; reflexivity | reflexivity | lia
      | reflexivity | reflexivity | reflexivity].
  - apply (C4_tolerance_boundary (pixel1 (color.mkRGBA 43 43 43 255))
             (map_to_list dnaGrayscaleMap) (rune "N") 0 0 (rune "T") 64 43);
      [unfold iteration_order; reflexivity | reflexivity | lia
      | reflexivity | reflexivity | reflexivity].
Defined.

(** ** Validation and rejection *)

Lemma rem_zero_divide a b : b <> 0 -> (Z.rem a b =? 0) = true <-> (b | a).
Proof. intros Hb. rewrite Z.eqb_eq. by apply Z.rem_divide. Qed.

(** The second check of the decoder. *)
Lemma gridToDNA_dimension_mismatch fuel ord img cfg :
  0 < BlockSize cfg ->
  ~ (BlockSize cfg | image.Width img) \/ ~ (BlockSize cfg | image.Height img) ->
  gridToDNA fuel ord img cfg =
    Some (Err (DimensionMismatch (image.Width img) (image.Height img) (BlockSize cfg))).
Proof.
  intros Hbs Hdim. unfold gridToDNA.
  destruct (Z.leb_spec (BlockSize cfg) 0); [lia|].
  fold (image.Width img) (image.Height img). unfold irem.
  assert (Hne : BlockSize cfg <> 0) by lia.
  destruct (Z.rem (image.Width img) (BlockSize cfg) =? 0) eqn:Ew; [|reflexivity].
  destruct (Z.rem (image.Height img) (BlockSize cfg) =? 0) eqn:Eh; [|reflexivity].
  apply rem_zero_divide in Ew, Eh; try assumption. tauto.
Qed.

(** C6. When the block size is positive and the width or the height of the
    image is not an exact multiple of it, decoding fails with
    [DimensionMismatch], whatever the fuel, and the writer is left as it was. *)
Theorem C6_dimension_mismatch fuel ord img writer cfg :
  0 < BlockSize cfg ->
  ~ (BlockSize cfg | image.Width img) \/ ~ (BlockSize cfg | image.Height img) ->
  pngToDNAGrayscale fuel ord img writer cfg =
    Some (writer, Err (DimensionMismatch (image.Width img) (image.Height img) (BlockSize cfg))).
Proof.
  intros Hbs Hdim. unfold pngToDNAGrayscale.
  by rewrite gridToDNA_dimension_mismatch.
Qed.

Lemma C6_dimension_mismatch_witness :
  pngToDNAGrayscale 0 listedOrder (blank 95 100) [] defaultConfig =
    Some ([], Err (DimensionMismatch 95 100 10)).
Proof.
  apply (C6_dimension_mismatch 0 listedOrder
           (blank 95 100) [] defaultConfig).
  - simpl. lia.
  - left. intros [k Hk]. change (95 = k * 10) in Hk. lia.
Defined.

(** C3, as the code has it. Encoding fails with [InvalidConfiguration], and
    writes no image, as soon as one of the block size, the blocks per row and
    the rows per block is not positive. Decoding fails with
    [InvalidConfiguration], and writes nothing, when the block size is not
    positive; it never reads the configured blocks per row (it derives the
    number of columns from the width of the image). *)
Theorem C3_validation dnaSequence images fuel ord img writer cfg :
  BlockSize cfg <= 0 \/ BlocksPerRow cfg <= 0 \/ RowsPerBlock cfg <= 0 ->
  (exists msg, dnaToPNGGrayscale dnaSequence images cfg = (images, Err (InvalidConfiguration msg))) /\
  (BlockSize cfg <= 0 ->
     pngToDNAGrayscale fuel ord img writer cfg =
       Some (writer, Err (InvalidConfiguration "block size must be positive"))) /\
  (forall n,
     pngToDNAGrayscale fuel ord img writer (withLayout (BlockSize cfg) n (RowsPerBlock cfg) cfg) =
     pngToDNAGrayscale fuel ord img writer cfg).
Proof.
  intros H. split; [|split].
  - unfold dnaToPNGGrayscale, dnaToGrid.
    destruct (Z.leb_spec (BlockSize cfg) 0); [eauto|].
    destruct (Z.leb_spec (BlocksPerRow cfg) 0); [eauto|].
    destruct (Z.leb_spec (RowsPerBlock cfg) 0); [eauto|]. lia.
  - intros Hbs. unfold pngToDNAGrayscale, gridToDNA.
    destruct (Z.leb_spec (BlockSize cfg) 0); [reflexivity|lia].
  - intros n. reflexivity.
Qed.

Lemma C3_validation_witness :
  (exists msg, dnaToPNGGrayscale (str "ATCG") [] (withLayout 0 40 1 defaultConfig) =
     ([], Err (InvalidConfiguration msg))) /\
  pngToDNAGrayscale 0 listedOrder (blank 4 4) []
      (withLayout 0 40 1 defaultConfig) =
    Some ([], Err (InvalidConfiguration "block size must be positive")).
Proof.
  destruct (C3_validation (str "ATCG") [] 0%nat listedOrder
              (blank 4 4) [] (withLayout 0 40 1 defaultConfig)) as (He & Hd & _).
  - left. simpl. lia.
  - split; [exact He|]. apply Hd. simpl. lia.
Defined.

(** C3 as stated fails for decoding: with zero blocks per row configured,
    decoding a one-pixel black image succeeds. *)
Lemma C3_counterexample :
  BlocksPerRow (withLayout 1 0 1 defaultConfig) <= 0 /\
  pngToDNAGrayscale 2 listedOrder
      (pixel1 (color.mkRGBA 0 0 0 255)) [] (withLayout 1 0 1 defaultConfig) =
    Some (str "A", Ok ()).
Proof. split; [simpl; lia|vm_compute; reflexivity]. Qed.

(** The rows per block are not validated by the decoder either: with zero
    rows per block the outer loop never advances, so no amount of fuel
    reaches its end. *)
Lemma groupLoop_zero_rows ord img cfg paddingChar blocksPerRow rowsOfBlocks fuel sb :
  RowsPerBlock cfg = 0 -> 0 < rowsOfBlocks ->
  groupLoop ord img cfg paddingChar blocksPerRow rowsOfBlocks fuel 0 sb = None.
Proof.
  intros Hr Hrows. induction fuel as [|fuel IH]; [reflexivity|].
  cbn [groupLoop]. destruct (Z.ltb_spec 0 rowsOfBlocks); [|lia].
  assert (Hc : colLoop ord img cfg paddingChar blocksPerRow rowsOfBlocks 0 sb = Ok sb).
  { unfold colLoop. rewrite Hr. generalize (seqZ 0 blocksPerRow).
    intros l. induction l as [|c l IHl]; [reflexivity|exact IHl]. }
  rewrite Hc, Hr. exact IH.
Qed.

(** ** The order in which the decoder visits the blocks *)

Section visit.

Variable ord : nat -> list (Z * Z).
Variable img : image.RGBA.
Variable cfg : Config.
Variable paddingChar : Z.

Lemma decodeSeq_app l1 l2 sb :
  decodeSeq ord img cfg paddingChar (l1 ++ l2) sb = decodeSeq ord img cfg paddingChar l1 sb ≫= decodeSeq ord img cfg paddingChar l2.
Proof.
  revert sb. induction l1 as [|[col row] l1 IH]; intros sb; [reflexivity|].
  cbn [app decodeSeq]. destruct (decodePixel _ _ _ _ _); simpl; [apply IH|done|done].
Qed.

Variable blocksPerRow rowsOfBlocks : Z.
Hypothesis bs_pos : 0 < BlockSize cfg.
Hypothesis width_fits : 0 <= blocksPerRow * BlockSize cfg < 2 ^ 63.
Hypothesis height_fits : 0 <= rowsOfBlocks * BlockSize cfg < 2 ^ 62.
Hypothesis rpb_fits : 0 < RowsPerBlock cfg < 2 ^ 63.

Lemma rowLoop_decodeSeq blockRow col : 0 <= blockRow -> 0 <= col < blocksPerRow ->
  forall k a n sb, Z.to_nat n = k -> 0 <= a -> blockRow + a <= rowsOfBlocks ->
  rowLoop ord img cfg paddingChar rowsOfBlocks blockRow col (seqZ a n) sb =
  decodeSeq ord img cfg paddingChar ((fun r => (col, blockRow + r)) <$> seqZ a (Z.min n (rowsOfBlocks - blockRow - a))) sb.
Proof.
  intros Hb Hc. induction k as [|k IH]; intros a n sb Hk Ha Hle.
  - rewrite (seqZ_nil a n) by lia. rewrite (seqZ_nil a (Z.min _ _)) by lia. reflexivity.
  - rewrite (seqZ_cons a n) by lia. cbn [rowLoop].
    assert (Hsum : iadd blockRow a = blockRow + a).
    { apply wrap64_id. unfold fits64. nia. }
    rewrite Hsum. destruct (Z.geb_spec (blockRow + a) rowsOfBlocks) as [Hge|Hlt].
    + rewrite (seqZ_nil a (Z.min _ _)) by lia. reflexivity.
    + rewrite (seqZ_cons a (Z.min _ _)) by lia. cbn [fmap list_fmap decodeSeq].
      assert (Hx : imul col (BlockSize cfg) = col * BlockSize cfg).
      { apply wrap64_id. unfold fits64. nia. }
      assert (Hy : imul (blockRow + a) (BlockSize cfg) = (blockRow + a) * BlockSize cfg).
      { apply wrap64_id. unfold fits64. nia. }
      rewrite Hx, Hy. destruct (decodePixel _ _ _ _ _); simpl; [|done|done].
      rewrite (IH (Z.succ a) (Z.pred n)) by lia.
      do 3 f_equal. lia.
Qed.

Lemma colLoop_decodeSeq blockRow sb : 0 <= blockRow < rowsOfBlocks ->
  colLoop ord img cfg paddingChar blocksPerRow rowsOfBlocks blockRow sb =
  decodeSeq ord img cfg paddingChar (groupBlocks (RowsPerBlock cfg) blocksPerRow rowsOfBlocks blockRow) sb.
Proof.
  intros Hb. unfold colLoop, groupBlocks.
  assert (Hcols : Forall (fun c => 0 <= c < blocksPerRow) (seqZ 0 blocksPerRow)).
  { apply Forall_forall. intros c Hc. apply elem_of_seqZ in Hc. lia. }
  set (rows := fun col : Z =>
         (fun r => (col, blockRow + r))
           <$> seqZ 0 (Z.min (RowsPerBlock cfg) (rowsOfBlocks - blockRow))).
  enough (Hgen : forall acc : outcome (list ascii),
            foldl (fun acc col => acc ≫= rowLoop ord img cfg paddingChar rowsOfBlocks
                                          blockRow col (seqZ 0 (RowsPerBlock cfg)))
                  acc (seqZ 0 blocksPerRow)
            = acc ≫= decodeSeq ord img cfg paddingChar (seqZ 0 blocksPerRow ≫= rows)) by apply (Hgen (Ok sb)).
  induction Hcols as [|c l Hc _ IH]; intros acc.
  - simpl. by destruct acc.
  - cbn [foldl]. rewrite IH. cbn [mbind list_bind].
    destruct acc as [sb'| |]; simpl; [|done|done].
    rewrite decodeSeq_app.
    rewrite (rowLoop_decodeSeq blockRow c) with (k := Z.to_nat (RowsPerBlock cfg))
      by (try reflexivity; lia).
    rewrite Z.sub_0_r. reflexivity.
Qed.

Lemma groupLoop_decodeSeq : forall k fuel group sb,
  let groups := (rowsOfBlocks + RowsPerBlock cfg - 1) / RowsPerBlock cfg in
  Z.to_nat (groups - group) = k -> 0 <= group <= groups -> (k < fuel)%nat ->
  groupLoop ord img cfg paddingChar blocksPerRow rowsOfBlocks fuel (group * RowsPerBlock cfg) sb =
  Some (decodeSeq ord img cfg paddingChar (g ← seqZ group (groups - group);
                   groupBlocks (RowsPerBlock cfg) blocksPerRow rowsOfBlocks (g * RowsPerBlock cfg)) sb).
Proof.
  intros k. induction k as [|k IH]; intros fuel group sb groups Hk Hg Hfuel;
    (destruct fuel as [|fuel]; [lia|]); cbn [groupLoop].
  - assert (group = groups) as -> by lia.
    assert (rowsOfBlocks <= groups * RowsPerBlock cfg).
    { subst groups. pose proof (Z.mul_div_le (rowsOfBlocks + RowsPerBlock cfg - 1) (RowsPerBlock cfg)).
      pose proof (Z.mod_pos_bound (rowsOfBlocks + RowsPerBlock cfg - 1) (RowsPerBlock cfg)).
      pose proof (Z.div_mod (rowsOfBlocks + RowsPerBlock cfg - 1) (RowsPerBlock cfg)). lia. }
    destruct (Z.ltb_spec (groups * RowsPerBlock cfg) rowsOfBlocks); [lia|].
    rewrite seqZ_nil by lia. reflexivity.
  - assert (Hlt : group * RowsPerBlock cfg < rowsOfBlocks).
    { assert (group + 1 <= groups) by lia. subst groups.
      pose proof (Z.mul_div_le (rowsOfBlocks + RowsPerBlock cfg - 1) (RowsPerBlock cfg)). nia. }
    destruct (Z.ltb_spec (group * RowsPerBlock cfg) rowsOfBlocks); [|lia].
    rewrite colLoop_decodeSeq by nia.
    rewrite (seqZ_cons group) by lia. cbn [mbind list_bind]. rewrite decodeSeq_app.
    destruct (decodeSeq ord img cfg paddingChar (groupBlocks _ _ _ _) sb) as [sb'| |]; simpl; [|done|done].
    assert (Hnext : iadd (group * RowsPerBlock cfg) (RowsPerBlock cfg)
                    = Z.succ group * RowsPerBlock cfg).
    { unfold iadd. rewrite wrap64_id; [lia|]. unfold fits64.
      assert (rowsOfBlocks < 2 ^ 62) by nia.
      destruct (decide (group = 0)) as [->|]; [lia|].
      assert (RowsPerBlock cfg <= group * RowsPerBlock cfg) by nia. lia. }
    rewrite Hnext. rewrite (IH fuel (Z.succ group)) by lia.
    fold groups. by replace (Z.pred (groups - group)) with (groups - Z.succ group) by lia.
Qed.

End visit.

Lemma quot_div_nonneg a b : 0 <= a -> 0 < b -> a ÷ b = a / b.
Proof. intros. apply Z.quot_div_nonneg; lia. Qed.

Lemma divide_div_mul a b : 0 < b -> (b | a) -> a / b * b = a.
Proof. intros Hb [k ->]. rewrite Z.div_mul by lia. reflexivity. Qed.

(** With enough fuel the decoder returns, and what it returns is the result
    of decoding the blocks one after the other in the visiting order. *)
Lemma gridToDNA_visit fuel ord img cfg :
  decodable img cfg -> (groupCount img cfg < fuel)%nat ->
  gridToDNA fuel ord img cfg =
    Some (decodeSeq ord img cfg (paddingRune cfg) (visitOrder img cfg) []).
Proof.
  intros [Hwf Hbs Hrpb Hw Hh Hpad] Hfuel. unfold gridToDNA, paddingRune.
  destruct Hwf as [_ [HW HH] _ _ _]. fold (image.Width img) (image.Height img) in *.
  destruct (Z.leb_spec (BlockSize cfg) 0); [lia|].
  assert (Hne : BlockSize cfg <> 0) by lia.
  unfold irem. rewrite (proj2 (rem_zero_divide _ _ Hne) Hw).
  rewrite (proj2 (rem_zero_divide _ _ Hne) Hh). cbn [negb orb].
  destruct (PaddingChar cfg) as [|c rest]; [done|].
  unfold idiv. rewrite !quot_div_nonneg by lia.
  pose proof (divide_div_mul _ _ Hbs Hw) as HwE.
  pose proof (divide_div_mul _ _ Hbs Hh) as HhE.
  assert (0 <= image.Width img / BlockSize cfg) by (apply Z.div_pos; lia).
  assert (0 <= image.Height img / BlockSize cfg) by (apply Z.div_pos; lia).
  rewrite !wrap64_id by (unfold fits64; nia).
  pose proof (groupLoop_decodeSeq ord img cfg (rune c)
                (image.Width img / BlockSize cfg) (image.Height img / BlockSize cfg)
                Hbs ltac:(lia) ltac:(lia) Hrpb (groupCount img cfg) fuel 0 []) as HG.
  cbn zeta in HG. rewrite Z.mul_0_l, Z.sub_0_r in HG. apply HG.
  - reflexivity.
  - split; [lia|]. apply Z.div_pos; lia.
  - exact Hfuel.
Qed.

(** More fuel does not change a result. *)
Lemma groupLoop_more_fuel ord img cfg paddingChar blocksPerRow rowsOfBlocks res :
  forall fuel fuel' blockRow sb, (fuel <= fuel')%nat ->
  groupLoop ord img cfg paddingChar blocksPerRow rowsOfBlocks fuel blockRow sb = Some res ->
  groupLoop ord img cfg paddingChar blocksPerRow rowsOfBlocks fuel' blockRow sb = Some res.
Proof.
  induction fuel as [|fuel IH]; intros fuel' blockRow sb Hle H; [discriminate|].
  destruct fuel' as [|fuel']; [lia|]. cbn [groupLoop] in *.
  destruct (blockRow <? rowsOfBlocks); [|exact H].
  destruct (colLoop _ _ _ _ _ _ _ _); try exact H.
  apply (IH fuel'); [lia|exact H].
Qed.

Lemma gridToDNA_more_fuel fuel fuel' ord img cfg res : (fuel <= fuel')%nat ->
  gridToDNA fuel ord img cfg = Some res -> gridToDNA fuel' ord img cfg = Some res.
Proof.
  intros Hle. unfold gridToDNA.
  destruct (BlockSize cfg <=? 0); [done|].
  destruct (_ || _); [done|].
  destruct (PaddingChar cfg); [done|]. by apply groupLoop_more_fuel.
Qed.

(** *** What a run over a list of blocks returns *)

Section decodeSeq_results.

Variable ord : nat -> list (Z * Z).
Variable img : image.RGBA.
Variable cfg : Config.
Variable paddingChar : Z.

Lemma decodeSeq_Ok blocks : forall sb out,
  decodeSeq ord img cfg paddingChar blocks sb = Ok out ->
  exists runes, out = sb ++ concat (utf8.EncodeRune <$> runes) /\
                Forall2 (decodesTo ord img cfg paddingChar) blocks runes.
Proof.
  induction blocks as [|[col row] blocks IH]; intros sb out H.
  - injection H as <-. exists []. split; [by rewrite app_nil_r|constructor].
  - cbn [decodeSeq] in H. apply bind_Ok in H as (r & Hr & H).
    apply IH in H as (runes & -> & Hall). exists (r :: runes).
    split; [by rewrite <- app_assoc|]. constructor; [by eexists|exact Hall].
Qed.

Lemma decodeSeq_Err blocks : forall sb e,
  decodeSeq ord img cfg paddingChar blocks sb = Err e ->
  exists pre blk post runes k,
    blocks = pre ++ blk :: post /\ Forall2 (decodesTo ord img cfg paddingChar) pre runes /\
    decodePixel img (ord k) paddingChar (blk.1 * BlockSize cfg) (blk.2 * BlockSize cfg) = Err e.
Proof.
  induction blocks as [|[col row] blocks IH]; intros sb e H; [discriminate|].
  cbn [decodeSeq] in H.
  destruct (decodePixel _ _ _ _ _) as [r|e'|] eqn:Hr; simpl in H; [| |discriminate].
  - apply IH in H as (pre & blk & post & runes & k & -> & Hall & Hblk).
    exists ((col, row) :: pre), blk, post, (r :: runes), k.
    split; [reflexivity|]. split; [|exact Hblk]. constructor; [by eexists|exact Hall].
  - injection H as <-. exists [], (col, row), blocks, [], (length sb).
    split; [reflexivity|]. split; [constructor|exact Hr].
Qed.

Lemma decodeSeq_no_Panic blocks : forall sb,
  decodeSeq ord img cfg paddingChar blocks sb <> Panic.
Proof.
  induction blocks as [|[col row] blocks IH]; intros sb; [discriminate|].
  cbn [decodeSeq]. rewrite decodePixel_eq.
  destruct (transparent _); simpl; [apply IH|].
  unfold findClosestDNABaseGrayscale. destruct (foldl _ _ _) as [m b].
  destruct (u8 m >? 20); simpl; [discriminate|apply IH].
Qed.

End decodeSeq_results.

(** Every block of the image is visited. *)
Lemma visitOrder_complete img cfg col row :
  0 < BlockSize cfg -> 0 < RowsPerBlock cfg ->
  0 <= col < image.Width img / BlockSize cfg ->
  0 <= row < image.Height img / BlockSize cfg ->
  (col, row) ∈ visitOrder img cfg.
Proof.
  intros Hbs Hrpb Hc Hr. unfold visitOrder, groupBlocks.
  set (rows := image.Height img / BlockSize cfg) in *.
  set (rpb := RowsPerBlock cfg) in *.
  pose proof (Z.div_mod row rpb ltac:(lia)) as Hdm.
  pose proof (Z.mod_pos_bound row rpb Hrpb) as Hm.
  assert (0 <= row / rpb) by (apply Z.div_pos; lia).
  apply list_elem_of_bind. exists (row / rpb). split.
  - apply list_elem_of_bind. exists col. split; [|apply elem_of_seqZ; lia].
    apply list_elem_of_fmap. exists (row mod rpb). split; [f_equal; lia|].
    apply elem_of_seqZ. lia.
  - apply elem_of_seqZ. split; [lia|]. rewrite Z.add_0_l.
    apply Z.div_lt_upper_bound; [lia|].
    pose proof (Z.mul_div_le (rows + rpb - 1) rpb Hrpb).
    pose proof (Z.div_mod (rows + rpb - 1) rpb ltac:(lia)).
    pose proof (Z.mod_pos_bound (rows + rpb - 1) rpb Hrpb). nia.
Qed.

(** ** Transparency and errors in the decoder *)

Lemma decodePixel_transparent img order paddingChar pixelX pixelY :
  0 <= color.A (image.At img pixelX pixelY) < 256 ->
  2 * color.A (image.At img pixelX pixelY) < 255 ->
  decodePixel img order paddingChar pixelX pixelY = Ok paddingChar.
Proof.
  intros Hr Ha. rewrite decodePixel_eq.
  by rewrite (proj2 (transparent_spec _ Hr) Ha).
Qed.

Lemma decodePixel_Err img order paddingChar pixelX pixelY e :
  decodePixel img order paddingChar pixelX pixelY = Err e ->
  transparent (image.At img pixelX pixelY) = false /\
  exists minDiff,
    e = UnclassifiablePixel pixelX pixelY
          (IntensityTooFar (sampled (image.At img pixelX pixelY)) minDiff) /\
    20 < u8 minDiff.
Proof.
  rewrite decodePixel_eq. destruct (transparent _); [discriminate|].
  unfold findClosestDNABaseGrayscale. destruct (foldl _ _ _) as [m b].
  destruct (Z.gtb_spec (u8 m) 20); [|discriminate].
  intros [= <-]. split; [reflexivity|]. exists m. split; [reflexivity|lia].
Qed.

(** C5. In a grid the decoder accepts, a block whose sampled top-left pixel
    has alpha below half of full opacity decodes to the padding symbol,
    whatever its red, green and blue channels and whatever classifier order is
    supplied (no classification is consulted); the block is visited, the
    decoder returns, and when it returns a sequence, the symbol at every
    position of that block in the visiting order is the padding symbol. *)
Theorem C5_transparent_is_padding fuel ord img cfg col row :
  decodable img cfg -> (groupCount img cfg < fuel)%nat ->
  0 <= col < image.Width img / BlockSize cfg ->
  0 <= row < image.Height img / BlockSize cfg ->
  0 <= color.A (image.At img (col * BlockSize cfg) (row * BlockSize cfg)) < 256 ->
  2 * color.A (image.At img (col * BlockSize cfg) (row * BlockSize cfg)) < 255 ->
  (forall order,
     decodePixel img order (paddingRune cfg) (col * BlockSize cfg) (row * BlockSize cfg)
       = Ok (paddingRune cfg)) /\
  (col, row) ∈ visitOrder img cfg /\
  (exists res, gridToDNA fuel ord img cfg = Some res) /\
  (forall out, gridToDNA fuel ord img cfg = Some (Ok out) ->
     exists runes,
       out = concat (utf8.EncodeRune <$> runes) /\
       length runes = length (visitOrder img cfg) /\
       forall k, visitOrder img cfg !! k = Some (col, row) ->
                 runes !! k = Some (paddingRune cfg)).
Proof.
  intros Hdec Hfuel Hc Hr Hrange Ha.
  assert (Hpix : forall order,
            decodePixel img order (paddingRune cfg) (col * BlockSize cfg) (row * BlockSize cfg)
              = Ok (paddingRune cfg))
    by (intros order; by apply decodePixel_transparent).
  split; [exact Hpix|].
  split; [apply visitOrder_complete; try assumption; apply Hdec|].
  rewrite (gridToDNA_visit fuel ord img cfg Hdec Hfuel).
  split; [eauto|]. intros out [= Hout].
  apply decodeSeq_Ok in Hout as (runes & -> & Hall). exists runes.
  split; [reflexivity|]. split; [symmetry; by eapply Forall2_length|].
  intros k Hk. destruct (Forall2_lookup_l _ _ _ _ _ Hall Hk) as (r & Hrk & k' & Hdecodes).
  cbn [fst snd] in Hdecodes. rewrite Hpix in Hdecodes. by injection Hdecodes as <-.
Qed.

Lemma pixel2_decodable c0 c1 : decodable (pixel2 c0 c1) (withLayout 1 2 1 defaultConfig).
Proof.
  constructor.
  - constructor; cbn; try lia. done.
  - cbn. lia.
  - cbn. lia.
  - exists 2. reflexivity.
  - exists 1. reflexivity.
  - discriminate.
Qed.

Lemma C5_transparent_is_padding_witness :
  decodePixel (pixel2 (color.mkRGBA 64 64 64 255) (color.mkRGBA 200 10 30 127))
     (map_to_list dnaGrayscaleMap) (rune "N") 1 0 = Ok (rune "N") /\
  gridToDNA 2 listedOrder
     (pixel2 (color.mkRGBA 64 64 64 255) (color.mkRGBA 200 10 30 127))
     (withLayout 1 2 1 defaultConfig) = Some (Ok (str "TN")).
Proof.
  destruct (C5_transparent_is_padding 2 listedOrder
              (pixel2 (color.mkRGBA 64 64 64 255) (color.mkRGBA 200 10 30 127))
              (withLayout 1 2 1 defaultConfig) 1 0) as (Hpix & _ & _ & _).
  - apply pixel2_decodable.
  - vm_compute. lia.
  - vm_compute. split; [discriminate|reflexivity].
  - vm_compute. split; [discriminate|reflexivity].
  - vm_compute. split; [discriminate|reflexivity].
  - vm_compute. reflexivity.
  - split; [apply Hpix|vm_compute; reflexivity].
Defined.

(** C8. When decoding returns an error the writer is left as it was, and the
    error is the first one met: the invalid block size; else the dimension
    mismatch; else, in a well-formed grid with a valid number of rows per
    block, the failure of the first block of the visiting order that cannot
    be classified, every block before it having decoded to a symbol.
    Likewise the encoder leaves its writer as it was when it returns an
    error. *)
Theorem C8_no_partial_output fuel ord img writer cfg writer' e :
  pngToDNAGrayscale fuel ord img writer cfg = Some (writer', Err e) ->
  writer' = writer /\
  (BlockSize cfg <= 0 -> e = InvalidConfiguration "block size must be positive") /\
  (0 < BlockSize cfg ->
   ~ ((BlockSize cfg | image.Width img) /\ (BlockSize cfg | image.Height img)) ->
   e = DimensionMismatch (image.Width img) (image.Height img) (BlockSize cfg)) /\
  (0 < BlockSize cfg ->
   (BlockSize cfg | image.Width img) -> (BlockSize cfg | image.Height img) ->
   image.wf img -> 0 < RowsPerBlock cfg < 2 ^ 63 ->
   exists pre blk post runes k minDiff,
     visitOrder img cfg = pre ++ blk :: post /\
     Forall2 (decodesTo ord img cfg (paddingRune cfg)) pre runes /\
     decodePixel img (ord k) (paddingRune cfg)
       (blk.1 * BlockSize cfg) (blk.2 * BlockSize cfg) = Err e /\
     e = UnclassifiablePixel (blk.1 * BlockSize cfg) (blk.2 * BlockSize cfg)
           (IntensityTooFar
              (sampled (image.At img (blk.1 * BlockSize cfg) (blk.2 * BlockSize cfg)))
              minDiff)) /\
  (forall dnaSequence images images' e',
     dnaToPNGGrayscale dnaSequence images cfg = (images', Err e') -> images' = images).
Proof.
  intros H. unfold pngToDNAGrayscale in H.
  destruct (gridToDNA fuel ord img cfg) as [[out|e0|]|] eqn:Hgrid; try discriminate.
  injection H as <- <-. split; [reflexivity|].
  split; [|split; [|split]].
  - intros Hbs. unfold gridToDNA in Hgrid.
    destruct (Z.leb_spec (BlockSize cfg) 0); [congruence|lia].
  - intros Hbs Hdim.
    pose proof (gridToDNA_dimension_mismatch fuel ord img cfg Hbs) as H6.
    rewrite Hgrid in H6.
    assert (Hor : ~ (BlockSize cfg | image.Width img) \/ ~ (BlockSize cfg | image.Height img)).
    { assert (Hne : BlockSize cfg <> 0) by lia.
      destruct (Z.eq_dec (Z.rem (image.Width img) (BlockSize cfg)) 0) as [Ew|Ew];
        [|left; intros D; by apply Ew, Z.rem_divide].
      destruct (Z.eq_dec (Z.rem (image.Height img) (BlockSize cfg)) 0) as [Eh|Eh];
        [|right; intros D; by apply Eh, Z.rem_divide].
      apply Z.rem_divide in Ew, Eh; tauto. }
    specialize (H6 Hor). congruence.
  - intros Hbs Hw Hh Hwf Hrpb.
    assert (Hpad : PaddingChar cfg <> []).
    { intros Hp. unfold gridToDNA, irem in Hgrid.
      assert (Hne : BlockSize cfg <> 0) by lia.
      destruct (Z.leb_spec (BlockSize cfg) 0); [lia|].
      fold (image.Width img) (image.Height img) in Hgrid.
      rewrite (proj2 (rem_zero_divide _ _ Hne) Hw) in Hgrid.
      rewrite (proj2 (rem_zero_divide _ _ Hne) Hh) in Hgrid.
      cbn [negb orb] in Hgrid. rewrite Hp in Hgrid. discriminate. }
    assert (Hdec : decodable img cfg) by (by constructor).
    apply (gridToDNA_more_fuel fuel (fuel + S (groupCount img cfg))) in Hgrid; [|lia].
    rewrite (gridToDNA_visit _ ord img cfg Hdec) in Hgrid by lia.
    injection Hgrid as Hgrid.
    apply decodeSeq_Err in Hgrid as (pre & blk & post & runes & k & Hsplit & Hall & Hblk).
    destruct (decodePixel_Err _ _ _ _ _ _ Hblk) as (_ & m & He & _).
    exists pre, blk, post, runes, k, m. done.
  - intros dnaSequence images images' e'. unfold dnaToPNGGrayscale.
    destruct (dnaToGrid dnaSequence cfg) as [img0|err0|].
    + unfold png.Encode. destruct (_ || _); intros H; [by injection H as <-|discriminate].
    + intros H. by injection H as <-.
    + discriminate.
Qed.

Lemma C8_no_partial_output_witness :
  str "GATTACA" = str "GATTACA" /\
  exists pre blk post,
    visitOrder (pixel2 (color.mkRGBA 64 64 64 255) (color.mkRGBA 100 100 100 255))
               (withLayout 1 2 1 defaultConfig) = pre ++ blk :: post /\
    UnclassifiablePixel 1 0 (IntensityTooFar 100 28)
      = UnclassifiablePixel (blk.1 * 1) (blk.2 * 1) (IntensityTooFar 100 28).
Proof.
  destruct (C8_no_partial_output 2 listedOrder
              (pixel2 (color.mkRGBA 64 64 64 255) (color.mkRGBA 100 100 100 255))
              (str "GATTACA") (withLayout 1 2 1 defaultConfig)
              (str "GATTACA") (UnclassifiablePixel 1 0 (IntensityTooFar 100 28)))
    as (Hw & _ & _ & Hfirst & _).
  - vm_compute. reflexivity.
  - split; [exact Hw|].
    destruct Hfirst as (pre & blk & post & runes & k & m & Hsplit & _ & _ & He).
    + simpl. lia.
    + exists 2. reflexivity.
    + exists 1. reflexivity.
    + apply pixel2_decodable.
    + simpl. lia.
    + exists pre, blk, post. split; [exact Hsplit|].
      injection He as Hx Hy Hm. cbn [BlockSize withLayout] in Hx, Hy.
      by rewrite <- Hx, <- Hy.
Defined.

(** ** Painting: what the loops of the encoder leave in the grid *)

Lemma foldl_nested {S A B : Type} (g : A -> B -> S -> S) (la : list A) (lb : list B) (s : S) :
  foldl (fun s a => foldl (fun s b => g a b s) s lb) s la =
  foldl (fun s p => g p.1 p.2 s) s (a ← la; b ← lb; [(a, b)]).
Proof.
  assert (Hin : forall a s', foldl (fun s b => g a b s) s' lb =
            foldl (fun s p => g p.1 p.2 s) s' (lb ≫= fun b => [(a, b)])).
  { intros a. induction lb as [|b lb IHb]; intros s'; [reflexivity|].
    cbn [foldl mbind list_bind app]. exact (IHb (g a b s')). }
  revert s. induction la as [|a la IH]; intros s; [reflexivity|].
  cbn [foldl mbind list_bind]. by rewrite foldl_app, <- IH, Hin.
Qed.

Lemma paint_cons c img p pts :
  paint c img (p :: pts) = paint c (image.Set_ img p.1 p.2 c) pts.
Proof. reflexivity. Qed.

Lemma paint_wf c pts : forall img, image.wf img -> image.wf (paint c img pts).
Proof.
  induction pts as [|p pts IH]; intros img Hwf; [exact Hwf|].
  apply IH. by apply Set_wf.
Qed.

Lemma paint_Bounds c pts : forall img, image.Bounds (paint c img pts) = image.Bounds img.
Proof.
  induction pts as [|p pts IH]; intros img; [reflexivity|].
  by rewrite paint_cons, IH, Set_Bounds.
Qed.

Lemma paint_At_other c pts x y : (x, y) ∉ pts ->
  forall img, image.wf img -> image.At (paint c img pts) x y = image.At img x y.
Proof.
  induction pts as [|[px py] pts IH]; intros Hnot img Hwf; [reflexivity|].
  apply not_elem_of_cons in Hnot as [Hne Hnot].
  rewrite paint_cons. cbn [fst snd].
  rewrite IH by (try assumption; by apply Set_wf).
  rewrite At_Set by assumption. case_decide as Hd; [|reflexivity].
  destruct Hd as (-> & -> & _). done.
Qed.

Lemma paint_At_in c pts x y : (x, y) ∈ pts ->
  forall img, image.wf img -> image.In x y (image.Bounds img) = true ->
  image.At (paint c img pts) x y = c.
Proof.
  induction pts as [|[px py] pts IH]; intros Hin img Hwf Hb; [by apply elem_of_nil in Hin|].
  rewrite paint_cons. cbn [fst snd].
  destruct (decide ((x, y) ∈ pts)) as [Hin'|Hnot].
  - apply IH; [assumption|by apply Set_wf|by rewrite Set_Bounds].
  - rewrite paint_At_other by (try assumption; by apply Set_wf).
    apply elem_of_cons in Hin as [[= -> ->]|]; [|done].
    rewrite At_Set by assumption. cbn. by rewrite decide_True.
Qed.

Lemma NewRGBA_zeroed r img : image.NewRGBA r = Ok img -> zeroed img.
Proof.
  unfold image.NewRGBA. destruct (_ <? 0); [discriminate|].
  intros [= <-]. by eexists.
Qed.

(** Painting a zeroed grid transparent changes nothing. *)
Lemma fillTransparent_zeroed imgWidth imgHeight img :
  zeroed img -> fillTransparent imgWidth imgHeight img = img.
Proof.
  intros [n Hn]. unfold fillTransparent, forUpTo. rewrite foldl_nested.
  generalize (a ← seqZ 0 imgHeight; b ← seqZ 0 imgWidth; [(a, b)]).
  intros pts. induction pts as [|p pts IH]; [reflexivity|].
  cbn [foldl]. replace (image.Set_ img p.2 p.1 color.Transparent) with img; [exact IH|].
  unfold image.Set_. destruct (image.In _ _ _); [|reflexivity].
  rewrite Hn. unfold color.Transparent. fold color.zero.
  rewrite insert_replicate, <- Hn. by destruct img.
Qed.

(** The square painted by [fillSquare]. *)
Lemma fillSquare_At blockSize x0 y0 c img x y :
  image.wf img -> 0 < blockSize ->
  0 <= x0 -> x0 + blockSize <= image.Width img ->
  0 <= y0 -> y0 + blockSize <= image.Height img ->
  0 <= x < image.Width img -> 0 <= y < image.Height img ->
  image.At (fillSquare blockSize x0 y0 c img) x y =
    if decide (x0 <= x < x0 + blockSize /\ y0 <= y < y0 + blockSize) then c
    else image.At img x y.
Proof.
  intros Hwf Hbs Hx0 Hx1 Hy0 Hy1 Hx Hy.
  pose proof (image.wf_max _ Hwf) as [HW HH]. fold (image.Width img) (image.Height img) in *.
  unfold fillSquare, forUpTo. rewrite foldl_nested.
  set (pts := a ← seqZ 0 blockSize; b ← seqZ 0 blockSize; [(a, b)]).
  assert (Hfold : forall (l : list (Z * Z)) img,
            foldl (fun s p => image.Set_ s (iadd x0 p.1) (iadd y0 p.2) c) img l =
            paint c img ((fun p => (iadd x0 p.1, iadd y0 p.2)) <$> l)).
  { intros l. induction l as [|p l IH]; intros img'; [reflexivity|apply IH]. }
  rewrite Hfold.
  assert (Hmem : (x, y) ∈ (fun p => (iadd x0 p.1, iadd y0 p.2)) <$> pts <->
                 x0 <= x < x0 + blockSize /\ y0 <= y < y0 + blockSize).
  { rewrite list_elem_of_fmap. split.
    - intros ([dx dy] & [= -> ->] & Hin). subst pts.
      apply list_elem_of_bind in Hin as (a & Hin & Ha).
      apply list_elem_of_bind in Hin as (b & Hin & Hb).
      apply list_elem_of_singleton in Hin as [= -> ->].
      apply elem_of_seqZ in Ha, Hb. cbn [fst snd].
      unfold iadd. rewrite !wrap64_id by (unfold fits64; lia). lia.
    - intros [Hxr Hyr]. exists (x - x0, y - y0). cbn [fst snd]. split.
      + unfold iadd. rewrite !wrap64_id by (unfold fits64; lia). f_equal; lia.
      + subst pts. apply list_elem_of_bind. exists (x - x0). split; [|apply elem_of_seqZ; lia].
        apply list_elem_of_bind. exists (y - y0). split; [|apply elem_of_seqZ; lia].
        by apply list_elem_of_singleton. }
  case_decide as Hd.
  - apply paint_At_in; [by apply Hmem|assumption|]. by apply In_spec.
  - apply paint_At_other; [|assumption]. by rewrite Hmem.
Qed.

Lemma fillSquare_wf blockSize x0 y0 c img :
  image.wf img ->
  image.wf (fillSquare blockSize x0 y0 c img) /\
  image.Bounds (fillSquare blockSize x0 y0 c img) = image.Bounds img.
Proof.
  intros Hwf. unfold fillSquare, forUpTo. rewrite foldl_nested.
  generalize (a ← seqZ 0 blockSize; b ← seqZ 0 blockSize; [(a, b)]). intros pts.
  revert img Hwf. induction pts as [|p pts IH]; intros img Hwf; [done|].
  cbn [foldl]. destruct (IH (image.Set_ img (iadd x0 p.1) (iadd y0 p.2) c)) as [H1 H2];
    [by apply Set_wf|].
  split; [exact H1|]. by rewrite H2, Set_Bounds.
Qed.

(** ** The layout computed by the encoder *)

Lemma le_mul_l a b : 1 <= a -> 0 <= b -> b <= a * b.
Proof. nia. Qed.

Lemma le_mul_r a b : 1 <= a -> 0 <= b -> b <= b * a.
Proof. nia. Qed.

Lemma layout_bounds cfg n : layout_ok cfg n -> 0 <= n ->
  0 < basesPerBlock cfg /\ n + basesPerBlock cfg < 2 ^ 61 /\
  0 <= numBlocks cfg n /\
  n <= numBlocks cfg n * basesPerBlock cfg < n + basesPerBlock cfg /\
  0 < imgWidth cfg /\ 0 <= imgHeight cfg n /\
  imgHeight cfg n <= (n + basesPerBlock cfg) * BlockSize cfg /\
  4 * (imgWidth cfg * imgHeight cfg n) < 2 ^ 63 /\
  imgWidth cfg < 2 ^ 61 /\ (n + basesPerBlock cfg) * BlockSize cfg < 2 ^ 61.
Proof.
  unfold layout_ok, imgWidth, imgHeight, numBlocks, basesPerBlock.
  set (bs := BlockSize cfg). set (bpr := BlocksPerRow cfg). set (rpb := RowsPerBlock cfg).
  intros (Hbs & Hbpr & Hrpb & Hfit) Hn.
  assert (Hbpb : 0 < bpr * rpb) by nia.
  set (bpb := bpr * rpb) in *.
  assert (Hnb : n + bpb <= bpr * bs * ((n + bpb) * bs)).
  { pose proof (le_mul_r bs (n + bpb) ltac:(lia) ltac:(lia)).
    pose proof (le_mul_l (bpr * bs) ((n + bpb) * bs) ltac:(nia) ltac:(nia)). lia. }
  pose proof (Z.mul_div_le (n + bpb - 1) bpb Hbpb) as Hle.
  pose proof (Z.mod_pos_bound (n + bpb - 1) bpb Hbpb) as Hmod.
  pose proof (Z.div_mod (n + bpb - 1) bpb ltac:(lia)) as Hdm.
  assert (Hq : 0 <= (n + bpb - 1) / bpb) by (apply Z.div_pos; lia).
  set (q := (n + bpb - 1) / bpb) in *.
  assert (Hh : q * rpb * bs <= (n + bpb) * bs).
  { assert (q * rpb <= q * bpb).
    { apply Z.mul_le_mono_nonneg_l; [lia|]. subst bpb. rewrite Z.mul_comm. apply le_mul_r; lia. }
    apply Z.mul_le_mono_nonneg_r; lia. }
  assert (Hwh : bpr * bs * (q * rpb * bs) <= bpr * bs * ((n + bpb) * bs)).
  { apply Z.mul_le_mono_nonneg_l; [nia|lia]. }
  assert (0 <= q * rpb * bs) by (apply Z.mul_nonneg_nonneg; nia).
  assert (bpr * bs <= bpr * bs * ((n + bpb) * bs)) by (apply le_mul_r; nia).
  assert ((n + bpb) * bs <= bpr * bs * ((n + bpb) * bs)) by (apply le_mul_l; nia).
  repeat split; try lia; try nia.
Qed.

Lemma in_block_iff bs c x : 0 < bs -> 0 <= x ->
  c * bs <= x < c * bs + bs <-> x / bs = c.
Proof.
  intros Hbs Hx. pose proof (Z.div_mod x bs ltac:(lia)).
  pose proof (Z.mod_pos_bound x bs Hbs). split; [intros|intros <-]; nia.
Qed.

Lemma paintAt_At cfg img j r x y :
  image.wf img -> 0 < BlockSize cfg -> 0 < BlocksPerRow cfg ->
  image.Width img = imgWidth cfg ->
  0 <= j -> (j / BlocksPerRow cfg + 1) * BlockSize cfg <= image.Height img ->
  0 <= x < image.Width img -> 0 <= y < image.Height img ->
  image.At (paintAt cfg img (j, r)) x y =
    if decide (blockIndex cfg x y = j) then grayOf r else image.At img x y.
Proof.
  unfold imgWidth, blockIndex, paintAt. cbn [fst snd].
  set (bs := BlockSize cfg). set (bpr := BlocksPerRow cfg).
  intros Hwf Hbs Hbpr HW Hj Hrow Hx Hy.
  pose proof (Z.mod_pos_bound j bpr Hbpr) as Hm.
  pose proof (Z.div_mod j bpr ltac:(lia)) as Hdm.
  assert (0 <= j / bpr) by (apply Z.div_pos; lia).
  rewrite fillSquare_At; try assumption; try nia.
  assert (Hxb : 0 <= x / bs < bpr).
  { split; [apply Z.div_pos; lia|apply Z.div_lt_upper_bound; lia]. }
  assert (Hyb : 0 <= y / bs) by (apply Z.div_pos; lia).
  case_decide as Hd; case_decide as Hd'; try reflexivity; exfalso.
  - rewrite !in_block_iff in Hd by lia. destruct Hd as [Hc Hr]. apply Hd'.
    rewrite Hc, Hr. lia.
  - apply Hd. rewrite !in_block_iff by lia. subst j. split.
    + rewrite Z.add_comm, Z.mod_add by lia. rewrite (Z.mod_small (x / bs) bpr); lia.
    + rewrite Z.add_comm, Z.div_add by lia. rewrite (Z.div_small (x / bs) bpr); lia.
Qed.

(** *** The positions the encoder paints *)

Lemma rangeFrom_bounds s : forall skip off i r,
  (i, r) ∈ utf8.rangeFrom skip off s -> off <= i < off + len s.
Proof.
  unfold len. induction s as [|c s IH]; intros skip off i r Hin; [by apply elem_of_nil in Hin|].
  cbn [utf8.rangeFrom] in Hin. destruct skip as [|skip].
  - destruct (utf8.DecodeRuneInString (c :: s)) as [r0 w].
    apply elem_of_cons in Hin as [[= -> ->]|Hin]; [simpl; lia|].
    apply IH in Hin. simpl. lia.
  - apply IH in Hin. simpl. lia.
Qed.

Lemma rangeFrom_functional s : forall skip off i r r',
  (i, r) ∈ utf8.rangeFrom skip off s -> (i, r') ∈ utf8.rangeFrom skip off s -> r = r'.
Proof.
  induction s as [|c s IH]; intros skip off i r r' H1 H2; [by apply elem_of_nil in H1|].
  cbn [utf8.rangeFrom] in H1, H2. destruct skip as [|skip]; [|by eapply IH].
  destruct (utf8.DecodeRuneInString (c :: s)) as [r0 w].
  apply elem_of_cons in H1 as [[= -> ->]|H1], H2 as [[= ->]|H2].
  - reflexivity.
  - apply rangeFrom_bounds in H2. lia.
  - apply rangeFrom_bounds in H1. lia.
  - by eapply IH.
Qed.

Lemma blockSeq_len dnaSequence cfg block :
  0 < basesPerBlock cfg -> 0 <= block ->
  len (blockSeq dnaSequence cfg block) =
    Z.max 0 (Z.min (basesPerBlock cfg) (len dnaSequence - block * basesPerBlock cfg)).
Proof.
  intros Hb Hk. unfold blockSeq, len. rewrite length_take, length_drop. nia.
Qed.

Lemma writes_elem dnaSequence cfg j r :
  0 < basesPerBlock cfg ->
  (j, r) ∈ writes dnaSequence cfg <->
  exists block i, 0 <= block < numBlocks cfg (len dnaSequence) /\
    (i, r) ∈ utf8.rangeString (blockSeq dnaSequence cfg block) /\
    j = block * basesPerBlock cfg + i.
Proof.
  intros Hb. unfold writes. rewrite list_elem_of_bind. split.
  - intros (block & Hin & Hblock). apply elem_of_seqZ in Hblock.
    apply list_elem_of_fmap in Hin as ([i r'] & [= -> ->] & Hin).
    exists block, i. split; [lia|]. split; [exact Hin|reflexivity].
  - intros (block & i & Hblock & Hin & ->). exists block.
    split; [|apply elem_of_seqZ; lia].
    apply list_elem_of_fmap. by exists (i, r).
Qed.

Lemma writes_bounds dnaSequence cfg j r :
  0 < basesPerBlock cfg -> (j, r) ∈ writes dnaSequence cfg -> 0 <= j < len dnaSequence.
Proof.
  intros Hb Hin. apply writes_elem in Hin as (block & i & Hblock & Hin & ->); [|done].
  apply rangeFrom_bounds in Hin. rewrite blockSeq_len in Hin by lia. nia.
Qed.

Lemma writes_functional dnaSequence cfg j r r' :
  0 < basesPerBlock cfg ->
  (j, r) ∈ writes dnaSequence cfg -> (j, r') ∈ writes dnaSequence cfg -> r = r'.
Proof.
  intros Hb H1 H2.
  apply writes_elem in H1 as (b1 & i1 & Hb1 & Hin1 & E1); [|done].
  apply writes_elem in H2 as (b2 & i2 & Hb2 & Hin2 & E2); [|done].
  pose proof (rangeFrom_bounds _ _ _ _ _ Hin1) as B1.
  pose proof (rangeFrom_bounds _ _ _ _ _ Hin2) as B2.
  rewrite blockSeq_len in B1, B2 by lia.
  assert (b1 = b2) by nia. subst b2.
  assert (i1 = i2) by lia. subst i2.
  by eapply rangeFrom_functional.
Qed.

(** *** The encoder as a sequence of painted blocks *)

Lemma foldl_ext_elem {S T : Type} (f g : S -> T -> S) (l : list T) :
  (forall s x, x ∈ l -> f s x = g s x) -> forall s, foldl f s l = foldl g s l.
Proof.
  induction l as [|x l IH]; intros H s; [reflexivity|].
  cbn [foldl]. rewrite H by left. apply IH. intros s' y Hy. apply H. by right.
Qed.

Lemma NewRGBA_blank w h : 0 <= w < 2 ^ 62 -> 0 <= h < 2 ^ 63 -> 4 * (w * h) < 2 ^ 63 ->
  image.NewRGBA (image.Rect 0 0 w h) = Ok (blank w h).
Proof.
  intros Hw Hh Hfit. unfold image.NewRGBA, image.Rect.
  destruct (Z.gtb_spec 0 w); [lia|]. destruct (Z.gtb_spec 0 h); [lia|].
  unfold image.mul3NonNeg, image.Dx, image.Dy, isub.
  cbn [image.MinX image.MinY image.MaxX image.MaxY]. rewrite !Z.sub_0_r.
  rewrite !wrap64_id by (unfold fits64; lia).
  destruct (Z.ltb_spec w 0); [lia|]. destruct (Z.ltb_spec h 0); [lia|].
  cbn [orb Z.ltb Z.compare].
  destruct (Z.leb_spec (2 ^ 64) (4 * w)); [lia|].
  destruct (Z.leb_spec (2 ^ 64) (4 * w * h)); [lia|].
  destruct (Z.leb_spec (2 ^ 63) (4 * w * h)); [lia|].
  destruct (Z.ltb_spec (4 * w * h) 0); [nia|]. reflexivity.
Qed.

Lemma blank_wf w h : 0 <= w < 2 ^ 63 -> 0 <= h < 2 ^ 62 -> 4 * (w * h) < 2 ^ 63 ->
  image.wf (blank w h).
Proof.
  intros Hw Hh Hfit. constructor; cbn; try lia.
  unfold len. rewrite length_replicate. nia.
Qed.

Lemma blank_At w h x y : image.At (blank w h) x y = color.zero.
Proof.
  unfold image.At, blank. cbn. destruct (image.In _ _ _); [|reflexivity].
  destruct (replicate _ _ !! _) as [c|] eqn:E; [|reflexivity].
  by apply lookup_replicate in E as [-> _].
Qed.

Section encoder.

Variable dnaSequence : list ascii.
Variable cfg : Config.
Hypothesis layout : layout_ok cfg (len dnaSequence).

Lemma len_nonneg {T : Type} (s : list T) : 0 <= len s.
Proof. unfold len. lia. Qed.

Lemma paintBase_paintAt block img i r :
  0 <= block < numBlocks cfg (len dnaSequence) -> 0 <= i < basesPerBlock cfg ->
  paintBase cfg block img (i, r) = paintAt cfg img (block * basesPerBlock cfg + i, r).
Proof.
  intros Hblock Hi.
  destruct (layout_bounds _ _ layout (len_nonneg _))
    as (Hbpb & Hn & Hnb & [Hlo Hhi] & HW & HH & HHle & Hfit & HW61 & HH61).
  destruct layout as (Hbs & Hbpr & Hrpb & _).
  unfold paintBase, paintAt, imgWidth, imgHeight, numBlocks in *.
  unfold basesPerBlock in *. cbn [fst snd].
  set (bs := BlockSize cfg) in *. set (bpr := BlocksPerRow cfg) in *.
  set (rpb := RowsPerBlock cfg) in *. set (n := len dnaSequence) in *.
  set (q := (n + bpr * rpb - 1) / (bpr * rpb)) in *.
  assert (Hbr : 0 <= block * rpb <= block * (bpr * rpb)).
  { split; [nia|]. apply Z.mul_le_mono_nonneg_l; [lia|]. rewrite Z.mul_comm. apply le_mul_r; lia. }
  assert (Hbb : block * (bpr * rpb) + (bpr * rpb) <= q * (bpr * rpb)).
  { pose proof (Z.mul_le_mono_nonneg_r (block + 1) q (bpr * rpb) ltac:(lia) ltac:(lia)). lia. }
  pose proof (Z.mod_pos_bound i bpr Hbpr) as Hm.
  assert (Hd : 0 <= i / bpr <= i).
  { split; [apply Z.div_pos; lia|]. apply Z.div_le_upper_bound; [lia|]. apply le_mul_l; lia. }
  assert (Hcol : irem i bpr = (block * (bpr * rpb) + i) mod bpr).
  { unfold irem. rewrite Z.rem_mod_nonneg by lia.
    replace (block * (bpr * rpb) + i) with (i + block * rpb * bpr) by lia.
    by rewrite Z.mod_add by lia. }
  assert (Hrow : iadd (idiv i bpr) (imul block rpb) = (block * (bpr * rpb) + i) / bpr).
  { unfold iadd, idiv, imul. rewrite quot_div_nonneg by lia.
    rewrite (wrap64_id (i / bpr)), (wrap64_id (block * rpb)) by (unfold fits64; lia).
    rewrite wrap64_id by (unfold fits64; lia).
    replace (block * (bpr * rpb) + i) with (i + block * rpb * bpr) by lia.
    by rewrite Z.div_add by lia. }
  rewrite Hcol, Hrow.
  pose proof (Z.mod_pos_bound (block * (bpr * rpb) + i) bpr Hbpr) as Hm'.
  assert (Hr' : 0 <= (block * (bpr * rpb) + i) / bpr <= n + bpr * rpb).
  { split; [apply Z.div_pos; lia|]. apply Z.div_le_upper_bound; [lia|].
    pose proof (le_mul_l bpr (n + bpr * rpb) ltac:(lia) ltac:(lia)). lia. }
  pose proof (Z.mul_le_mono_nonneg_r _ _ bs ltac:(lia) (proj2 Hr')) as Hrb.
  assert (Hcb : (block * (bpr * rpb) + i) mod bpr * bs <= bpr * bs)
    by (apply Z.mul_le_mono_nonneg_r; lia).
  f_equal; unfold imul; apply wrap64_id; unfold fits64; split; nia.
Qed.

Lemma slice_blockSeq block :
  0 <= block < numBlocks cfg (len dnaSequence) ->
  slice dnaSequence (block * basesPerBlock cfg)
    (if block * basesPerBlock cfg + basesPerBlock cfg >? len dnaSequence
     then len dnaSequence else block * basesPerBlock cfg + basesPerBlock cfg)
  = Ok (blockSeq dnaSequence cfg block).
Proof.
  intros Hblock.
  destruct (layout_bounds _ _ layout (len_nonneg _)) as (Hbpb & Hn & Hnb & [Hlo Hhi] & _).
  set (bpb := basesPerBlock cfg) in *. set (n := len dnaSequence) in *.
  assert (Hstart : 0 <= block * bpb < n) by nia.
  unfold slice, blockSeq. fold bpb n.
  destruct (Z.gtb_spec (block * bpb + bpb) n) as [Hgt|Hle].
  - destruct (Z.leb_spec 0 (block * bpb)); [|lia].
    destruct (Z.leb_spec (block * bpb) n); [|lia]. rewrite Z.leb_refl. cbn [andb].
    f_equal. rewrite !take_ge; [reflexivity| |]; rewrite length_drop; unfold n, len in *; lia.
  - destruct (Z.leb_spec 0 (block * bpb)); [|lia].
    destruct (Z.leb_spec (block * bpb) (block * bpb + bpb)); [|lia].
    destruct (Z.leb_spec (block * bpb + bpb) n); [|lia]. cbn [andb].
    do 3 f_equal. lia.
Qed.

Lemma paintBlock_eq img block :
  0 <= block < numBlocks cfg (len dnaSequence) ->
  paintBlock dnaSequence cfg (basesPerBlock cfg) img block =
    Ok (foldl (paintAt cfg) img
          ((fun ir => (block * basesPerBlock cfg + ir.1, ir.2))
             <$> utf8.rangeString (blockSeq dnaSequence cfg block))).
Proof.
  intros Hblock.
  destruct (layout_bounds _ _ layout (len_nonneg _)) as (Hbpb & Hn & Hnb & [Hlo Hhi] & _).
  unfold paintBlock.
  assert (Hs : imul block (basesPerBlock cfg) = block * basesPerBlock cfg).
  { apply wrap64_id. unfold fits64. nia. }
  rewrite Hs.
  assert (He : iadd (block * basesPerBlock cfg) (basesPerBlock cfg)
               = block * basesPerBlock cfg + basesPerBlock cfg).
  { apply wrap64_id. unfold fits64. nia. }
  rewrite He, slice_blockSeq by assumption. cbn [mbind outcome_bind]. f_equal.
  rewrite foldl_fmap. apply foldl_ext_elem. intros img' [i r] Hin.
  apply rangeFrom_bounds in Hin. rewrite blockSeq_len in Hin by lia.
  cbn [fst snd]. apply paintBase_paintAt; [assumption|lia].
Qed.

(** The grid the encoder builds: the blocks of the visited positions painted
    one after the other on a zeroed grid. *)
Lemma dnaToGrid_eq :
  dnaToGrid dnaSequence cfg =
    Ok (foldl (paintAt cfg) (blank (imgWidth cfg) (imgHeight cfg (len dnaSequence)))
          (writes dnaSequence cfg)).
Proof.
  destruct (layout_bounds _ _ layout (len_nonneg _))
    as (Hbpb & Hn & Hnb & [Hlo Hhi] & HW & HH & HHle & Hfit & HW61 & HH61).
  pose proof layout as (Hbs & Hbpr & Hrpb & _).
  unfold dnaToGrid.
  destruct (Z.leb_spec (BlockSize cfg) 0); [lia|].
  destruct (Z.leb_spec (BlocksPerRow cfg) 0); [lia|].
  destruct (Z.leb_spec (RowsPerBlock cfg) 0); [lia|].
  assert (Hb : imul (BlocksPerRow cfg) (RowsPerBlock cfg) = basesPerBlock cfg).
  { apply wrap64_id. unfold fits64, basesPerBlock in *. pose proof (len_nonneg dnaSequence). lia. }
  rewrite Hb. destruct (Z.eqb_spec (basesPerBlock cfg) 0); [lia|].
  assert (Hnum : idiv (isub (iadd (len dnaSequence) (basesPerBlock cfg)) 1) (basesPerBlock cfg)
                 = numBlocks cfg (len dnaSequence)).
  { pose proof (len_nonneg dnaSequence). unfold idiv, isub, iadd, numBlocks.
    rewrite !(wrap64_id (_ + _)) by (unfold fits64; lia).
    rewrite !(wrap64_id (_ - _)) by (unfold fits64; lia).
    rewrite quot_div_nonneg by lia. apply wrap64_id. unfold fits64.
    fold (numBlocks cfg (len dnaSequence)). nia. }
  rewrite Hnum.
  assert (Hwd : imul (BlocksPerRow cfg) (BlockSize cfg) = imgWidth cfg).
  { apply wrap64_id. unfold fits64. fold (imgWidth cfg). lia. }
  assert (Hnr : 0 <= numBlocks cfg (len dnaSequence) * RowsPerBlock cfg
                <= imgHeight cfg (len dnaSequence)).
  { unfold imgHeight. split; [nia|]. apply le_mul_r; nia. }
  assert (Hht : imul (imul (numBlocks cfg (len dnaSequence)) (RowsPerBlock cfg)) (BlockSize cfg)
                = imgHeight cfg (len dnaSequence)).
  { unfold imul. rewrite (wrap64_id (_ * RowsPerBlock cfg)) by (unfold fits64; lia).
    apply wrap64_id. unfold fits64. fold (imgHeight cfg (len dnaSequence)). lia. }
  rewrite Hwd, Hht, NewRGBA_blank by lia. cbn [mbind outcome_bind].
  assert (Hbg : (if TransparentPad cfg
                 then fillTransparent (imgWidth cfg) (imgHeight cfg (len dnaSequence))
                        (blank (imgWidth cfg) (imgHeight cfg (len dnaSequence)))
                 else blank (imgWidth cfg) (imgHeight cfg (len dnaSequence)))
                = blank (imgWidth cfg) (imgHeight cfg (len dnaSequence))).
  { destruct (TransparentPad cfg); [|reflexivity].
    apply fillTransparent_zeroed. by eexists. }
  rewrite Hbg. unfold writes.
  assert (Hblocks : Forall (fun b => 0 <= b < numBlocks cfg (len dnaSequence))
                      (seqZ 0 (numBlocks cfg (len dnaSequence)))).
  { apply Forall_forall. intros b Hin. apply elem_of_seqZ in Hin. lia. }
  generalize (blank (imgWidth cfg) (imgHeight cfg (len dnaSequence))).
  induction Hblocks as [|b l Hb' _ IH]; intros img; [reflexivity|].
  cbn [foldl mbind list_bind outcome_bind]. rewrite paintBlock_eq by assumption.
  rewrite foldl_app. apply IH.
Qed.

End encoder.

(** *** The pixels of an encoded grid *)

Section painted.

Variable cfg : Config.
Hypothesis bs_pos : 0 < BlockSize cfg.
Hypothesis bpr_pos : 0 < BlocksPerRow cfg.

Lemma paintAt_wf img w :
  image.wf img ->
  image.wf (paintAt cfg img w) /\ image.Bounds (paintAt cfg img w) = image.Bounds img.
Proof. intros Hwf. by apply fillSquare_wf. Qed.

Lemma foldl_paintAt_out x y ws : forall img,
  image.wf img -> image.Width img = imgWidth cfg -> inGrid cfg (image.Height img) ws ->
  0 <= x < image.Width img -> 0 <= y < image.Height img ->
  (forall r, (blockIndex cfg x y, r) ∉ ws) ->
  image.At (foldl (paintAt cfg) img ws) x y = image.At img x y.
Proof.
  induction ws as [|[j r] ws IH]; intros img Hwf HW Hgrid Hx Hy Hnot; [reflexivity|].
  cbn [foldl]. destruct (paintAt_wf img (j, r) Hwf) as [Hwf' Hb'].
  assert (HWe : image.Width (paintAt cfg img (j, r)) = image.Width img)
    by (unfold image.Width; by rewrite Hb').
  assert (HHe : image.Height (paintAt cfg img (j, r)) = image.Height img)
    by (unfold image.Height; by rewrite Hb').
  destruct (Hgrid j r ltac:(left)) as [Hj Hrow].
  assert (Hgrid' : inGrid cfg (image.Height (paintAt cfg img (j, r))) ws).
  { rewrite HHe. intros j' r' Hin'. apply (Hgrid j' r'). by right. }
  rewrite IH; try assumption; try (rewrite ?HWe, ?HHe; assumption).
  - rewrite paintAt_At by assumption. rewrite decide_False; [reflexivity|].
    intros <-. apply (Hnot r). left.
  - intros r' Hin. apply (Hnot r'). by right.
Qed.

Lemma foldl_paintAt_in x y r ws : forall img,
  image.wf img -> image.Width img = imgWidth cfg -> inGrid cfg (image.Height img) ws ->
  0 <= x < image.Width img -> 0 <= y < image.Height img ->
  (forall j r1 r2, (j, r1) ∈ ws -> (j, r2) ∈ ws -> r1 = r2) ->
  (blockIndex cfg x y, r) ∈ ws ->
  image.At (foldl (paintAt cfg) img ws) x y = grayOf r.
Proof.
  induction ws as [|[j r0] ws IH]; intros img Hwf HW Hgrid Hx Hy Hfun Hin;
    [by apply elem_of_nil in Hin|].
  cbn [foldl]. destruct (paintAt_wf img (j, r0) Hwf) as [Hwf' Hb'].
  assert (HWe : image.Width (paintAt cfg img (j, r0)) = image.Width img)
    by (unfold image.Width; by rewrite Hb').
  assert (HHe : image.Height (paintAt cfg img (j, r0)) = image.Height img)
    by (unfold image.Height; by rewrite Hb').
  destruct (Hgrid j r0 ltac:(left)) as [Hj Hrow].
  assert (Hgrid' : inGrid cfg (image.Height (paintAt cfg img (j, r0))) ws).
  { rewrite HHe. intros j' r' Hin'. apply (Hgrid j' r'). by right. }
  destruct (decide (blockIndex cfg x y ∈ ws.*1)) as [Hlater|Hnever].
  - apply list_elem_of_fmap in Hlater as ([j' r'] & Hj' & Hin'). cbn in Hj'. subst j'.
    assert (r' = r) as -> by (eapply Hfun; [by right|exact Hin]).
    apply IH; try assumption; try (rewrite ?HWe, ?HHe; assumption).
    intros j' r1 r2 H1 H2. eapply Hfun; by right.
  - rewrite foldl_paintAt_out; try assumption; try (rewrite ?HWe, ?HHe; assumption).
    + apply elem_of_cons in Hin as [[= <- <-]|Hin].
      * rewrite paintAt_At by assumption. by rewrite decide_True.
      * exfalso. apply Hnever. apply list_elem_of_fmap. by exists (blockIndex cfg x y, r).
    + intros r' Hin'. apply Hnever. apply list_elem_of_fmap. by exists (blockIndex cfg x y, r').
Qed.

End painted.

(** The grid the encoder returns for a valid layout: its size, and the colour
    of each pixel, given by the position of the sequence whose block holds
    the pixel: the gray of the rune visited at that position, or the zero
    colour when the loops visit no rune there. *)
Lemma dnaToGrid_pixels dnaSequence cfg :
  layout_ok cfg (len dnaSequence) ->
  exists img,
    dnaToGrid dnaSequence cfg = Ok img /\ image.wf img /\
    image.Width img = imgWidth cfg /\
    image.Height img = imgHeight cfg (len dnaSequence) /\
    forall x y, 0 <= x < imgWidth cfg -> 0 <= y < imgHeight cfg (len dnaSequence) ->
      (forall r, (blockIndex cfg x y, r) ∈ writes dnaSequence cfg -> image.At img x y = grayOf r) /\
      ((forall r, (blockIndex cfg x y, r) ∉ writes dnaSequence cfg) -> image.At img x y = color.zero).
Proof.
  intros layout.
  destruct (layout_bounds _ _ layout (len_nonneg _))
    as (Hbpb & Hn & Hnb & [Hlo Hhi] & HW & HH & HHle & Hfit & HW61 & HH61).
  pose proof layout as (Hbs & Hbpr & Hrpb & _).
  set (img0 := blank (imgWidth cfg) (imgHeight cfg (len dnaSequence))).
  assert (Hwf0 : image.wf img0) by (apply blank_wf; lia).
  assert (Hgrid : inGrid cfg (image.Height img0) (writes dnaSequence cfg)).
  { intros j r Hin. apply writes_bounds in Hin; [|assumption]. split; [lia|].
    change (image.Height img0) with (imgHeight cfg (len dnaSequence)). unfold imgHeight.
    apply Z.mul_le_mono_nonneg_r; [lia|].
    assert (j / BlocksPerRow cfg < numBlocks cfg (len dnaSequence) * RowsPerBlock cfg); [|lia].
    apply Z.div_lt_upper_bound; [lia|]. unfold basesPerBlock in *. lia. }
  exists (foldl (paintAt cfg) img0 (writes dnaSequence cfg)).
  split; [by apply dnaToGrid_eq|].
  assert (Hinv : forall ws img, image.wf img ->
            image.wf (foldl (paintAt cfg) img ws) /\
            image.Bounds (foldl (paintAt cfg) img ws) = image.Bounds img).
  { induction ws as [|w ws IH]; intros img Hwf; [done|]. cbn [foldl].
    destruct (paintAt_wf cfg img w Hwf) as [Hwf' Hb']. destruct (IH _ Hwf') as [H1 H2].
    split; [exact H1|]. by rewrite H2. }
  destruct (Hinv (writes dnaSequence cfg) img0 Hwf0) as [Hwf Hb].
  split; [exact Hwf|]. unfold image.Width, image.Height. rewrite Hb.
  split; [reflexivity|]. split; [reflexivity|].
  intros x y Hx Hy. split.
  - intros r Hin. apply foldl_paintAt_in; try assumption; try reflexivity.
    intros j r1 r2. by apply writes_functional.
  - intros Hnot. rewrite foldl_paintAt_out; try assumption; try reflexivity.
    apply blank_At.
Qed.

(** On a sequence of one-byte characters the loops of the encoder visit every
    position, with the character found there. *)
Lemma writes_ascii7 dnaSequence cfg j r :
  layout_ok cfg (len dnaSequence) -> utf8.ascii7 dnaSequence ->
  (j, r) ∈ writes dnaSequence cfg <->
  0 <= j /\ exists c, dnaSequence !! Z.to_nat j = Some c /\ r = rune c.
Proof.
  intros layout Hascii.
  destruct (layout_bounds _ _ layout (len_nonneg _)) as (Hbpb & Hn & Hnb & [Hlo Hhi] & _).
  assert (Hblock : forall block, 0 <= block -> forall i r,
            (i, r) ∈ utf8.rangeString (blockSeq dnaSequence cfg block) <->
            0 <= i < basesPerBlock cfg /\
            exists c, dnaSequence !! Z.to_nat (block * basesPerBlock cfg + i) = Some c /\ r = rune c).
  { intros block Hb i r'. unfold utf8.rangeString.
    rewrite rangeFrom_ascii7 by (unfold blockSeq; by apply Forall_take, Forall_drop).
    rewrite elem_of_lookup_imap. unfold blockSeq. split.
    - intros (k & c & [= -> ->] & Hk). apply lookup_take_Some in Hk as [Hk Hlt].
      rewrite lookup_drop in Hk. split; [lia|]. exists c. split; [|reflexivity].
      rewrite <- Hk. f_equal. nia.
    - intros (Hi & c & Hc & ->). exists (Z.to_nat i), c. split; [f_equal; lia|].
      apply lookup_take_Some. split; [|lia]. rewrite lookup_drop, <- Hc. f_equal. nia. }
  rewrite writes_elem by assumption. split.
  - intros (block & i & Hb & Hin & ->). apply Hblock in Hin as (Hi & c & Hc & ->); [|lia].
    split; [nia|]. by exists c.
  - intros (Hj & c & Hc & ->).
    assert (Hlt : j < len dnaSequence).
    { apply lookup_lt_Some in Hc. unfold len. lia. }
    pose proof (Z.div_mod j (basesPerBlock cfg) ltac:(lia)) as Hdm.
    pose proof (Z.mod_pos_bound j (basesPerBlock cfg) Hbpb) as Hm.
    assert (Hq : 0 <= j / basesPerBlock cfg) by (apply Z.div_pos; lia).
    exists (j / basesPerBlock cfg), (j mod basesPerBlock cfg). split; [|split].
    + split; [lia|]. apply Z.div_lt_upper_bound; lia.
    + apply Hblock; [lia|]. split; [lia|]. exists c. split; [|reflexivity].
      rewrite <- Hc. f_equal. lia.
    + lia.
Qed.

(** The pixels of the block of the position [j]. *)
Lemma blockIndex_square cfg n j dx dy :
  layout_ok cfg n -> 0 <= n ->
  0 <= j < numBlocks cfg n * basesPerBlock cfg ->
  0 <= dx < BlockSize cfg -> 0 <= dy < BlockSize cfg ->
  let x := j mod BlocksPerRow cfg * BlockSize cfg + dx in
  let y := j / BlocksPerRow cfg * BlockSize cfg + dy in
  0 <= x < imgWidth cfg /\ 0 <= y < imgHeight cfg n /\ blockIndex cfg x y = j.
Proof.
  intros layout Hn Hj Hdx Hdy x y.
  pose proof layout as (Hbs & Hbpr & Hrpb & _).
  unfold imgWidth, imgHeight, blockIndex, basesPerBlock in *.
  set (bs := BlockSize cfg) in *. set (bpr := BlocksPerRow cfg) in *.
  set (rpb := RowsPerBlock cfg) in *. set (q := numBlocks cfg n) in *.
  pose proof (Z.mod_pos_bound j bpr Hbpr) as Hm.
  pose proof (Z.div_mod j bpr ltac:(lia)) as Hdm.
  assert (Hr : 0 <= j / bpr < q * rpb).
  { split; [apply Z.div_pos; lia|]. apply Z.div_lt_upper_bound; lia. }
  assert (Hxd : x / bs = j mod bpr) by (apply in_block_iff; subst x; lia).
  assert (Hyd : y / bs = j / bpr) by (apply in_block_iff; subst y; nia).
  split; [subst x; nia|]. split; [subst y; nia|]. rewrite Hxd, Hyd. lia.
Qed.



(** ** Explicit padding symbols and absent positions *)





(** ** The transparent-padding flag *)

(** The flag changes nothing in the grid: [NewRGBA] returns a zeroed grid,
    and painting it transparent writes the zero colour again. *)
Lemma dnaToGrid_flag dnaSequence cfg b :
  dnaToGrid dnaSequence (withTransparentPad b cfg) = dnaToGrid dnaSequence cfg.
Proof.
  unfold dnaToGrid. cbn [BlockSize BlocksPerRow RowsPerBlock TransparentPad withTransparentPad].
  destruct (BlockSize cfg <=? 0); [reflexivity|].
  destruct (BlocksPerRow cfg <=? 0); [reflexivity|].
  destruct (RowsPerBlock cfg <=? 0); [reflexivity|].
  destruct (_ =? 0); [reflexivity|].
  destruct (image.NewRGBA _) as [img| |] eqn:Hnew; [|reflexivity|reflexivity].
  apply NewRGBA_zeroed in Hnew. cbn [mbind outcome_bind].
  assert (Hsame : forall (flag : bool) w h,
            (if flag then fillTransparent w h img else img) = img).
  { intros [|] w h; [by apply fillTransparent_zeroed|reflexivity]. }
  rewrite !Hsame. reflexivity.
Qed.

(** The decoder does not read the flag. *)
(** What [png.Encode] does with the grid of the encoder: it accepts it
    exactly when the sequence is not empty and the dimensions fit 32 bits. *)
Lemma dnaToPNGGrayscale_encoded dnaSequence images cfg img :
  layout_ok cfg (len dnaSequence) -> dnaToGrid dnaSequence cfg = Ok img ->
  (serialisable cfg (len dnaSequence) ->
     dnaToPNGGrayscale dnaSequence images cfg = (images ++ [img], Ok ())) /\
  (~ serialisable cfg (len dnaSequence) ->
     dnaToPNGGrayscale dnaSequence images cfg =
       (images, Err (InvalidImageSize (imgWidth cfg) (imgHeight cfg (len dnaSequence))))).
Proof.
  intros layout Himg. pose proof (len_nonneg dnaSequence) as Hlen.
  destruct (layout_bounds _ _ layout Hlen)
    as (Hbpb & Hn & Hnb & [Hlo Hhi] & HWpos & HHnn & _).
  pose proof layout as (Hbs & Hbpr & Hrpb & _).
  destruct (dnaToGrid_pixels dnaSequence cfg layout) as (img' & Himg' & Hwf & HW & HH & _).
  rewrite Himg in Himg'. injection Himg' as <-.
  unfold dnaToPNGGrayscale. rewrite Himg. unfold png.Encode, image.Dx, image.Dy.
  destruct Hwf as [[Hx Hy] [HWr HHr] _ _ _]. rewrite Hx, Hy. unfold isub. rewrite !Z.sub_0_r.
  fold (image.Width img) (image.Height img) in *.
  rewrite !wrap64_id by (unfold fits64; lia). rewrite HW, HH.
  assert (Hrow : 0 < imgHeight cfg (len dnaSequence) <-> 0 < len dnaSequence).
  { unfold imgHeight. split.
    - intros Hpos. destruct (Z.eq_dec (len dnaSequence) 0) as [E|]; [|lia].
      assert (numBlocks cfg (len dnaSequence) = 0) as E0.
      { destruct (Z.eq_dec (numBlocks cfg (len dnaSequence)) 0) as [|Hne]; [done|].
        pose proof (le_mul_l (numBlocks cfg (len dnaSequence)) (basesPerBlock cfg)
                      ltac:(lia) ltac:(lia)). lia. }
      rewrite E0 in Hpos. lia.
    - intros Hpos. assert (0 < numBlocks cfg (len dnaSequence)).
      { destruct (Z.eq_dec (numBlocks cfg (len dnaSequence)) 0) as [E0|]; [|lia].
        rewrite E0 in Hlo. lia. }
      apply Z.mul_pos_pos; [apply Z.mul_pos_pos|]; lia. }
  unfold serialisable.
  destruct (Z.leb_spec (imgWidth cfg) 0); [lia|].
  destruct (Z.leb_spec (imgHeight cfg (len dnaSequence)) 0);
    [cbn [orb]; split; [lia|reflexivity]|].
  destruct (Z.leb_spec (2 ^ 32) (imgWidth cfg));
    [cbn [orb]; split; [lia|reflexivity]|].
  destruct (Z.leb_spec (2 ^ 32) (imgHeight cfg (len dnaSequence)));
    [cbn [orb]; split; [lia|reflexivity]|].
  cbn [orb]. split; [reflexivity|]. intros Hno. destruct Hno. lia.
Qed.

Lemma dnaToPNGGrayscale_flag dnaSequence images cfg b :
  dnaToPNGGrayscale dnaSequence images (withTransparentPad b cfg)
    = dnaToPNGGrayscale dnaSequence images cfg.
Proof. unfold dnaToPNGGrayscale. by rewrite dnaToGrid_flag. Qed.

Lemma gridToDNA_flag fuel ord img cfg b :
  gridToDNA fuel ord img (withTransparentPad b cfg) = gridToDNA fuel ord img cfg.
Proof. reflexivity. Qed.

(** In the output of the decoder, a block that decodes to the padding symbol
    under every order contributes the padding symbol. *)
Lemma padding_block_symbol fuel ord img cfg col row out :
  decodable img cfg -> (groupCount img cfg < fuel)%nat ->
  (forall order,
     decodePixel img order (paddingRune cfg) (col * BlockSize cfg) (row * BlockSize cfg)
       = Ok (paddingRune cfg)) ->
  gridToDNA fuel ord img cfg = Some (Ok out) ->
  exists runes,
    out = concat (utf8.EncodeRune <$> runes) /\
    length runes = length (visitOrder img cfg) /\
    forall k, visitOrder img cfg !! k = Some (col, row) ->
              runes !! k = Some (paddingRune cfg).
Proof.
  intros Hdec Hfuel Hpix. rewrite (gridToDNA_visit fuel ord img cfg Hdec Hfuel).
  intros [= Hout]. apply decodeSeq_Ok in Hout as (runes & -> & Hall). exists runes.
  split; [reflexivity|]. split; [symmetry; by eapply Forall2_length|].
  intros k Hk. destruct (Forall2_lookup_l _ _ _ _ _ Hall Hk) as (r & Hrk & k' & Hdecodes).
  cbn [fst snd] in Hdecodes. rewrite Hpix in Hdecodes. by injection Hdecodes as <-.
Qed.

(** The grid of the encoder is one the decoder accepts, under the same
    layout. *)
Lemma dnaToGrid_decodable dnaSequence cfg img :
  layout_ok cfg (len dnaSequence) -> PaddingChar cfg <> [] ->
  dnaToGrid dnaSequence cfg = Ok img ->
  decodable img cfg /\
  image.Width img / BlockSize cfg = BlocksPerRow cfg /\
  image.Height img / BlockSize cfg = numBlocks cfg (len dnaSequence) * RowsPerBlock cfg.
Proof.
  intros layout Hpad Himg.
  destruct (layout_bounds _ _ layout (len_nonneg _)) as (Hbpb & Hn & Hnb & [Hlo Hhi] & _).
  pose proof layout as (Hbs & Hbpr & Hrpb & _).
  destruct (dnaToGrid_pixels dnaSequence cfg layout) as (img' & Himg' & Hwf & HW & HH & _).
  rewrite Himg in Himg'. injection Himg' as <-.
  rewrite HW, HH. unfold imgWidth, imgHeight. rewrite !Z.div_mul by lia.
  split; [|done]. constructor; try assumption.
  - split; [lia|]. pose proof (len_nonneg dnaSequence).
    assert (RowsPerBlock cfg <= basesPerBlock cfg); [|lia].
    unfold basesPerBlock. apply le_mul_l; lia.
  - rewrite HW. by exists (BlocksPerRow cfg).
  - rewrite HH. by exists (numBlocks cfg (len dnaSequence) * RowsPerBlock cfg).
Qed.

Lemma visitOrder_range img cfg col row :
  0 < RowsPerBlock cfg ->
  (col, row) ∈ visitOrder img cfg ->
  0 <= col < image.Width img / BlockSize cfg /\
  0 <= row < image.Height img / BlockSize cfg.
Proof.
  intros Hrpb Hin. unfold visitOrder, groupBlocks in Hin.
  apply list_elem_of_bind in Hin as (g & Hin & Hg).
  apply list_elem_of_bind in Hin as (c & Hin & Hc).
  apply list_elem_of_fmap in Hin as (r & [= -> ->] & Hr).
  apply elem_of_seqZ in Hg, Hc, Hr. split; [lia|]. nia.
Qed.

Lemma visitOrder_NoDup img cfg : 0 < RowsPerBlock cfg -> NoDup (visitOrder img cfg).
Proof.
  intros Hrpb. unfold visitOrder, groupBlocks.
  apply NoDup_bind; [| |apply NoDup_seqZ].
  - intros g1 g2 [col row] Hg1 Hg2 H1 H2.
    apply list_elem_of_bind in H1 as (c1 & H1 & _), H2 as (c2 & H2 & _).
    apply list_elem_of_fmap in H1 as (r1 & [= -> ->] & Hr1), H2 as (r2 & [= _ E] & Hr2).
    apply elem_of_seqZ in Hr1, Hr2. nia.
  - intros g _. apply NoDup_bind; [| |apply NoDup_seqZ].
    + intros c1 c2 [col row] _ _ H1 H2.
      apply list_elem_of_fmap in H1 as (r1 & [= -> ->] & _), H2 as (r2 & [= -> _] & _).
      reflexivity.
    + intros c _. apply NoDup_fmap_2; [|apply NoDup_seqZ].
      intros r1 r2 [= E]. lia.
Qed.


Lemma grayOf_palette r :
  exists g, g ∈ [0; 64; 128; 192] /\ grayOf r = color.mkRGBA g g g 255.
Proof.
  unfold grayOf, mapIndex. destruct (dnaGrayscaleMap !! r) as [s|] eqn:Hs.
  - exists s. split; [|reflexivity]. apply dnaGrayscaleMap_entries in Hs.
    destruct Hs as [[= _ ->]|[[= _ ->]|[[= _ ->]|[= _ ->]]]]; set_solver.
  - exists 0. split; [set_solver|reflexivity].
Qed.

(** Every pixel of the grid the encoder returns is of the zero colour or an
    opaque gray of one of the four intensities of the map. *)
Lemma dnaToGrid_palette dnaSequence cfg img x y :
  layout_ok cfg (len dnaSequence) -> dnaToGrid dnaSequence cfg = Ok img ->
  0 <= x < imgWidth cfg -> 0 <= y < imgHeight cfg (len dnaSequence) ->
  image.At img x y = color.zero \/
  exists g, g ∈ [0; 64; 128; 192] /\ image.At img x y = color.mkRGBA g g g 255.
Proof.
  intros layout Himg Hx Hy.
  destruct (dnaToGrid_pixels dnaSequence cfg layout) as (img' & Himg' & _ & _ & _ & Hpix).
  rewrite Himg in Himg'. injection Himg' as <-.
  destruct (Hpix x y Hx Hy) as [Hyes Hno].
  destruct (decide (blockIndex cfg x y ∈ (writes dnaSequence cfg).*1)) as [Hin|Hout].
  - apply list_elem_of_fmap in Hin as ([j r] & Hj & Hin). cbn in Hj. subst j.
    rewrite (Hyes r Hin). right. apply grayOf_palette.
  - left. apply Hno. intros r Hr. apply Hout. apply list_elem_of_fmap.
    by exists (blockIndex cfg x y, r).
Qed.

(** Such a pixel is decoded: to the padding symbol, or to the symbol of its
    intensity. *)
Lemma palette_decodes img order paddingChar pixelX pixelY :
  iteration_order dnaGrayscaleMap order ->
  image.At img pixelX pixelY = color.zero \/
  (exists g, g ∈ [0; 64; 128; 192] /\ image.At img pixelX pixelY = color.mkRGBA g g g 255) ->
  exists r, decodePixel img order paddingChar pixelX pixelY = Ok r.
Proof.
  intros Ho [Hz|(g & Hg & Hc)].
  - exists paddingChar. apply decodePixel_transparent; rewrite Hz; cbn; lia.
  - assert (Hbase : exists base, dnaGrayscaleMap !! base = Some g /\ 0 <= g < 256).
    { rewrite !elem_of_cons, elem_of_nil in Hg.
      destruct Hg as [-> | [-> | [-> | [-> | []]]]];
        [exists (rune "A")|exists (rune "T")|exists (rune "C")|exists (rune "G")];
        (split; [vm_compute; reflexivity|lia]). }
    destruct Hbase as (base & Hb & Hr). exists base. rewrite decodePixel_eq, Hc.
    assert (Hopaque : transparent (color.mkRGBA g g g 255) = false).
    { destruct (transparent (color.mkRGBA g g g 255)) eqn:E; [|reflexivity].
      apply transparent_spec in E; cbn in *; lia. }
    rewrite Hopaque, sampled_gray by lia.
    rewrite (findClosest_within order g base g) by (try assumption; rewrite Z.sub_diag; cbn; lia).
    reflexivity.
Qed.

Lemma decodeSeq_total ord img cfg paddingChar blocks :
  Forall (fun blk => forall k, exists r,
            decodePixel img (ord k) paddingChar
              (blk.1 * BlockSize cfg) (blk.2 * BlockSize cfg) = Ok r) blocks ->
  forall sb, exists out, decodeSeq ord img cfg paddingChar blocks sb = Ok out.
Proof.
  induction 1 as [|[col row] blocks Hb _ IH]; intros sb; [by exists sb|].
  cbn [decodeSeq]. destruct (Hb (length sb)) as [r Hr]. cbn [fst snd] in Hr. rewrite Hr.
  cbn [mbind outcome_bind]. apply IH.
Qed.

(** The decoder returns a sequence for every grid the encoder returns, under
    the same configuration, whatever the symbols of the encoded sequence. *)
Lemma gridToDNA_encoded_returns dnaSequence cfg img fuel ord :
  layout_ok cfg (len dnaSequence) -> PaddingChar cfg <> [] ->
  dnaToGrid dnaSequence cfg = Ok img ->
  valid_orders ord -> (groupCount img cfg < fuel)%nat ->
  exists out, gridToDNA fuel ord img cfg = Some (Ok out).
Proof.
  intros layout Hpad Himg Hord Hfuel.
  pose proof layout as (Hbs & Hbpr & Hrpb & _).
  destruct (dnaToGrid_decodable dnaSequence cfg img layout Hpad Himg) as (Hdec & Hcols & Hrows).
  rewrite (gridToDNA_visit fuel ord img cfg Hdec Hfuel).
  destruct (decodeSeq_total ord img cfg (paddingRune cfg) (visitOrder img cfg)) with (sb := @nil ascii)
    as [out Hout]; [|exists out; by rewrite Hout].
  apply Forall_forall. intros [col row] Hin k. cbn [fst snd].
  apply visitOrder_range in Hin as [Hc Hr]; [|lia].
  rewrite Hcols in Hc. rewrite Hrows in Hr.
  apply palette_decodes; [apply Hord|].
  apply (dnaToGrid_palette dnaSequence cfg img); try assumption.
  - unfold imgWidth. split; [apply Z.mul_nonneg_nonneg; lia|].
    apply Z.mul_lt_mono_pos_r; lia.
  - unfold imgHeight. split; [apply Z.mul_nonneg_nonneg; lia|].
    apply Z.mul_lt_mono_pos_r; lia.
Qed.

(** C9. Whether the transparent-padding flag is set or not the encoder
    returns the same grid. In it, the block of a position past the end of
    the sequence (in the final block group) keeps the zero colour, whose
    alpha is 0; the decoder visits that block and decodes it to the padding
    symbol whatever the classifier order. Whatever the flag, decoding the
    grid returns a sequence (with enough fuel, for every order of the map
    visits), and the sequence holds the padding symbol for that block. When
    [png.Encode] accepts the size of the grid, the encoder writes that grid
    and the decoder writes that sequence, whatever the flag. *)
Theorem C9_padding_without_flag dnaSequence cfg j :
  layout_ok cfg (len dnaSequence) -> PaddingChar cfg <> [] ->
  len dnaSequence <= j < numBlocks cfg (len dnaSequence) * basesPerBlock cfg ->
  let col := j mod BlocksPerRow cfg in
  let row := j / BlocksPerRow cfg in
  exists img,
    dnaToGrid dnaSequence (withTransparentPad false cfg) = Ok img /\
    dnaToGrid dnaSequence (withTransparentPad true cfg) = Ok img /\
    image.At img (col * BlockSize cfg) (row * BlockSize cfg) = color.zero /\
    (forall order,
       decodePixel img order (paddingRune cfg) (col * BlockSize cfg) (row * BlockSize cfg)
         = Ok (paddingRune cfg)) /\
    (col, row) ∈ visitOrder img cfg /\
    (forall flag fuel ord out, (groupCount img cfg < fuel)%nat ->
       gridToDNA fuel ord img (withTransparentPad flag cfg) = Some (Ok out) ->
       exists runes,
         out = concat (utf8.EncodeRune <$> runes) /\
         length runes = length (visitOrder img cfg) /\
         forall k, visitOrder img cfg !! k = Some (col, row) ->
                   runes !! k = Some (paddingRune cfg)) /\
    (forall flag fuel ord, valid_orders ord -> (groupCount img cfg < fuel)%nat ->
       exists out runes,
         gridToDNA fuel ord img (withTransparentPad flag cfg) = Some (Ok out) /\
         out = concat (utf8.EncodeRune <$> runes) /\
         length runes = length (visitOrder img cfg) /\
         forall k, visitOrder img cfg !! k = Some (col, row) ->
                   runes !! k = Some (paddingRune cfg)) /\
    (serialisable cfg (len dnaSequence) ->
     forall flag fuel ord images writer,
       valid_orders ord -> (groupCount img cfg < fuel)%nat ->
       exists out runes,
         dnaToPNGGrayscale dnaSequence images (withTransparentPad flag cfg)
           = (images ++ [img], Ok ()) /\
         pngToDNAGrayscale fuel ord img writer (withTransparentPad flag cfg)
           = Some (writer ++ out, Ok ()) /\
         out = concat (utf8.EncodeRune <$> runes) /\
         length runes = length (visitOrder img cfg) /\
         forall k, visitOrder img cfg !! k = Some (col, row) ->
                   runes !! k = Some (paddingRune cfg)).
Proof.
  intros layout Hpad Hj col row.
  destruct (layout_bounds _ _ layout (len_nonneg _)) as (Hbpb & Hn & Hnb & [Hlo Hhi] & _).
  pose proof layout as (Hbs & Hbpr & Hrpb & _).
  pose proof (len_nonneg dnaSequence) as Hlen.
  destruct (dnaToGrid_pixels dnaSequence cfg layout) as (img & Himg & Hwf & HW & HH & Hpix).
  destruct (dnaToGrid_decodable dnaSequence cfg img layout Hpad Himg) as (Hdec & Hcols & Hrows).
  exists img. rewrite !dnaToGrid_flag. split; [exact Himg|]. split; [exact Himg|].
  pose proof (blockIndex_square cfg (len dnaSequence) j 0 0 layout Hlen
                ltac:(lia) ltac:(lia) ltac:(lia)) as Hsq.
  cbn zeta in Hsq. rewrite !Z.add_0_r in Hsq. fold col row in Hsq.
  destruct Hsq as (Hx & Hy & Hidx).
  assert (Hzero : image.At img (col * BlockSize cfg) (row * BlockSize cfg) = color.zero).
  { destruct (Hpix _ _ Hx Hy) as [_ Hno]. apply Hno.
    intros r Hr. rewrite Hidx in Hr. apply writes_bounds in Hr; [lia|assumption]. }
  assert (Hdecode : forall order,
            decodePixel img order (paddingRune cfg) (col * BlockSize cfg) (row * BlockSize cfg)
              = Ok (paddingRune cfg)).
  { intros order. apply decodePixel_transparent; rewrite Hzero; cbn; lia. }
  split; [exact Hzero|]. split; [exact Hdecode|]. split.
  - apply visitOrder_complete; try lia.
    + rewrite Hcols. subst col. apply Z.mod_pos_bound. lia.
    + rewrite Hrows. subst row. split; [apply Z.div_pos; lia|].
      apply Z.div_lt_upper_bound; [lia|]. unfold basesPerBlock in *. lia.
  - split.
    { intros flag fuel ord out Hfuel Hout. rewrite gridToDNA_flag in Hout.
      by eapply padding_block_symbol. }
    assert (Hrun : forall fuel ord, valid_orders ord -> (groupCount img cfg < fuel)%nat ->
              exists out runes,
                gridToDNA fuel ord img cfg = Some (Ok out) /\
                out = concat (utf8.EncodeRune <$> runes) /\
                length runes = length (visitOrder img cfg) /\
                forall k, visitOrder img cfg !! k = Some (col, row) ->
                          runes !! k = Some (paddingRune cfg)).
    { intros fuel ord Hord Hfuel.
      destruct (gridToDNA_encoded_returns dnaSequence cfg img fuel ord layout Hpad Himg Hord Hfuel)
        as [out Hout].
      destruct (padding_block_symbol fuel ord img cfg col row out Hdec Hfuel Hdecode Hout)
        as (runes & Hcat & Hlen' & Hk).
      exists out, runes. by repeat split. }
    split.
    { intros flag fuel ord Hord Hfuel. rewrite gridToDNA_flag. by apply Hrun. }
    intros Hpng flag fuel ord images writer Hord Hfuel.
    destruct (Hrun fuel ord Hord Hfuel) as (out & runes & Hout & Hcat & Hlen' & Hk).
    destruct (dnaToPNGGrayscale_encoded dnaSequence images cfg img layout Himg) as [Hyes _].
    exists out, runes. rewrite dnaToPNGGrayscale_flag.
    split; [exact (Hyes Hpng)|].
    split; [unfold pngToDNAGrayscale; by rewrite gridToDNA_flag, Hout|].
    by repeat split.
Qed.

Lemma C9_padding_without_flag_witness :
  exists img,
    dnaToGrid (str "ATC") (withTransparentPad false (withLayout 2 2 1 defaultConfig)) = Ok img /\
    dnaToGrid (str "ATC") (withTransparentPad true (withLayout 2 2 1 defaultConfig)) = Ok img /\
    image.At img 2 2 = color.zero /\
    decodePixel img (map_to_list dnaGrayscaleMap) (rune "N") 2 2 = Ok (rune "N") /\
    exists out runes,
      dnaToPNGGrayscale (str "ATC") []
        (withTransparentPad false (withLayout 2 2 1 defaultConfig)) = ([img], Ok ()) /\
      pngToDNAGrayscale 3 listedOrder img []
        (withTransparentPad false (withLayout 2 2 1 defaultConfig)) = Some (out, Ok ()) /\
      out = concat (utf8.EncodeRune <$> runes) /\
      runes !! 3%nat = Some (rune "N").
Proof.
  destruct (C9_padding_without_flag (str "ATC") (withLayout 2 2 1 defaultConfig) 3)
    as (img & Hfalse & Htrue & Hzero & Hdecode & _ & _ & _ & Hrun).
  - unfold layout_ok. vm_compute. repeat split; discriminate || reflexivity.
  - discriminate.
  - vm_compute. split; [discriminate|reflexivity].
  - exists img. split; [exact Hfalse|]. split; [exact Htrue|].
    split; [exact Hzero|]. split; [apply (Hdecode (map_to_list dnaGrayscaleMap))|].
    pose proof Hfalse as Hconcrete. vm_compute in Hconcrete.
    injection Hconcrete as Hconcrete.
    destruct (Hrun ltac:(unfold serialisable; vm_compute; repeat split; reflexivity)
                false 3%nat listedOrder [] [])
      as (out & runes & Henc & Hout & Hcat & _ & Hk).
    + intros k. unfold iteration_order. reflexivity.
    + rewrite <- Hconcrete. vm_compute. lia.
    + exists out, runes. split; [exact Henc|]. split; [exact Hout|]. split; [exact Hcat|].
      apply Hk. rewrite <- Hconcrete. vm_compute. reflexivity.
Defined.

(** ** Decoding does not depend on the order of the map visits *)

Lemma decodePixel_order_indep img order1 order2 paddingChar pixelX pixelY :
  iteration_order dnaGrayscaleMap order1 -> iteration_order dnaGrayscaleMap order2 ->
  decodePixel img order1 paddingChar pixelX pixelY =
  decodePixel img order2 paddingChar pixelX pixelY.
Proof.
  intros H1 H2. rewrite !decodePixel_eq. destruct (transparent _); [reflexivity|].
  by rewrite (findClosest_order_indep order1 order2) by (try assumption; apply sampled_u8).
Qed.

Section order_independence.

Variables ord1 ord2 : nat -> list (Z * Z).
Hypothesis valid1 : valid_orders ord1.
Hypothesis valid2 : valid_orders ord2.
Variable img : image.RGBA.
Variable cfg : Config.
Variable paddingChar blocksPerRow rowsOfBlocks : Z.

Lemma rowLoop_order_indep blockRow col rows : forall sb,
  rowLoop ord1 img cfg paddingChar rowsOfBlocks blockRow col rows sb =
  rowLoop ord2 img cfg paddingChar rowsOfBlocks blockRow col rows sb.
Proof.
  induction rows as [|rowInBlock rows IH]; intros sb; [reflexivity|].
  cbn [rowLoop]. destruct (_ >=? _); [reflexivity|].
  rewrite (decodePixel_order_indep img (ord1 (length sb)) (ord2 (length sb))) by done.
  destruct (decodePixel _ _ _ _ _); simpl; [apply IH|done|done].
Qed.

Lemma colLoop_order_indep blockRow sb :
  colLoop ord1 img cfg paddingChar blocksPerRow rowsOfBlocks blockRow sb =
  colLoop ord2 img cfg paddingChar blocksPerRow rowsOfBlocks blockRow sb.
Proof.
  unfold colLoop. generalize (Ok sb). generalize (seqZ 0 blocksPerRow).
  intros cols. induction cols as [|col cols IH]; intros acc; [reflexivity|].
  cbn [foldl]. rewrite <- IH. f_equal.
  destruct acc; simpl; [apply rowLoop_order_indep|done|done].
Qed.

Lemma groupLoop_order_indep fuel : forall blockRow sb,
  groupLoop ord1 img cfg paddingChar blocksPerRow rowsOfBlocks fuel blockRow sb =
  groupLoop ord2 img cfg paddingChar blocksPerRow rowsOfBlocks fuel blockRow sb.
Proof.
  induction fuel as [|fuel IH]; intros blockRow sb; [reflexivity|].
  cbn [groupLoop]. destruct (_ <? _); [|reflexivity].
  rewrite colLoop_order_indep. destruct (colLoop _ _ _ _ _ _ _ _); [apply IH|done|done].
Qed.

End order_independence.

Lemma gridToDNA_order_indep fuel ord1 ord2 img cfg :
  valid_orders ord1 -> valid_orders ord2 ->
  gridToDNA fuel ord1 img cfg = gridToDNA fuel ord2 img cfg.
Proof.
  intros H1 H2. unfold gridToDNA.
  destruct (_ <=? _); [reflexivity|]. destruct (_ || _); [reflexivity|].
  destruct (PaddingChar cfg); [reflexivity|]. by apply groupLoop_order_indep.
Qed.

Lemma listedOrder_valid : valid_orders listedOrder.
Proof. intros k. unfold iteration_order. reflexivity. Qed.

(** A result computed with the listed order and some fuel is the result for
    every order and any larger fuel. *)
Lemma gridToDNA_computed fuel0 fuel ord img cfg res :
  valid_orders ord -> (fuel0 <= fuel)%nat ->
  gridToDNA fuel0 listedOrder img cfg = Some res ->
  gridToDNA fuel ord img cfg = Some res.
Proof.
  intros Hord Hfuel H.
  rewrite (gridToDNA_order_indep fuel ord listedOrder) by (done || apply listedOrder_valid).
  by apply (gridToDNA_more_fuel fuel0).
Qed.

(** ** Round trips with several rows per block group *)

(** C1 (the code departs from the specification). With two blocks per row and two
    rows per block group, the sequence ATCG, whose length is exactly one
    block group, is encoded row by row and decoded column by column: for
    every order of the map visits and any fuel of at least 2 the decoder
    returns ACTG, not ATCG. *)
Theorem C1_roundtrip_order_mismatch fuel ord :
  valid_orders ord -> (2 <= fuel)%nat ->
  len (str "ATCG") = numBlocks layout2x2 (len (str "ATCG")) * basesPerBlock layout2x2 /\
  exists img,
    dnaToGrid (str "ATCG") layout2x2 = Ok img /\
    gridToDNA fuel ord img layout2x2 = Some (Ok (str "ACTG")) /\
    pngToDNAGrayscale fuel ord img [] layout2x2 = Some (str "ACTG", Ok ()) /\
    str "ACTG" <> str "ATCG".
Proof.
  intros Hord Hfuel. split; [reflexivity|].
  destruct (dnaToGrid (str "ATCG") layout2x2) as [img| |] eqn:Himg;
    [|vm_compute in Himg; discriminate..].
  exists img. split; [reflexivity|].
  assert (Hres : gridToDNA fuel ord img layout2x2 = Some (Ok (str "ACTG"))).
  { apply (gridToDNA_computed 2); [assumption..|].
    vm_compute in Himg. injection Himg as <-. vm_compute. reflexivity. }
  split; [exact Hres|]. split; [|discriminate].
  unfold pngToDNAGrayscale. by rewrite Hres.
Qed.

Lemma C1_roundtrip_order_mismatch_witness :
  exists img,
    dnaToGrid (str "ATCG") layout2x2 = Ok img /\
    gridToDNA 2 listedOrder img layout2x2 = Some (Ok (str "ACTG")).
Proof.
  destruct (C1_roundtrip_order_mismatch 2 listedOrder) as (_ & img & Himg & Hres & _).
  - apply listedOrder_valid.
  - lia.
  - exists img. split; [exact Himg|exact Hres].
Defined.

(** C2 (the code departs from the specification). With the same layout, the default
    padding symbol N and transparent padding enabled, the sequence ATC, one
    symbol short of a block group, decodes to ACTN: the padding symbol fills
    the remainder, but the symbols before it are not the sequence ATC. *)
Theorem C2_padding_order_mismatch fuel ord :
  valid_orders ord -> (2 <= fuel)%nat ->
  TransparentPad layout2x2 = true /\
  len (str "ATC") < numBlocks layout2x2 (len (str "ATC")) * basesPerBlock layout2x2 /\
  exists img,
    dnaToGrid (str "ATC") layout2x2 = Ok img /\
    gridToDNA fuel ord img layout2x2 = Some (Ok (str "ACTN")) /\
    pngToDNAGrayscale fuel ord img [] layout2x2 = Some (str "ACTN", Ok ()) /\
    str "ACTN" <> str "ATC" ++ utf8.EncodeRune (paddingRune layout2x2).
Proof.
  intros Hord Hfuel. split; [reflexivity|]. split; [reflexivity|].
  destruct (dnaToGrid (str "ATC") layout2x2) as [img| |] eqn:Himg;
    [|vm_compute in Himg; discriminate..].
  exists img. split; [reflexivity|].
  assert (Hres : gridToDNA fuel ord img layout2x2 = Some (Ok (str "ACTN"))).
  { apply (gridToDNA_computed 2); [assumption..|].
    vm_compute in Himg. injection Himg as <-. vm_compute. reflexivity. }
  split; [exact Hres|]. split; [|discriminate].
  unfold pngToDNAGrayscale. by rewrite Hres.
Qed.

Lemma C2_padding_order_mismatch_witness :
  exists img,
    dnaToGrid (str "ATC") layout2x2 = Ok img /\
    gridToDNA 2 listedOrder img layout2x2 = Some (Ok (str "ACTN")).
Proof.
  destruct (C2_padding_order_mismatch 2 listedOrder) as (_ & _ & img & Himg & Hres & _).
  - apply listedOrder_valid.
  - lia.
  - exists img. split; [exact Himg|exact Hres].
Defined.

(** ** The one-time pad *)

Lemma xorBase_step c1 c2 : isBase c1 -> isBase c2 ->
  exists b1 b2,
    dnaBaseToBinary (rune c1) = Ok b1 /\ dnaBaseToBinary (rune c2) = Ok b2 /\
    binaryToDNABase (Z.lxor b1 b2) = Ok (rune (xorBase c1 c2)) /\
    utf8.EncodeRune (rune (xorBase c1 c2)) = [xorBase c1 c2] /\
    isBase (xorBase c1 c2) /\ xorBase (xorBase c1 c2) c2 = c1.
Proof.
  unfold isBase.
  intros [-> | [-> | [-> | ->]]] [-> | [-> | [-> | ->]]];
    vm_compute; do 2 eexists; repeat split; eauto.
Qed.

Lemma zip_xorBase_bases l : forall k, Forall isBase l -> Forall isBase k ->
  Forall isBase (zip_with xorBase l k).
Proof.
  induction l as [|a l IH]; intros [|b k] Hl Hk; try constructor.
  - apply Forall_cons in Hl as [Ha _]. apply Forall_cons in Hk as [Hb _].
    by destruct (xorBase_step a b Ha Hb) as (_ & _ & _ & _ & _ & _ & ? & _).
  - apply Forall_cons in Hl as [_ Hl]. apply Forall_cons in Hk as [_ Hk]. by apply IH.
Qed.

Lemma zip_xorBase_twice l : forall k, Forall isBase l -> Forall isBase k ->
  length l = length k -> zip_with xorBase (zip_with xorBase l k) k = l.
Proof.
  induction l as [|a l IH]; intros [|b k] Hl Hk Hlen; try discriminate; [reflexivity|].
  apply Forall_cons in Hl as [Ha Hl]. apply Forall_cons in Hk as [Hb Hk].
  cbn [zip_with]. f_equal.
  - by destruct (xorBase_step a b Ha Hb) as (_ & _ & _ & _ & _ & _ & _ & ?).
  - apply IH; try assumption. by injection Hlen.
Qed.

(** On two strings of bases of the same length [xorDNAStrings] succeeds and
    returns the base-wise exclusive or. *)
Lemma xorDNAStrings_bases dna1 dna2 :
  Forall isBase dna1 -> Forall isBase dna2 -> length dna1 = length dna2 ->
  xorDNAStrings dna1 dna2 = Ok (zip_with xorBase dna1 dna2).
Proof.
  intros H1 H2 Hlen. unfold xorDNAStrings, len. rewrite Hlen, Z.eqb_refl. cbn [negb].
  rewrite <- Hlen.
  enough (Hpre : forall n, (n <= length dna1)%nat ->
            foldl (fun acc i =>
                     resultBuilder ← acc;
                     c1 ← index dna1 i;
                     b1 ← located 1 i (dnaBaseToBinary (rune c1));
                     c2 ← index dna2 i;
                     b2 ← located 2 i (dnaBaseToBinary (rune c2));
                     let xorResult := Z.lxor b1 b2 in
                     resBase ← match binaryToDNABase xorResult with
                               | Err e => Err (XorConversion e)
                               | other => other
                               end;
                     Ok (resultBuilder ++ utf8.EncodeRune resBase))
                  (Ok []) (seqZ 0 (Z.of_nat n))
            = Ok (zip_with xorBase (take n dna1) (take n dna2))).
  { specialize (Hpre (length dna1) ltac:(lia)).
    rewrite take_ge in Hpre by lia. rewrite (take_ge dna2) in Hpre by lia. exact Hpre. }
  induction n as [|n IH]; intros Hn; [reflexivity|].
  rewrite seqZ_S, foldl_app, IH by lia. cbn [foldl mbind outcome_bind].
  rewrite Z.add_0_l.
  destruct (lookup_lt_is_Some_2 dna1 n ltac:(lia)) as [c1 Hc1].
  destruct (lookup_lt_is_Some_2 dna2 n ltac:(lia)) as [c2 Hc2].
  unfold index. destruct (Z.ltb_spec (Z.of_nat n) 0); [lia|].
  rewrite Nat2Z.id, Hc1, Hc2. cbn [mbind outcome_bind].
  pose proof (proj1 (Forall_lookup _ _) H1 _ _ Hc1) as Hb1.
  pose proof (proj1 (Forall_lookup _ _) H2 _ _ Hc2) as Hb2.
  destruct (xorBase_step c1 c2 Hb1 Hb2) as (b1 & b2 & E1 & E2 & E3 & E4 & _).
  rewrite E1. cbn [located mbind outcome_bind]. rewrite E2. cbn [located mbind outcome_bind].
  rewrite E3. cbn [mbind outcome_bind]. rewrite E4.
  f_equal. rewrite (take_S_r dna1 n c1), (take_S_r dna2 n c2) by assumption.
  rewrite zip_with_app; [reflexivity|].
  rewrite !length_take. lia.
Qed.

(** Each byte becomes four bases, from which [dnaToByte] recovers it. *)
Lemma byteToDNA_spec c :
  Forall isBase (byteToDNA (rune c)) /\ length (byteToDNA (rune c)) = 4%nat /\
  dnaToByte (byteToDNA (rune c)) = Ok (rune c).
Proof.
  unfold isBase.
  destruct c as [[] [] [] [] [] [] [] []]; vm_compute;
    (split; [repeat constructor; tauto|split; reflexivity]).
Qed.

Lemma textToDNA_flat text :
  textToDNA text = c ← text; byteToDNA (rune c).
Proof.
  unfold textToDNA.
  enough (H : forall acc, foldl (fun sb char => sb ++ byteToDNA (rune char)) acc text
                          = acc ++ (c ← text; byteToDNA (rune c))) by apply (H []).
  induction text as [|c text IH]; intros acc; [by rewrite app_nil_r|].
  cbn [foldl mbind list_bind]. by rewrite IH, <- app_assoc.
Qed.

Lemma textToDNA_bases text :
  Forall isBase (textToDNA text) /\ length (textToDNA text) = (4 * length text)%nat.
Proof.
  rewrite textToDNA_flat. induction text as [|c text [IH1 IH2]]; [by split|].
  cbn [mbind list_bind]. destruct (byteToDNA_spec c) as (Hb & Hl & _).
  split; [by apply Forall_app|]. rewrite length_app, Hl, IH2. simpl. lia.
Qed.

Lemma drop_chunks text : forall m,
  drop (4 * m) (c ← text; byteToDNA (rune c)) = (c ← drop m text; byteToDNA (rune c)).
Proof.
  induction text as [|c text IH]; intros m;
    [rewrite drop_nil; cbn [mbind list_bind]; apply drop_nil|].
  destruct m as [|m]; [reflexivity|].
  cbn [mbind list_bind drop]. destruct (byteToDNA_spec c) as (_ & Hl & _).
  replace (4 * S m)%nat with (length (byteToDNA (rune c)) + 4 * m)%nat by lia.
  rewrite drop_app_add. apply IH.
Qed.

(** [dnaToText] inverts [textToDNA]. *)
Lemma dnaToText_textToDNA text :
  4 * len text < 2 ^ 63 -> dnaToText (textToDNA text) = Ok text.
Proof.
  intros Hfit. destruct (textToDNA_bases text) as [_ Hlen].
  unfold dnaToText, irem, len in *. rewrite Hlen.
  replace (Z.of_nat (4 * length text)) with (Z.of_nat (length text) * 4) by lia.
  rewrite Z.rem_mul by lia. cbn [Z.eqb negb].
  replace ((Z.of_nat (length text) * 4 + 3) / 4) with (Z.of_nat (length text))
    by (apply Z.div_unique with 3; lia).
  enough (Hpre : forall n, (n <= length text)%nat ->
            foldl (fun acc i =>
                     textBuilder ← acc;
                     dnaSegment ← slice (textToDNA text) i (iadd i 4);
                     b ← dnaToByte dnaSegment;
                     Ok (textBuilder ++ [byte b]))
                  (Ok []) ((fun k => 4 * k) <$> seqZ 0 (Z.of_nat n))
            = Ok (take n text)).
  { specialize (Hpre (length text) ltac:(lia)).
    rewrite take_ge in Hpre by lia. exact Hpre. }
  induction n as [|n IH]; intros Hn; [reflexivity|].
  rewrite seqZ_S, fmap_app, foldl_app, IH by lia. cbn [fmap list_fmap foldl mbind outcome_bind].
  rewrite Z.add_0_l.
  destruct (lookup_lt_is_Some_2 text n ltac:(lia)) as [c Hc].
  assert (Hslice : slice (textToDNA text) (4 * Z.of_nat n) (iadd (4 * Z.of_nat n) 4)
                   = Ok (byteToDNA (rune c))).
  { unfold slice, iadd, len. rewrite wrap64_id by (unfold fits64; lia). rewrite Hlen.
    destruct (Z.leb_spec 0 (4 * Z.of_nat n)); [|lia].
    destruct (Z.leb_spec (4 * Z.of_nat n) (4 * Z.of_nat n + 4)); [|lia].
    destruct (Z.leb_spec (4 * Z.of_nat n + 4) (Z.of_nat (4 * length text))); [|lia].
    cbn [andb]. f_equal.
    replace (Z.to_nat (4 * Z.of_nat n + 4 - 4 * Z.of_nat n)) with 4%nat by lia.
    replace (Z.to_nat (4 * Z.of_nat n)) with (4 * n)%nat by lia.
    rewrite textToDNA_flat, drop_chunks, (drop_S text c n Hc).
    cbn [mbind list_bind]. destruct (byteToDNA_spec c) as (_ & Hl & _).
    rewrite <- Hl at 1. by rewrite take_app_length. }
  rewrite Hslice. cbn [mbind outcome_bind].
  destruct (byteToDNA_spec c) as (_ & _ & Hbyte). rewrite Hbyte. cbn [mbind outcome_bind].
  by rewrite byte_rune, (take_S_r text n c).
Qed.

(** C10. For every byte string [p] (short enough for four times its length
    to be an [int]) and every key of upper-case bases of four times its
    length, encrypting and then decrypting with the key succeeds, yields the
    DNA form of [p] again, and [dnaToText] returns [p]. *)
Theorem C10_one_time_pad_roundtrip p k :
  Forall isBase k -> len k = 4 * len p -> 4 * len p < 2 ^ 63 ->
  exists ciphertext decrypted,
    xorDNAStrings (textToDNA p) k = Ok ciphertext /\
    xorDNAStrings ciphertext k = Ok decrypted /\
    decrypted = textToDNA p /\
    dnaToText decrypted = Ok p.
Proof.
  intros Hk Hlen Hfit. destruct (textToDNA_bases p) as [Hbases Hlen4].
  assert (Hsame : length (textToDNA p) = length k) by (unfold len in Hlen; lia).
  exists (zip_with xorBase (textToDNA p) k), (textToDNA p).
  split; [by apply xorDNAStrings_bases|]. split; [|split; [reflexivity|]].
  - rewrite xorDNAStrings_bases.
    + f_equal. by apply zip_xorBase_twice.
    + by apply zip_xorBase_bases.
    + assumption.
    + rewrite length_zip_with. lia.
  - by apply dnaToText_textToDNA.
Qed.

Lemma str_GATTACAT_bases : Forall isBase (str "GATTACAT").
Proof. unfold isBase. repeat constructor; tauto. Qed.

Lemma C10_one_time_pad_roundtrip_witness :
  exists ciphertext decrypted,
    xorDNAStrings (textToDNA (str "Hi")) (str "GATTACAT") = Ok ciphertext /\
    xorDNAStrings ciphertext (str "GATTACAT") = Ok decrypted /\
    decrypted = textToDNA (str "Hi") /\
    dnaToText decrypted = Ok (str "Hi").
Proof.
  apply (C10_one_time_pad_roundtrip (str "Hi") (str "GATTACAT")).
  - exact str_GATTACAT_bases.
  - reflexivity.
  - reflexivity.
Defined.

(** ** What decoding an encoded sequence returns *)

Lemma isBase_mapped c : isBase c ->
  rune c < 128 /\ exists s, dnaGrayscaleMap !! rune c = Some s /\ 0 <= s < 256.
Proof.
  intros [-> | [-> | [-> | ->]]]; (split; [vm_compute; reflexivity|]);
    eexists; (split; [vm_compute; reflexivity|lia]).
Qed.

Lemma isBase_ascii7 dnaSequence : Forall isBase dnaSequence -> utf8.ascii7 dnaSequence.
Proof.
  intros H. eapply Forall_impl; [exact H|]. intros c Hc. by apply isBase_mapped.
Qed.

Section decode_encoded.

Variable dnaSequence : list ascii.
Variable cfg : Config.
Variable img : image.RGBA.
Hypothesis layout : layout_ok cfg (len dnaSequence).
Hypothesis bases : Forall isBase dnaSequence.
Hypothesis encoded : dnaToGrid dnaSequence cfg = Ok img.

Lemma decodePixel_encoded order col row :
  iteration_order dnaGrayscaleMap order ->
  0 <= col < BlocksPerRow cfg ->
  0 <= row < numBlocks cfg (len dnaSequence) * RowsPerBlock cfg ->
  exists r,
    decodePixel img order (paddingRune cfg) (col * BlockSize cfg) (row * BlockSize cfg) = Ok r /\
    utf8.EncodeRune r = symbolAt dnaSequence cfg (row * BlocksPerRow cfg + col).
Proof.
  intros Horder Hcol Hrow.
  destruct (layout_bounds _ _ layout (len_nonneg _)) as (Hbpb & Hn & Hnb & [Hlo Hhi] & _).
  pose proof layout as (Hbs & Hbpr & Hrpb & _).
  destruct (dnaToGrid_pixels dnaSequence cfg layout) as (img' & Himg' & Hwf & HW & HH & Hpix).
  rewrite encoded in Himg'. injection Himg' as <-.
  set (k := row * BlocksPerRow cfg + col).
  assert (Hk : 0 <= k < numBlocks cfg (len dnaSequence) * basesPerBlock cfg).
  { unfold basesPerBlock. subst k. nia. }
  assert (Hkm : k mod BlocksPerRow cfg = col).
  { subst k. rewrite Z.add_comm, Z.mod_add by lia. apply Z.mod_small. lia. }
  assert (Hkd : k / BlocksPerRow cfg = row).
  { subst k. rewrite Z.add_comm, Z.div_add by lia. rewrite Z.div_small; lia. }
  pose proof (blockIndex_square cfg (len dnaSequence) k 0 0 layout (len_nonneg _)
                Hk ltac:(lia) ltac:(lia)) as Hsq.
  cbn zeta in Hsq. rewrite !Z.add_0_r, Hkm, Hkd in Hsq. destruct Hsq as (Hx & Hy & Hidx).
  destruct (Hpix _ _ Hx Hy) as [Hyes Hno]. rewrite Hidx in Hyes, Hno.
  unfold symbolAt. destruct (dnaSequence !! Z.to_nat k) as [c|] eqn:Hc.
  - assert (Hw : (k, rune c) ∈ writes dnaSequence cfg).
    { apply writes_ascii7; [assumption|by apply isBase_ascii7|]. split; [lia|]. by exists c. }
    pose proof (proj1 (Forall_lookup _ _) bases _ _ Hc) as Hbase.
    destruct (isBase_mapped c Hbase) as (H7 & s & Hs & Hsr).
    exists (rune c). split; [|by apply EncodeRune_ascii7].
    assert (Hg : grayOf (rune c) = color.mkRGBA s s s 255)
      by (unfold grayOf, mapIndex; by rewrite Hs).
    rewrite decodePixel_eq, (Hyes _ Hw), Hg.
    assert (Hopaque : transparent (color.mkRGBA s s s 255) = false).
    { destruct (transparent _) eqn:E; [|reflexivity].
      apply transparent_spec in E; cbn in *; lia. }
    rewrite Hopaque, sampled_gray by assumption.
    rewrite (findClosest_within order s (rune c) s); try assumption; [reflexivity|lia].
  - exists (paddingRune cfg). split; [|reflexivity].
    assert (Hz : image.At img (col * BlockSize cfg) (row * BlockSize cfg) = color.zero).
    { apply Hno. intros r Hr. apply writes_ascii7 in Hr as (_ & c & Hc' & _);
        [congruence|assumption|by apply isBase_ascii7]. }
    apply decodePixel_transparent; rewrite Hz; cbn; lia.
Qed.

Lemma decodeSeq_encoded ord blocks : valid_orders ord ->
  Forall (fun blk => 0 <= blk.1 < BlocksPerRow cfg /\
                     0 <= blk.2 < numBlocks cfg (len dnaSequence) * RowsPerBlock cfg) blocks ->
  forall sb,
    decodeSeq ord img cfg (paddingRune cfg) blocks sb =
    Ok (sb ++ concat ((fun blk => symbolAt dnaSequence cfg (blk.2 * BlocksPerRow cfg + blk.1)) <$> blocks)).
Proof.
  intros Hord. induction 1 as [|[col row] blocks [Hc Hr] _ IH]; intros sb.
  - cbn. by rewrite app_nil_r.
  - cbn [decodeSeq fmap list_fmap concat fst snd] in *.
    destruct (decodePixel_encoded (ord (length sb)) col row (Hord _) Hc Hr) as (r & -> & <-).
    cbn [mbind outcome_bind]. rewrite IH. by rewrite <- app_assoc.
Qed.

(** The blocks the decoder visits lie inside the encoded grid. *)
Lemma visitOrder_encoded : PaddingChar cfg <> [] ->
  Forall (fun blk => 0 <= blk.1 < BlocksPerRow cfg /\
                     0 <= blk.2 < numBlocks cfg (len dnaSequence) * RowsPerBlock cfg)
         (visitOrder img cfg).
Proof.
  intros Hpad.
  destruct (dnaToGrid_decodable dnaSequence cfg img layout Hpad encoded) as (Hdec & Hcols & Hrows).
  pose proof layout as (Hbs & Hbpr & Hrpb & _).
  apply Forall_forall. intros [col row] Hin. unfold visitOrder, groupBlocks in Hin.
  rewrite Hcols, Hrows in Hin.
  apply list_elem_of_bind in Hin as (g & Hin & Hg).
  apply list_elem_of_bind in Hin as (c & Hin & Hc).
  apply list_elem_of_fmap in Hin as (r & [= -> ->] & Hr).
  apply elem_of_seqZ in Hg, Hc, Hr. cbn [fst snd]. split; [lia|]. nia.
Qed.

(** Decoding the encoded grid returns, for every order of the map visits and
    enough fuel, the symbols of the visited blocks in the visiting order. *)
Lemma gridToDNA_encoded fuel ord :
  PaddingChar cfg <> [] -> valid_orders ord -> (groupCount img cfg < fuel)%nat ->
  gridToDNA fuel ord img cfg =
    Some (Ok (concat ((fun blk => symbolAt dnaSequence cfg (blk.2 * BlocksPerRow cfg + blk.1))
                        <$> visitOrder img cfg))).
Proof.
  intros Hpad Hord Hfuel.
  destruct (dnaToGrid_decodable dnaSequence cfg img layout Hpad encoded) as (Hdec & _).
  rewrite (gridToDNA_visit fuel ord img cfg Hdec Hfuel).
  by rewrite decodeSeq_encoded by (assumption || by apply visitOrder_encoded).
Qed.

End decode_encoded.

(** ** The round trip with one row per block group *)

Lemma bind_singleton_fmap {S T : Type} (f : S -> T) (l : list S) :
  (x ← l; [f x]) = f <$> l.
Proof. induction l as [|x l IH]; [reflexivity|]. cbn. by rewrite <- IH. Qed.

(** With one row per block group the decoder visits the blocks in the order
    of the positions of the sequence. *)
Lemma visitOrder_single_row img cfg :
  RowsPerBlock cfg = 1 ->
  0 <= image.Width img / BlockSize cfg -> 0 <= image.Height img / BlockSize cfg ->
  (fun blk => blk.2 * (image.Width img / BlockSize cfg) + blk.1) <$> visitOrder img cfg =
  seqZ 0 (image.Height img / BlockSize cfg * (image.Width img / BlockSize cfg)).
Proof.
  intros Hrpb Hbpr Hrows. unfold visitOrder, groupBlocks. rewrite Hrpb.
  set (bpr := image.Width img / BlockSize cfg) in *.
  set (rows := image.Height img / BlockSize cfg) in *.
  replace ((rows + 1 - 1) / 1) with rows by (rewrite Z.div_1_r; lia).
  enough (Hgen : forall n a, 0 <= a -> a + Z.of_nat n <= rows ->
            (fun blk => blk.2 * bpr + blk.1)
              <$> (g ← seqZ a (Z.of_nat n); col ← seqZ 0 bpr;
                   (fun r => (col, g * 1 + r)) <$> seqZ 0 (Z.min 1 (rows - g * 1)))
            = seqZ (a * bpr) (Z.of_nat n * bpr)).
  { specialize (Hgen (Z.to_nat rows) 0 ltac:(lia) ltac:(lia)).
    rewrite Z2Nat.id in Hgen by lia. exact Hgen. }
  induction n as [|n IH]; intros a Ha Hle; [reflexivity|].
  rewrite (seqZ_cons a) by lia. cbn [mbind list_bind]. rewrite fmap_app.
  replace (Z.pred (Z.of_nat (S n))) with (Z.of_nat n) by lia.
  rewrite IH by lia.
  replace (Z.of_nat (S n) * bpr) with (bpr + Z.of_nat n * bpr) by lia.
  rewrite seqZ_app by nia. f_equal; [|f_equal; lia].
  replace (Z.min 1 (rows - a * 1)) with 1 by lia.
  change (seqZ 0 1) with [0]. cbn [fmap list_fmap].
  rewrite bind_singleton_fmap, <- list_fmap_compose.
  transitivity (Z.add (a * bpr) <$> seqZ 0 bpr).
  - apply list_fmap_ext. intros i col _. cbn. lia.
  - rewrite fmap_add_seqZ. f_equal. lia.
Qed.

Section single_row.

Variable dnaSequence : list ascii.
Variable cfg : Config.

Lemma symbolAt_prefix : forall n, (n <= length dnaSequence)%nat ->
  concat (symbolAt dnaSequence cfg <$> seqZ 0 (Z.of_nat n)) = take n dnaSequence.
Proof.
  induction n as [|n IH]; intros Hn; [reflexivity|].
  rewrite seqZ_S, fmap_app, concat_app, IH by lia.
  destruct (lookup_lt_is_Some_2 dnaSequence n ltac:(lia)) as [c Hc].
  cbn [fmap list_fmap concat]. unfold symbolAt. rewrite Z.add_0_l, Nat2Z.id, Hc.
  rewrite (take_S_r _ _ c) by assumption. by rewrite app_nil_r.
Qed.

Lemma symbolAt_suffix m :
  concat (symbolAt dnaSequence cfg <$> seqZ (len dnaSequence) m) =
  concat (replicate (Z.to_nat m) (utf8.EncodeRune (paddingRune cfg))).
Proof.
  f_equal. rewrite <- (length_seqZ (len dnaSequence) m).
  assert (Hall : Forall (fun k => len dnaSequence <= k) (seqZ (len dnaSequence) m)).
  { apply Forall_forall. intros k Hk. apply elem_of_seqZ in Hk. lia. }
  induction Hall as [|k l Hk _ IH]; [reflexivity|].
  cbn [fmap list_fmap length replicate]. rewrite IH. f_equal.
  unfold symbolAt. rewrite lookup_ge_None_2; [reflexivity|]. unfold len in Hk. lia.
Qed.

End single_row.

(** For every valid layout with one row per block group and every sequence
    of the four data symbols, decoding the encoded grid returns the sequence
    followed by the padding symbol for each absent position of the final
    block group; nothing is appended when the length of the sequence is a
    multiple of the blocks per row. *)
Theorem roundtrip_single_row dnaSequence cfg fuel ord :
  layout_ok cfg (len dnaSequence) -> RowsPerBlock cfg = 1 ->
  PaddingChar cfg <> [] -> Forall isBase dnaSequence ->
  valid_orders ord -> (Z.to_nat (numBlocks cfg (len dnaSequence)) < fuel)%nat ->
  exists img,
    dnaToGrid dnaSequence cfg = Ok img /\
    gridToDNA fuel ord img cfg =
      Some (Ok (dnaSequence ++
                concat (replicate
                          (Z.to_nat (numBlocks cfg (len dnaSequence) * basesPerBlock cfg
                                     - len dnaSequence))
                          (utf8.EncodeRune (paddingRune cfg))))) /\
    (len dnaSequence = numBlocks cfg (len dnaSequence) * basesPerBlock cfg ->
     gridToDNA fuel ord img cfg = Some (Ok dnaSequence)).
Proof.
  intros layout Hrpb Hpad Hbases Hord Hfuel.
  destruct (layout_bounds _ _ layout (len_nonneg _)) as (Hbpb & Hn & Hnb & [Hlo Hhi] & _).
  pose proof layout as (Hbs & Hbpr & _).
  pose proof (len_nonneg dnaSequence) as Hlen.
  destruct (dnaToGrid_pixels dnaSequence cfg layout) as (img & Himg & _).
  destruct (dnaToGrid_decodable dnaSequence cfg img layout Hpad Himg) as (Hdec & Hcols & Hrows).
  exists img. split; [exact Himg|].
  assert (Hres : gridToDNA fuel ord img cfg =
      Some (Ok (dnaSequence ++
                concat (replicate
                          (Z.to_nat (numBlocks cfg (len dnaSequence) * basesPerBlock cfg
                                     - len dnaSequence))
                          (utf8.EncodeRune (paddingRune cfg)))))).
  { rewrite (gridToDNA_encoded dnaSequence cfg img layout Hbases Himg fuel ord Hpad Hord).
    - do 2 f_equal.
      rewrite (list_fmap_compose (fun blk => blk.2 * BlocksPerRow cfg + blk.1)
                 (symbolAt dnaSequence cfg)).
      pose proof (visitOrder_single_row img cfg Hrpb) as Hv.
      rewrite Hcols, Hrows, Hrpb in Hv. rewrite Hv by lia.
      unfold basesPerBlock in *. rewrite Hrpb in *.
      replace (numBlocks cfg (len dnaSequence) * 1 * BlocksPerRow cfg)
        with (len dnaSequence
              + (numBlocks cfg (len dnaSequence) * (BlocksPerRow cfg * 1) - len dnaSequence))
        by lia.
      rewrite seqZ_app, fmap_app, concat_app by lia.
      rewrite Z.add_0_l, symbolAt_suffix. f_equal.
      unfold len. rewrite symbolAt_prefix by lia. by rewrite take_ge by lia.
    - unfold groupCount. rewrite Hrows, Hrpb.
      replace ((numBlocks cfg (len dnaSequence) * 1 + 1 - 1) / 1)
        with (numBlocks cfg (len dnaSequence)) by (rewrite Z.div_1_r; lia).
      exact Hfuel. }
  split; [exact Hres|]. intros Hexact. rewrite Hres, <- Hexact, Z.sub_diag.
  cbn. by rewrite app_nil_r.
Qed.


(** The example of the specification: ATCG with blocks of 2 pixels, 2 blocks
    per row and 1 row per block group gives a grid of 4 by 4 pixels whose
    four blocks have the intensities 0, 64, 128 and 192, and decodes to ATCG. *)
Example spec_example :
  exists img,
    dnaToGrid (str "ATCG") (withLayout 2 2 1 defaultConfig) = Ok img /\
    (image.Width img, image.Height img) = (4, 4) /\
    image.At img 0 0 = color.mkRGBA 0 0 0 255 /\
    image.At img 2 0 = color.mkRGBA 64 64 64 255 /\
    image.At img 0 2 = color.mkRGBA 128 128 128 255 /\
    image.At img 2 2 = color.mkRGBA 192 192 192 255 /\
    gridToDNA 3 listedOrder img (withLayout 2 2 1 defaultConfig) = Some (Ok (str "ATCG")).
Proof. eexists. split; [vm_compute; reflexivity|]. vm_compute. repeat split. Qed.

(** * Further properties of the PNG codec (dnapng.go) *)

(** ** The blocks the decoder visits *)

(** The position of the sequence that the encoder lays out at a block. *)
(** The positions of the blocks, in the visiting order, are the positions
    0, 1, ... of the grid rearranged. *)
Lemma visitOrder_positions img cfg :
  0 < BlockSize cfg -> 0 < RowsPerBlock cfg ->
  0 <= image.Width img -> 0 <= image.Height img ->
  (fun blk => blk.2 * (image.Width img / BlockSize cfg) + blk.1) <$> visitOrder img cfg
  ≡ₚ seqZ 0 (image.Height img / BlockSize cfg * (image.Width img / BlockSize cfg)).
Proof.
  intros Hbs Hrpb HW HH.
  set (bpr := image.Width img / BlockSize cfg).
  set (rows := image.Height img / BlockSize cfg).
  assert (Hbpr : 0 <= bpr) by (apply Z.div_pos; lia).
  assert (Hrows : 0 <= rows) by (apply Z.div_pos; lia).
  apply NoDup_Permutation; [|apply NoDup_seqZ|].
  - apply NoDup_fmap_2_strong; [|by apply visitOrder_NoDup].
    intros [c1 r1] [c2 r2] H1 H2 E. cbn [fst snd] in E.
    apply visitOrder_range in H1, H2; try assumption. fold bpr rows in H1, H2.
    assert (r1 = r2) by nia. subst. f_equal. lia.
  - intros k. rewrite list_elem_of_fmap, elem_of_seqZ. split.
    + intros ([col row] & -> & Hin). apply visitOrder_range in Hin; [|assumption].
      fold bpr rows in Hin. cbn [fst snd]. nia.
    + intros Hk. assert (0 < bpr) by nia.
      exists (k mod bpr, k / bpr). cbn [fst snd].
      pose proof (Z.div_mod k bpr ltac:(lia)). pose proof (Z.mod_pos_bound k bpr ltac:(lia)).
      split; [lia|]. apply visitOrder_complete; [assumption|assumption|fold bpr; lia|].
      fold rows. split; [apply Z.div_pos; lia|]. apply Z.div_lt_upper_bound; lia.
Qed.

Lemma concat_fmap_bind {S T : Type} (f : S -> list T) (l : list S) :
  concat (f <$> l) = l ≫= f.
Proof. induction l as [|x l IH]; [reflexivity|]. cbn. by rewrite IH. Qed.



(** ** The grid the encoder builds *)

(** X2. For a valid layout whose image fits the address space the encoder
    builds a grid whose width is blocks per row times block size and whose
    height is the number of block groups (the length of the sequence divided
    by the size of a block group, rounded up) times rows per block times
    block size; both are multiples of the block size, and the grid holds
    width times height pixels. It writes that grid, as its only image, when
    the sequence is not empty and both dimensions are below 2^32; otherwise
    (for the empty sequence in particular) it writes nothing and returns the
    error of [png.Encode] on the size of the image. *)
Theorem X2_encoded_grid_geometry dnaSequence images cfg :
  layout_ok cfg (len dnaSequence) ->
  exists img,
    dnaToGrid dnaSequence cfg = Ok img /\
    (serialisable cfg (len dnaSequence) ->
       dnaToPNGGrayscale dnaSequence images cfg = (images ++ [img], Ok ())) /\
    (~ serialisable cfg (len dnaSequence) ->
       dnaToPNGGrayscale dnaSequence images cfg =
         (images, Err (InvalidImageSize (image.Width img) (image.Height img)))) /\
    image.Width img = BlocksPerRow cfg * BlockSize cfg /\
    image.Height img = numBlocks cfg (len dnaSequence) * RowsPerBlock cfg * BlockSize cfg /\
    (numBlocks cfg (len dnaSequence) - 1) * basesPerBlock cfg < len dnaSequence
      <= numBlocks cfg (len dnaSequence) * basesPerBlock cfg /\
    (BlockSize cfg | image.Width img) /\ (BlockSize cfg | image.Height img) /\
    len (image.Pix img) = image.Width img * image.Height img.
Proof.
  intros layout.
  destruct (layout_bounds _ _ layout (len_nonneg _)) as (Hbpb & Hn & Hnb & [Hlo Hhi] & _).
  destruct (dnaToGrid_pixels dnaSequence cfg layout) as (img & Himg & Hwf & HW & HH & _).
  destruct (dnaToPNGGrayscale_encoded dnaSequence images cfg img layout Himg) as [Hyes Hno].
  exists img. split; [exact Himg|]. split; [exact Hyes|].
  split; [by rewrite HW, HH|].
  split; [exact HW|]. split; [exact HH|]. split; [lia|].
  split; [rewrite HW; by exists (BlocksPerRow cfg)|].
  split; [rewrite HH; by exists (numBlocks cfg (len dnaSequence) * RowsPerBlock cfg)|].
  apply (image.wf_len _ Hwf).
Qed.

Lemma X2_encoded_grid_geometry_witness :
  (exists img,
     dnaToPNGGrayscale (str "GATTACA") [] (withLayout 3 2 2 defaultConfig) = ([img], Ok ()) /\
     image.Width img = 6 /\ image.Height img = 12 /\ len (image.Pix img) = 72) /\
  (exists img,
     dnaToPNGGrayscale [] [] defaultConfig
       = ([], Err (InvalidImageSize (image.Width img) (image.Height img))) /\
     image.Width img = 400 /\ image.Height img = 0).
Proof.
  split.
  - destruct (X2_encoded_grid_geometry (str "GATTACA") [] (withLayout 3 2 2 defaultConfig))
      as (img & _ & Hyes & _ & HW & HH & _ & _ & _ & Hlen).
    + unfold layout_ok. vm_compute. repeat split; discriminate || reflexivity.
    + exists img. split; [|split; [exact HW|split; [exact HH|]]].
      * apply Hyes. unfold serialisable. vm_compute. repeat split; reflexivity.
      * rewrite Hlen, HW, HH. reflexivity.
  - destruct (X2_encoded_grid_geometry [] [] defaultConfig)
      as (img & _ & _ & Hno & HW & HH & _).
    + unfold layout_ok. vm_compute. repeat split; discriminate || reflexivity.
    + exists img. split; [|split; [exact HW|exact HH]].
      apply Hno. intros [Hpos _]. revert Hpos. vm_compute. discriminate.
Defined.

(** X3. In the grid the encoder builds, every pixel has the colour of the
    top-left pixel of its block (the blocks are uniform, which is what the
    decoder's sampling of one pixel per block relies on), and every pixel is
    either the zero colour (alpha 0) or an opaque gray of one of the four
    intensities 0, 64, 128, 192. *)
Theorem X3_encoded_blocks_uniform dnaSequence cfg x y :
  layout_ok cfg (len dnaSequence) ->
  0 <= x < imgWidth cfg -> 0 <= y < imgHeight cfg (len dnaSequence) ->
  exists img,
    dnaToGrid dnaSequence cfg = Ok img /\
    image.At img x y
      = image.At img (x / BlockSize cfg * BlockSize cfg) (y / BlockSize cfg * BlockSize cfg) /\
    (image.At img x y = color.zero \/
     exists g, g ∈ [0; 64; 128; 192] /\ image.At img x y = color.mkRGBA g g g 255).
Proof.
  intros layout Hx Hy. pose proof layout as (Hbs & Hbpr & Hrpb & _).
  destruct (dnaToGrid_pixels dnaSequence cfg layout) as (img & Himg & Hwf & HW & HH & Hpix).
  exists img. split; [exact Himg|].
  set (x0 := x / BlockSize cfg * BlockSize cfg). set (y0 := y / BlockSize cfg * BlockSize cfg).
  assert (Hx0 : 0 <= x0 <= x).
  { subst x0. pose proof (Z.mul_div_le x (BlockSize cfg) Hbs).
    assert (0 <= x / BlockSize cfg) by (apply Z.div_pos; lia). nia. }
  assert (Hy0 : 0 <= y0 <= y).
  { subst y0. pose proof (Z.mul_div_le y (BlockSize cfg) Hbs).
    assert (0 <= y / BlockSize cfg) by (apply Z.div_pos; lia). nia. }
  assert (Hidx : blockIndex cfg x0 y0 = blockIndex cfg x y).
  { unfold blockIndex. subst x0 y0. by rewrite !Z.div_mul by lia. }
  destruct (Hpix x y Hx Hy) as [Hyes Hno].
  destruct (Hpix x0 y0 ltac:(lia) ltac:(lia)) as [Hyes0 Hno0]. rewrite Hidx in Hyes0, Hno0.
  destruct (decide (blockIndex cfg x y ∈ (writes dnaSequence cfg).*1)) as [Hin|Hout].
  - apply list_elem_of_fmap in Hin as ([j r] & Hj & Hin). cbn in Hj. subst j.
    rewrite (Hyes r Hin), (Hyes0 r Hin). split; [reflexivity|]. right. apply grayOf_palette.
  - assert (Hnone : forall r, (blockIndex cfg x y, r) ∉ writes dnaSequence cfg).
    { intros r Hr. apply Hout. apply list_elem_of_fmap. by exists (blockIndex cfg x y, r). }
    rewrite (Hno Hnone), (Hno0 Hnone). split; [reflexivity|by left].
Qed.

Lemma X3_encoded_blocks_uniform_witness :
  exists img,
    dnaToGrid (str "GATTACA") (withLayout 3 2 2 defaultConfig) = Ok img /\
    image.At img 5 4 = image.At img 3 3.
Proof.
  destruct (X3_encoded_blocks_uniform (str "GATTACA") (withLayout 3 2 2 defaultConfig) 5 4)
    as (img & Himg & Huniform & _).
  - unfold layout_ok. vm_compute. repeat split; discriminate || reflexivity.
  - vm_compute. split; [discriminate|reflexivity].
  - vm_compute. split; [discriminate|reflexivity].
  - exists img. split; [exact Himg|exact Huniform].
Defined.

(** ** Decoding what the encoder wrote *)

Lemma groupCount_encoded dnaSequence cfg img :
  layout_ok cfg (len dnaSequence) -> PaddingChar cfg <> [] ->
  dnaToGrid dnaSequence cfg = Ok img ->
  groupCount img cfg = Z.to_nat (numBlocks cfg (len dnaSequence)).
Proof.
  intros layout Hpad Himg.
  destruct (dnaToGrid_decodable dnaSequence cfg img layout Hpad Himg) as (_ & _ & Hrows).
  pose proof layout as (_ & _ & Hrpb & _).
  unfold groupCount. rewrite Hrows. f_equal.
  symmetry. apply Z.div_unique with (RowsPerBlock cfg - 1); lia.
Qed.

(** The symbols of the positions 0, 1, ... of the grid: the sequence, then
    the padding symbol for each absent position. *)
Lemma symbolAt_all dnaSequence cfg n : len dnaSequence <= n ->
  concat (symbolAt dnaSequence cfg <$> seqZ 0 n) =
  dnaSequence ++ concat (replicate (Z.to_nat (n - len dnaSequence))
                                   (utf8.EncodeRune (paddingRune cfg))).
Proof.
  intros Hn. pose proof (len_nonneg dnaSequence).
  replace n with (len dnaSequence + (n - len dnaSequence)) at 1 by lia.
  rewrite seqZ_app, fmap_app, concat_app by lia.
  rewrite Z.add_0_l, symbolAt_suffix. f_equal.
  unfold len. rewrite symbolAt_prefix by lia. by rewrite take_ge by lia.
Qed.

(** X4. For every valid layout (any number of rows per block group), every
    sequence of the four data symbols that is not empty and whose image
    [png.Encode] accepts, and every order of the map visits, encoding and
    then decoding with the same configuration succeeds with enough fuel, and
    writes the symbols of the sequence and one padding symbol for each
    absent position of the final block group, rearranged: nothing is lost or
    invented, only the order can change. *)
Theorem X4_roundtrip_rearranges dnaSequence cfg fuel ord images writer :
  layout_ok cfg (len dnaSequence) -> serialisable cfg (len dnaSequence) ->
  PaddingChar cfg <> [] ->
  Forall isBase dnaSequence -> valid_orders ord ->
  (Z.to_nat (numBlocks cfg (len dnaSequence)) < fuel)%nat ->
  exists img out,
    dnaToPNGGrayscale dnaSequence images cfg = (images ++ [img], Ok ()) /\
    pngToDNAGrayscale fuel ord img writer cfg = Some (writer ++ out, Ok ()) /\
    out ≡ₚ dnaSequence ++
           concat (replicate
                     (Z.to_nat (numBlocks cfg (len dnaSequence) * basesPerBlock cfg
                                - len dnaSequence))
                     (utf8.EncodeRune (paddingRune cfg))).
Proof.
  intros layout Hpng Hpad Hbases Hord Hfuel.
  destruct (layout_bounds _ _ layout (len_nonneg _)) as (Hbpb & Hn & Hnb & [Hlo Hhi] & _).
  pose proof layout as (Hbs & Hbpr & Hrpb & _).
  destruct (dnaToGrid_pixels dnaSequence cfg layout) as (img & Himg & Hwf & _).
  destruct (dnaToGrid_decodable dnaSequence cfg img layout Hpad Himg) as (Hdec & Hcols & Hrows).
  destruct (dnaToPNGGrayscale_encoded dnaSequence images cfg img layout Himg) as [Hyes _].
  destruct Hwf as [_ [HW HH] _ _ _]. fold (image.Width img) (image.Height img) in *.
  eexists img, _. split; [exact (Hyes Hpng)|]. unfold pngToDNAGrayscale.
  rewrite (gridToDNA_encoded dnaSequence cfg img layout Hbases Himg fuel ord Hpad Hord)
    by (by rewrite (groupCount_encoded dnaSequence)).
  split; [reflexivity|].
  rewrite (list_fmap_compose (fun blk => blk.2 * BlocksPerRow cfg + blk.1)
             (symbolAt dnaSequence cfg)).
  pose proof (visitOrder_positions img cfg Hbs ltac:(lia) ltac:(lia) ltac:(lia)) as Hperm.
  rewrite Hcols, Hrows in Hperm.
  rewrite concat_fmap_bind, Hperm, <- concat_fmap_bind.
  rewrite symbolAt_all by (unfold basesPerBlock in *; lia).
  unfold basesPerBlock.
  by replace (numBlocks cfg (len dnaSequence) * RowsPerBlock cfg * BlocksPerRow cfg)
    with (numBlocks cfg (len dnaSequence) * (BlocksPerRow cfg * RowsPerBlock cfg)) by lia.
Qed.

Lemma str_GATTACA_bases : Forall isBase (str "GATTACA").
Proof. unfold isBase. repeat constructor; tauto. Qed.

Lemma X4_roundtrip_rearranges_witness :
  exists img out,
    dnaToPNGGrayscale (str "GATTACA") [] (withLayout 3 2 2 defaultConfig) = ([img], Ok ()) /\
    pngToDNAGrayscale 3 listedOrder img [] (withLayout 3 2 2 defaultConfig)
      = Some (out, Ok ()) /\
    out ≡ₚ str "GATTACAN".
Proof.
  apply (X4_roundtrip_rearranges (str "GATTACA") (withLayout 3 2 2 defaultConfig)
           3 listedOrder [] []).
  - unfold layout_ok. vm_compute. repeat split; discriminate || reflexivity.
  - unfold serialisable. vm_compute. repeat split; reflexivity.
  - discriminate.
  - exact str_GATTACA_bases.
  - exact listedOrder_valid.
  - vm_compute. lia.
Defined.

(** X5. With one row per block group (the default), encoding and then
    decoding a sequence of the four data symbols that is not empty and whose
    image [png.Encode] accepts writes the sequence itself, followed by one
    padding symbol for each absent position of the last row of blocks; when
    the length is a multiple of the blocks per row, exactly the sequence. *)
Theorem X5_roundtrip_single_row dnaSequence cfg fuel ord images writer :
  layout_ok cfg (len dnaSequence) -> serialisable cfg (len dnaSequence) ->
  RowsPerBlock cfg = 1 ->
  PaddingChar cfg <> [] -> Forall isBase dnaSequence ->
  valid_orders ord -> (Z.to_nat (numBlocks cfg (len dnaSequence)) < fuel)%nat ->
  exists img,
    dnaToPNGGrayscale dnaSequence images cfg = (images ++ [img], Ok ()) /\
    pngToDNAGrayscale fuel ord img writer cfg =
      Some (writer ++ dnaSequence ++
            concat (replicate
                      (Z.to_nat (numBlocks cfg (len dnaSequence) * BlocksPerRow cfg
                                 - len dnaSequence))
                      (utf8.EncodeRune (paddingRune cfg))), Ok ()) /\
    (len dnaSequence = numBlocks cfg (len dnaSequence) * BlocksPerRow cfg ->
     pngToDNAGrayscale fuel ord img writer cfg = Some (writer ++ dnaSequence, Ok ())).
Proof.
  intros layout Hpng Hrpb Hpad Hbases Hord Hfuel.
  destruct (roundtrip_single_row dnaSequence cfg fuel ord layout Hrpb Hpad Hbases Hord Hfuel)
    as (img & Himg & Hres & Hexact).
  destruct (dnaToPNGGrayscale_encoded dnaSequence images cfg img layout Himg) as [Hyes _].
  unfold basesPerBlock in *. rewrite Hrpb, Z.mul_1_r in *.
  exists img. split; [exact (Hyes Hpng)|]. unfold pngToDNAGrayscale. rewrite Hres.
  split; [reflexivity|].
  intros Hlen. rewrite <- Hlen, Z.sub_diag. cbn. by rewrite app_nil_r.
Qed.

Lemma X5_roundtrip_single_row_witness :
  exists img,
    dnaToPNGGrayscale (str "GATTACA") [] (withLayout 3 4 1 defaultConfig) = ([img], Ok ()) /\
    pngToDNAGrayscale 3 listedOrder img [] (withLayout 3 4 1 defaultConfig)
      = Some (str "GATTACAN", Ok ()).
Proof.
  destruct (X5_roundtrip_single_row (str "GATTACA") (withLayout 3 4 1 defaultConfig)
              3 listedOrder [] []) as (img & Himg & Hres & _).
  - unfold layout_ok. vm_compute. repeat split; discriminate || reflexivity.
  - unfold serialisable. vm_compute. repeat split; reflexivity.
  - reflexivity.
  - discriminate.
  - exact str_GATTACA_bases.
  - exact listedOrder_valid.
  - vm_compute. lia.
  - exists img. split; [exact Himg|exact Hres].
Defined.

(** ** The order of the map visits, for every tolerance *)

(** X6. Decoding an image gives the same result, and leaves the same bytes in
    the writer, whatever the orders in which the classifications visit the
    map of intensities. *)
Theorem X6_decoding_order_independent fuel ord1 ord2 img writer cfg :
  valid_orders ord1 -> valid_orders ord2 ->
  pngToDNAGrayscale fuel ord1 img writer cfg = pngToDNAGrayscale fuel ord2 img writer cfg.
Proof.
  intros H1 H2. unfold pngToDNAGrayscale.
  by rewrite (gridToDNA_order_indep fuel ord1 ord2).
Qed.

Lemma X6_decoding_order_independent_witness :
  pngToDNAGrayscale 2 listedOrder (pixel1 (color.mkRGBA 70 70 70 255)) [] (withLayout 1 1 1 defaultConfig) =
  pngToDNAGrayscale 2 (fun _ => reverse (map_to_list dnaGrayscaleMap))
    (pixel1 (color.mkRGBA 70 70 70 255)) [] (withLayout 1 1 1 defaultConfig).
Proof.
  apply (X6_decoding_order_independent 2 listedOrder
           (fun _ => reverse (map_to_list dnaGrayscaleMap))).
  - intros k. unfold iteration_order. reflexivity.
  - intros k. unfold iteration_order. apply reverse_Permutation.
Defined.

(** What the loop of the classification leaves for a full visit of the map:
    the least distance to a symbol, and a symbol at that distance. *)
Lemma findClosest_fold order intensity :
  iteration_order dnaGrayscaleMap order -> 0 <= intensity < 256 ->
  exists m b s,
    foldl (closer intensity) (256, 0) order = (m, b) /\
    dnaGrayscaleMap !! b = Some s /\ m = Z.abs (intensity - s) /\ 0 <= m < 256 /\
    (forall base s', dnaGrayscaleMap !! base = Some s' -> m <= Z.abs (intensity - s')).
Proof.
  intros Ho Hi. destruct (foldl _ _ _) as [m b] eqn:E.
  apply closer_fold in E as (Hle & Hall & Hwho);
    [|assumption|by apply iteration_order_range].
  rewrite Forall_forall in Hall.
  assert (HA : (rune "A", 0) ∈ order)
    by (apply (iteration_order_elem _ _ _ Ho), dnaGrayscaleMap_entries; tauto).
  pose proof (Hall _ HA) as HmA. unfold distance in HmA. simpl in HmA.
  destruct Hwho as [[= -> ->]|(s' & Hin' & ->)]; [lia|].
  apply (iteration_order_elem _ _ _ Ho) in Hin'.
  exists (distance intensity s'), b, s'. unfold distance in *.
  split; [reflexivity|]. split; [exact Hin'|]. split; [reflexivity|].
  split; [lia|].
  intros base s Hs. apply (iteration_order_elem _ _ _ Ho) in Hs.
  apply (Hall _ Hs).
Qed.

(** X7. For every tolerance below 32 (half the gap between two neighbouring
    intensities of the map) the classification of an intensity is the same
    for every order of visit of the map: the same symbol, or the same error
    with the same least distance. *)
Theorem X7_classification_deterministic order1 order2 intensity tolerance :
  iteration_order dnaGrayscaleMap order1 ->
  iteration_order dnaGrayscaleMap order2 ->
  0 <= intensity < 256 -> tolerance < 32 ->
  findClosestDNABaseGrayscale order1 intensity tolerance =
  findClosestDNABaseGrayscale order2 intensity tolerance.
Proof.
  intros H1 H2 Hi Ht. unfold findClosestDNABaseGrayscale.
  destruct (findClosest_fold order1 intensity H1 Hi) as (m1 & b1 & s1 & -> & Hs1 & Hm1 & Hr1 & Hmin1).
  destruct (findClosest_fold order2 intensity H2 Hi) as (m2 & b2 & s2 & -> & Hs2 & Hm2 & Hr2 & Hmin2).
  pose proof (Hmin1 _ _ Hs2). pose proof (Hmin2 _ _ Hs1).
  assert (m1 = m2) as <- by lia.
  unfold u8. rewrite Z.mod_small by lia.
  destruct (Z.gtb_spec m1 tolerance); [reflexivity|].
  f_equal. apply dnaGrayscaleMap_entries in Hs1, Hs2.
  destruct Hs1 as [[= -> ->]|[[= -> ->]|[[= -> ->]|[= -> ->]]]];
    destruct Hs2 as [[= -> ->]|[[= -> ->]|[[= -> ->]|[= -> ->]]]];
    first [reflexivity | lia].
Qed.

Lemma X7_classification_deterministic_witness :
  findClosestDNABaseGrayscale (map_to_list dnaGrayscaleMap) 95 31 =
  findClosestDNABaseGrayscale (reverse (map_to_list dnaGrayscaleMap)) 95 31.
Proof.
  apply (X7_classification_deterministic (map_to_list dnaGrayscaleMap)
           (reverse (map_to_list dnaGrayscaleMap)) 95 31).
  - unfold iteration_order. reflexivity.
  - unfold iteration_order. apply reverse_Permutation.
  - lia.
  - lia.
Defined.

(** X8. From the tolerance 32 on the classification depends on the order of
    the visit: the intensity 32 lies at the distance 32 from both A (0) and
    T (64), and the symbol visited first wins the tie. *)
Theorem X8_classification_tie tolerance :
  32 <= tolerance ->
  exists order1 order2,
    iteration_order dnaGrayscaleMap order1 /\
    iteration_order dnaGrayscaleMap order2 /\
    findClosestDNABaseGrayscale order1 32 tolerance = Ok (rune "A") /\
    findClosestDNABaseGrayscale order2 32 tolerance = Ok (rune "T").
Proof.
  intros Ht.
  exists (map_to_list dnaGrayscaleMap),
         [(rune "G", 192); (rune "C", 128); (rune "T", 64); (rune "A", 0)].
  split; [unfold iteration_order; reflexivity|].
  split.
  { unfold iteration_order.
    replace (map_to_list dnaGrayscaleMap)
      with [(rune "G", 192); (rune "C", 128); (rune "A", 0); (rune "T", 64)]
      by (vm_compute; reflexivity).
    do 2 apply perm_skip. apply perm_swap. }
  unfold findClosestDNABaseGrayscale.
  replace (foldl (closer 32) (256, 0) (map_to_list dnaGrayscaleMap))
    with (32, rune "A") by (vm_compute; reflexivity).
  replace (foldl (closer 32) (256, 0)
             [(rune "G", 192); (rune "C", 128); (rune "T", 64); (rune "A", 0)])
    with (32, rune "T") by (vm_compute; reflexivity).
  change (u8 32) with 32.
  destruct (Z.gtb_spec 32 tolerance); [lia|]. done.
Qed.

Lemma X8_classification_tie_witness :
  exists order1 order2,
    iteration_order dnaGrayscaleMap order1 /\
    iteration_order dnaGrayscaleMap order2 /\
    findClosestDNABaseGrayscale order1 32 32 = Ok (rune "A") /\
    findClosestDNABaseGrayscale order2 32 32 = Ok (rune "T").
Proof. apply (X8_classification_tie 32). lia. Defined.

(** ** A decoder configured with zero rows per block group *)

(** X9. The decoder does not validate the rows per block group. With the
    value zero, an otherwise acceptable image of at least one row of blocks
    is never decoded: the outer loop does not advance, and no amount of fuel
    reaches its end. *)
Theorem X9_zero_rows_never_returns fuel ord img writer cfg :
  image.wf img -> 0 < BlockSize cfg ->
  (BlockSize cfg | image.Width img) -> (BlockSize cfg | image.Height img) ->
  0 < image.Height img -> PaddingChar cfg <> [] ->
  RowsPerBlock cfg = 0 ->
  pngToDNAGrayscale fuel ord img writer cfg = None.
Proof.
  intros [_ [HW HH] _ _ _] Hbs Hw Hh Hpos Hpad Hr.
  fold (image.Width img) (image.Height img) in *.
  unfold pngToDNAGrayscale, gridToDNA.
  destruct (Z.leb_spec (BlockSize cfg) 0); [lia|].
  assert (Hne : BlockSize cfg <> 0) by lia.
  fold (image.Width img) (image.Height img).
  unfold irem. rewrite (proj2 (rem_zero_divide _ _ Hne) Hw).
  rewrite (proj2 (rem_zero_divide _ _ Hne) Hh). cbn [negb orb].
  destruct (PaddingChar cfg) as [|c rest]; [done|].
  rewrite groupLoop_zero_rows; [reflexivity|exact Hr|].
  unfold idiv. rewrite quot_div_nonneg by lia.
  pose proof (divide_div_mul _ _ Hbs Hh) as HhE.
  assert (0 < image.Height img / BlockSize cfg) by nia.
  rewrite wrap64_id by (unfold fits64; nia). lia.
Qed.

Lemma X9_zero_rows_never_returns_witness :
  pngToDNAGrayscale 1000 listedOrder (pixel1 (color.mkRGBA 0 0 0 255)) []
    (withLayout 1 1 0 defaultConfig) = None.
Proof.
  apply (X9_zero_rows_never_returns 1000 listedOrder (pixel1 (color.mkRGBA 0 0 0 255)) []
           (withLayout 1 1 0 defaultConfig)).
  - constructor; cbn; try lia; done.
  - simpl. lia.
  - exists 1. reflexivity.
  - exists 1. reflexivity.
  - reflexivity.
  - discriminate.
  - reflexivity.
Defined.

(** ** Sequences the command accepts: [validateDNA] *)

Lemma lor_ge_128 a b : 0 <= a -> 0 <= b -> 128 <= a \/ 128 <= b -> 128 <= Z.lor a b.
Proof.
  intros Ha Hb Hor.
  assert (H0 : 0 <= Z.lor a b) by (apply Z.lor_nonneg; lia).
  pose proof (Z.log2_lor a b Ha Hb) as Hl.
  assert (H7 : 7 <= Z.log2 (Z.lor a b)).
  { destruct Hor as [H|H]; apply Z.log2_le_mono in H; change (Z.log2 128) with 7 in H; lia. }
  destruct (Z.eq_dec (Z.lor a b) 0) as [E|E]; [rewrite E in H7; simpl in H7; lia|].
  change 128 with (2 ^ 7). apply Z.log2_le_pow2; lia.
Qed.

Lemma leading_ok_all s0 s1 : 0 <= s0 < 256 -> 0 <= s1 < 256 -> leading_ok s0 s1 = true.
Proof.
  intros H0 H1.
  assert (H : forallb (fun a => forallb (leading_ok a) (seqZ 0 256)) (seqZ 0 256) = true)
    by (vm_compute; reflexivity).
  pose proof (forall_u8 _ H s0 H0) as H'. cbv beta in H'.
  exact (forall_u8 _ H' s1 H1).
Qed.

(** The rune at the head of a string: the head byte itself when it is below
    128, and a rune of at least 128 otherwise. *)
Lemma DecodeRuneInString_head c t :
  (rune c < 128 /\ utf8.DecodeRuneInString (c :: t) = (rune c, 1%nat)) \/
  (128 <= rune c /\ 128 <= (utf8.DecodeRuneInString (c :: t)).1).
Proof.
  pose proof (rune_range c) as Hc.
  destruct (Z.ltb_spec (rune c) 128) as [Hlt|Hge].
  { left. split; [exact Hlt|]. cbn [utf8.DecodeRuneInString].
    destruct (Z.ltb_spec (rune c) 128); [reflexivity|lia]. }
  right. split; [exact Hge|]. cbn [utf8.DecodeRuneInString].
  destruct (Z.ltb_spec (rune c) 128); [lia|].
  assert (HE : 128 <= utf8.RuneError) by (vm_compute; discriminate).
  destruct ((rune c <? 194) || (244 <? rune c)) eqn:E1; [exact HE|].
  apply orb_false_iff in E1 as [E1a E1b]. apply Z.ltb_ge in E1a, E1b.
  destruct (Z.ltb_spec (rune c) 224) as [H224|H224].
  { destruct t as [|c1 t]; [exact HE|].
    destruct (utf8.between 128 191 (rune c1)) eqn:B1; [|exact HE].
    pose proof (leading_ok_all (rune c) (rune c1) Hc (rune_range c1)) as Hok.
    unfold leading_ok in Hok. apply andb_true_iff in Hok as [Hok _].
    apply andb_true_iff in Hok as [Hok _].
    rewrite B1 in Hok.
    replace (utf8.between 194 223 (rune c)) with true in Hok
      by (symmetry; unfold utf8.between; apply andb_true_iff; split;
          [apply Z.leb_le|apply Z.leb_le]; lia).
    cbn [andb negb orb] in Hok. apply Z.leb_le in Hok.
    cbn [fst]. apply lor_ge_128; [lia| |by left].
    apply Z.land_nonneg. right. lia. }
  destruct (Z.ltb_spec (rune c) 240) as [H240|H240].
  { destruct t as [|c1 [|c2 t]]; [exact HE|exact HE|].
    set (lo := if rune c =? 224 then 160 else 128).
    set (hi := if rune c =? 237 then 159 else 191).
    destruct (utf8.between lo hi (rune c1)) eqn:B1; [|exact HE].
    destruct (utf8.between 128 191 (rune c2)) eqn:B2; [|exact HE].
    pose proof (leading_ok_all (rune c) (rune c1) Hc (rune_range c1)) as Hok.
    unfold leading_ok in Hok. apply andb_true_iff in Hok as [Hok _].
    apply andb_true_iff in Hok as [_ Hok].
    fold lo hi in Hok. rewrite B1 in Hok.
    replace (utf8.between 224 239 (rune c)) with true in Hok
      by (symmetry; unfold utf8.between; apply andb_true_iff; split;
          [apply Z.leb_le|apply Z.leb_le]; lia).
    cbn [andb negb orb] in Hok. apply Z.leb_le in Hok.
    cbn [andb fst]. apply lor_ge_128; [lia| |by left].
    apply Z.land_nonneg. right. lia. }
  destruct t as [|c1 [|c2 [|c3 t]]]; [exact HE|exact HE|exact HE|].
  set (lo := if rune c =? 240 then 144 else 128).
  set (hi := if rune c =? 244 then 143 else 191).
  destruct (utf8.between lo hi (rune c1)) eqn:B1; [|exact HE].
  destruct (utf8.between 128 191 (rune c2)) eqn:B2; [|exact HE].
  destruct (utf8.between 128 191 (rune c3)) eqn:B3; [|exact HE].
  pose proof (leading_ok_all (rune c) (rune c1) Hc (rune_range c1)) as Hok.
  unfold leading_ok in Hok. apply andb_true_iff in Hok as [_ Hok].
  fold lo hi in Hok. rewrite B1 in Hok.
  replace (utf8.between 240 244 (rune c)) with true in Hok
    by (symmetry; unfold utf8.between; apply andb_true_iff; split;
        [apply Z.leb_le|apply Z.leb_le]; lia).
  cbn [andb negb orb] in Hok. apply Z.leb_le in Hok.
  cbn [andb fst].
  assert (Hs2 : 0 <= Z.shiftl (Z.land (rune c2) 63) 6).
  { apply Z.shiftl_nonneg, Z.land_nonneg. right. lia. }
  apply lor_ge_128; [| |left].
  - apply Z.lor_nonneg. split; [lia|exact Hs2].
  - apply Z.land_nonneg. right. lia.
  - apply lor_ge_128; [lia|exact Hs2|by left].
Qed.

Lemma allowed_spec paddingChar c :
  allowed paddingChar c = true <->
  c = rune "A" \/ c = rune "T" \/ c = rune "C" \/ c = rune "G" \/ c = paddingChar.
Proof.
  unfold allowed.
  destruct (Z.eqb_spec c (rune "A")); [cbn; tauto|].
  destruct (Z.eqb_spec c (rune "T")); [cbn; tauto|].
  destruct (Z.eqb_spec c (rune "C")); [cbn; tauto|].
  destruct (Z.eqb_spec c (rune "G")); [cbn; tauto|].
  destruct (Z.eqb_spec c paddingChar); [cbn; tauto|].
  cbn. split; [discriminate|]. tauto.
Qed.

Lemma validateDNA_bytes paddingChar sequence : paddingChar < 128 ->
  forall off,
    forallb (fun '(_, c) => allowed paddingChar c) (utf8.rangeFrom 0 off sequence) = true <->
    Forall (fun c => allowed paddingChar (rune c) = true) sequence.
Proof.
  intros Hpad. induction sequence as [|c t IH]; intros off.
  - cbn. split; [constructor|reflexivity].
  - rewrite Forall_cons. cbn [utf8.rangeFrom].
    destruct (DecodeRuneInString_head c t) as [[Hlt ->]|[Hge Hr]].
    + cbn [Nat.pred forallb]. rewrite andb_true_iff, IH. tauto.
    + destruct (utf8.DecodeRuneInString (c :: t)) as [r w]. cbn [fst] in Hr.
      cbn [forallb].
      assert (Hno : forall v, 128 <= v -> allowed paddingChar v = false).
      { intros v Hv. destruct (allowed paddingChar v) eqn:E; [|reflexivity].
        apply allowed_spec in E. change (rune "A") with 65 in E.
        change (rune "T") with 84 in E. change (rune "C") with 67 in E.
        change (rune "G") with 71 in E. lia. }
      rewrite (Hno r Hr), (Hno (rune c) Hge). cbn. split; [discriminate|].
      intros [? _]. discriminate.
Qed.

(** X10. When the padding symbol is a one-byte character (below 128),
    [validateDNA] accepts a string exactly when every byte of it is A, T, C,
    G or the padding symbol; the symbols are tested in upper case only, and
    every byte of a multi-byte character is refused. *)
Theorem X10_validateDNA_bytes sequence paddingChar :
  paddingChar < 128 ->
  validateDNA sequence paddingChar = true <->
  Forall (fun c => rune c = rune "A" \/ rune c = rune "T" \/ rune c = rune "C" \/
                   rune c = rune "G" \/ rune c = paddingChar) sequence.
Proof.
  intros Hpad. unfold validateDNA, utf8.rangeString.
  fold (allowed paddingChar).
  change (forallb (fun '(_, c) => allowed paddingChar c) (utf8.rangeFrom 0 0 sequence) = true <->
          Forall (fun c => rune c = rune "A" \/ rune c = rune "T" \/ rune c = rune "C" \/
                   rune c = rune "G" \/ rune c = paddingChar) sequence).
  rewrite validateDNA_bytes by assumption.
  apply Forall_proper; [|reflexivity]. intros c. apply allowed_spec.
Qed.

Lemma X10_validateDNA_bytes_witness :
  validateDNA (str "GATTNACA") (rune "N") = true <->
  Forall (fun c => rune c = rune "A" \/ rune c = rune "T" \/ rune c = rune "C" \/
                   rune c = rune "G" \/ rune c = rune "N") (str "GATTNACA").
Proof. apply (X10_validateDNA_bytes (str "GATTNACA") (rune "N")). reflexivity. Defined.

(** ** Symbols the encoder does not tell apart *)

Lemma rangeFrom_same_gray s1 s2 :
  Forall2 (fun c1 c2 => grayOf (rune c1) = grayOf (rune c2)) s1 s2 ->
  utf8.ascii7 s1 -> utf8.ascii7 s2 ->
  forall off,
    Forall2 (fun w1 w2 : Z * Z => w1.1 = w2.1 /\ grayOf w1.2 = grayOf w2.2)
            (utf8.rangeFrom 0 off s1) (utf8.rangeFrom 0 off s2).
Proof.
  induction 1 as [|c1 c2 s1 s2 Hc Hs IH]; intros H1 H2 off; [constructor|].
  apply Forall_cons in H1 as [Hc1 H1]. apply Forall_cons in H2 as [Hc2 H2].
  cbn [utf8.rangeFrom utf8.DecodeRuneInString].
  destruct (Z.ltb_spec (rune c1) 128); [|lia].
  destruct (Z.ltb_spec (rune c2) 128); [|lia].
  cbn [Nat.pred]. constructor; [by split|]. by apply IH.
Qed.

Lemma foldl_paintAt_same_gray cfg ws1 ws2 :
  Forall2 (fun w1 w2 : Z * Z => w1.1 = w2.1 /\ grayOf w1.2 = grayOf w2.2) ws1 ws2 ->
  forall img, foldl (paintAt cfg) img ws1 = foldl (paintAt cfg) img ws2.
Proof.
  induction 1 as [|[j1 r1] [j2 r2] ws1 ws2 [Hj Hg] _ IH]; intros img; [reflexivity|].
  cbn [foldl]. cbn [fst snd] in Hj, Hg. subst j2.
  replace (paintAt cfg img (j1, r2)) with (paintAt cfg img (j1, r1)); [apply IH|].
  unfold paintAt. cbn [fst snd]. by rewrite Hg.
Qed.

(** X11. The image depends on the sequence only through the intensities of
    its symbols. Two sequences of one-byte characters whose symbols have,
    position by position, the same intensity in the map (absent symbols
    counting as 0) are encoded to the same grid; so a symbol outside the map,
    such as an explicit padding symbol, is encoded exactly as the base A. *)
Theorem X11_encoder_collapses_symbols dnaSequence1 dnaSequence2 cfg :
  layout_ok cfg (len dnaSequence1) ->
  utf8.ascii7 dnaSequence1 -> utf8.ascii7 dnaSequence2 ->
  Forall2 (fun c1 c2 => mapIndex dnaGrayscaleMap (rune c1) = mapIndex dnaGrayscaleMap (rune c2))
          dnaSequence1 dnaSequence2 ->
  exists img, dnaToGrid dnaSequence1 cfg = Ok img /\ dnaToGrid dnaSequence2 cfg = Ok img.
Proof.
  intros layout H1 H2 Hsame.
  assert (Hlen : len dnaSequence2 = len dnaSequence1).
  { unfold len. by rewrite (Forall2_length _ _ _ Hsame). }
  assert (layout2 : layout_ok cfg (len dnaSequence2)) by (by rewrite Hlen).
  eexists. split; [by apply dnaToGrid_eq|].
  rewrite (dnaToGrid_eq dnaSequence2 cfg layout2), Hlen. f_equal.
  symmetry. apply foldl_paintAt_same_gray.
  unfold writes. rewrite Hlen. apply Forall2_bind, Forall_Forall2_diag, Forall_forall.
  intros block _. apply Forall2_fmap.
  assert (Hg : Forall2 (fun c1 c2 => grayOf (rune c1) = grayOf (rune c2))
                 (blockSeq dnaSequence1 cfg block) (blockSeq dnaSequence2 cfg block)).
  { unfold blockSeq. apply Forall2_take, Forall2_drop.
    eapply Forall2_impl; [exact Hsame|]. intros c1 c2 E. unfold grayOf. by rewrite E. }
  pose proof (rangeFrom_same_gray _ _ Hg) as HR.
  eapply Forall2_impl; [apply HR|].
  - unfold blockSeq. by apply Forall_take, Forall_drop.
  - unfold blockSeq. by apply Forall_take, Forall_drop.
  - intros [i1 r1] [i2 r2] [Hi Hr]. cbn [fst snd] in *. split; [by rewrite Hi|exact Hr].
Qed.

Lemma X11_encoder_collapses_symbols_witness :
  exists img,
    dnaToGrid (str "GATTNACA") (withLayout 2 4 1 defaultConfig) = Ok img /\
    dnaToGrid (str "GATTAACA") (withLayout 2 4 1 defaultConfig) = Ok img.
Proof.
  apply (X11_encoder_collapses_symbols (str "GATTNACA") (str "GATTAACA")
           (withLayout 2 4 1 defaultConfig)).
  - repeat split; reflexivity.
  - repeat constructor.
  - repeat constructor.
  - repeat constructor.
Defined.

(** * Further properties of the one-time pad (dnacrypt.go) *)

(** ** The one-time pad on bases in either case *)

Lemma anyCaseBase_cases c : anyCaseBase c ->
  c = "A"%char \/ c = "T"%char \/ c = "C"%char \/ c = "G"%char \/
  c = "a"%char \/ c = "t"%char \/ c = "c"%char \/ c = "g"%char.
Proof.
  unfold anyCaseBase. cbn. rewrite !elem_of_cons, elem_of_nil. tauto.
Qed.

Lemma anyCaseBase_upper c : anyCaseBase c -> isBase (upperBase c).
Proof.
  intros H. apply anyCaseBase_cases in H. unfold isBase.
  destruct H as [-> | [-> | [-> | [-> | [-> | [-> | [-> | ->]]]]]]]; vm_compute; tauto.
Qed.

Lemma isBase_anyCase c : isBase c -> anyCaseBase c /\ upperBase c = c.
Proof.
  unfold isBase, anyCaseBase.
  intros [-> | [-> | [-> | ->]]]; (split; [cbn; set_solver|reflexivity]).
Qed.

Lemma rune_inj c1 c2 : rune c1 = rune c2 -> c1 = c2.
Proof. intros H. by rewrite <- (byte_rune c1), <- (byte_rune c2), H. Qed.

(** The conversion to two bits does not see the case, and rejects exactly
    the bytes that are not a base. *)
Lemma dnaBaseToBinary_upper c :
  dnaBaseToBinary (rune (upperBase c)) = dnaBaseToBinary (rune c).
Proof.
  unfold upperBase.
  destruct (Z.eqb_spec (rune c) (rune "a")) as [E|_]; [apply rune_inj in E; by subst|].
  destruct (Z.eqb_spec (rune c) (rune "t")) as [E|_]; [apply rune_inj in E; by subst|].
  destruct (Z.eqb_spec (rune c) (rune "c")) as [E|_]; [apply rune_inj in E; by subst|].
  destruct (Z.eqb_spec (rune c) (rune "g")) as [E|_]; [apply rune_inj in E; by subst|].
  reflexivity.
Qed.

Lemma dnaBaseToBinary_invalid c : ~ anyCaseBase c ->
  dnaBaseToBinary (rune c) = Err (InvalidBase (rune c)).
Proof.
  intros Hc. unfold dnaBaseToBinary.
  assert (Hne : forall d : ascii, d ∈ str "ATCGatcg" -> (rune c =? rune d) = false).
  { intros d Hd. apply Z.eqb_neq. intros E. apply rune_inj in E. by subst. }
  rewrite !Hne by (cbn; set_solver). reflexivity.
Qed.

Lemma dnaBaseToBinary_valid c : anyCaseBase c ->
  exists v, dnaBaseToBinary (rune c) = Ok v /\ 0 <= v < 4.
Proof.
  intros H. apply anyCaseBase_cases in H.
  destruct H as [-> | [-> | [-> | [-> | [-> | [-> | [-> | ->]]]]]]];
    eexists; (split; [vm_compute; reflexivity|lia]).
Qed.

Lemma index_fmap (f : ascii -> ascii) s i : index (f <$> s) i = (c ← index s i; Ok (f c)).
Proof.
  unfold index. destruct (i <? 0); [reflexivity|].
  rewrite list_lookup_fmap. by destruct (s !! Z.to_nat i).
Qed.

(** The loop of [xorDNAStrings]. *)
Lemma xorDNAStrings_loop dna1 dna2 :
  xorDNAStrings dna1 dna2 =
    if negb (len dna1 =? len dna2)
    then Err (InvalidSequence "DNA strings must have the same length")
    else foldl (xorStep dna1 dna2) (Ok []) (seqZ 0 (len dna1)).
Proof. reflexivity. Qed.

Lemma xorStep_failed dna1 dna2 l : forall acc,
  (forall sb, acc <> Ok sb) -> foldl (xorStep dna1 dna2) acc l = acc.
Proof.
  induction l as [|i l IH]; intros acc Hacc; [reflexivity|].
  cbn [foldl]. destruct acc as [sb|e|]; [by destruct (Hacc sb)| |]; by apply IH.
Qed.

Lemma xorDNAStrings_upper dna1 dna2 :
  xorDNAStrings (upperBase <$> dna1) (upperBase <$> dna2) = xorDNAStrings dna1 dna2.
Proof.
  rewrite !xorDNAStrings_loop. unfold len. rewrite !length_fmap.
  destruct (negb _); [reflexivity|].
  generalize (Ok (T:=list ascii) []). generalize (seqZ 0 (Z.of_nat (length dna1))).
  intros l. induction l as [|i l IH]; intros acc; [reflexivity|].
  cbn [foldl]. rewrite <- IH. f_equal.
  destruct acc as [sb| |]; try reflexivity. unfold xorStep. cbn [mbind outcome_bind].
  rewrite !index_fmap.
  destruct (index dna1 i) as [c1| |]; cbn [mbind outcome_bind]; try reflexivity.
  rewrite dnaBaseToBinary_upper.
  destruct (located 1 i (dnaBaseToBinary (rune c1))) as [b1| |];
    cbn [mbind outcome_bind]; try reflexivity.
  destruct (index dna2 i) as [c2| |]; cbn [mbind outcome_bind]; try reflexivity.
  by rewrite dnaBaseToBinary_upper.
Qed.

(** Each step of the loop that succeeds appends one upper-case base. *)
Lemma xorStep_Ok dna1 dna2 sb i out :
  xorStep dna1 dna2 (Ok sb) i = Ok out -> exists c, isBase c /\ out = sb ++ [c].
Proof.
  unfold xorStep. cbn [mbind outcome_bind]. intros H.
  apply bind_Ok in H as (c1 & _ & H). apply bind_Ok in H as (b1 & _ & H).
  apply bind_Ok in H as (c2 & _ & H). apply bind_Ok in H as (b2 & _ & H).
  cbn zeta in H. apply bind_Ok in H as (r & Hr & [= <-]).
  unfold binaryToDNABase in Hr. unfold isBase.
  destruct (Z.land (Z.lxor b1 b2) 3 =? 0); [injection Hr as <-; exists "A"%char; tauto|].
  destruct (Z.land (Z.lxor b1 b2) 3 =? 1); [injection Hr as <-; exists "T"%char; tauto|].
  destruct (Z.land (Z.lxor b1 b2) 3 =? 2); [injection Hr as <-; exists "C"%char; tauto|].
  destruct (Z.land (Z.lxor b1 b2) 3 =? 3); [injection Hr as <-; exists "G"%char; tauto|].
  discriminate.
Qed.

Lemma xorStep_output dna1 dna2 l : forall sb out,
  foldl (xorStep dna1 dna2) (Ok sb) l = Ok out ->
  exists bases, out = sb ++ bases /\ Forall isBase bases /\ length bases = length l.
Proof.
  induction l as [|i l IH]; intros sb out H.
  - injection H as <-. exists []. by rewrite app_nil_r.
  - cbn [foldl] in H.
    destruct (xorStep dna1 dna2 (Ok sb) i) as [sb'|e|] eqn:E.
    + apply xorStep_Ok in E as (c & Hc & ->).
      apply IH in H as (bases & -> & Hb & Hl). exists (c :: bases).
      rewrite <- app_assoc. split; [reflexivity|]. split; [by constructor|]. simpl. lia.
    + rewrite xorStep_failed in H by done. discriminate.
    + rewrite xorStep_failed in H by done. discriminate.
Qed.

(** X12. [xorDNAStrings] does not see the case of its operands: replacing
    every base by its upper-case form changes neither the result nor the
    error, whatever the operands hold. What it returns is written in upper
    case, and has the length of the operands. *)
Theorem X12_xor_ignores_case dna1 dna2 :
  xorDNAStrings (upperBase <$> dna1) (upperBase <$> dna2) = xorDNAStrings dna1 dna2 /\
  forall out, xorDNAStrings dna1 dna2 = Ok out ->
    Forall isBase out /\ length out = length dna1 /\ length out = length dna2.
Proof.
  split; [apply xorDNAStrings_upper|].
  intros out H. rewrite xorDNAStrings_loop in H.
  destruct (Z.eqb_spec (len dna1) (len dna2)) as [Hlen|]; [|discriminate].
  cbn [negb] in H. apply xorStep_output in H as (bases & -> & Hb & Hl).
  rewrite length_seqZ in Hl. unfold len in *. cbn [app]. split; [exact Hb|]. lia.
Qed.

(** On two strings of bases in either case, of the same length,
    [xorDNAStrings] returns the base-wise exclusive or, in upper case. *)
Lemma xorDNAStrings_anyCase dna1 dna2 :
  Forall anyCaseBase dna1 -> Forall anyCaseBase dna2 -> length dna1 = length dna2 ->
  xorDNAStrings dna1 dna2 = Ok (zip_with xorBase (upperBase <$> dna1) (upperBase <$> dna2)).
Proof.
  intros H1 H2 Hlen.
  rewrite <- xorDNAStrings_upper. apply xorDNAStrings_bases.
  - apply Forall_fmap. eapply Forall_impl; [exact H1|]. apply anyCaseBase_upper.
  - apply Forall_fmap. eapply Forall_impl; [exact H2|]. apply anyCaseBase_upper.
  - by rewrite !length_fmap.
Qed.

Lemma xorBase_algebra c1 c2 : isBase c1 -> isBase c2 ->
  xorBase c1 c2 = xorBase c2 c1 /\ xorBase c1 c1 = "A"%char /\ xorBase c1 "A" = c1.
Proof.
  unfold isBase.
  intros [-> | [-> | [-> | ->]]] [-> | [-> | [-> | ->]]]; vm_compute; tauto.
Qed.

(** X13. On strings of bases in either case [xorDNAStrings] is commutative;
    a string combined with itself gives a string of A, and a key of A
    returns the other operand unchanged (in upper case): such a key
    encrypts nothing. *)
Theorem X13_xor_algebra dna1 dna2 :
  Forall anyCaseBase dna1 -> Forall anyCaseBase dna2 -> length dna1 = length dna2 ->
  xorDNAStrings dna1 dna2 = xorDNAStrings dna2 dna1 /\
  xorDNAStrings dna1 dna1 = Ok (replicate (length dna1) "A"%char) /\
  xorDNAStrings dna1 (replicate (length dna1) "A"%char) = Ok (upperBase <$> dna1).
Proof.
  intros H1 H2 Hlen.
  assert (HA : Forall anyCaseBase (replicate (length dna1) "A"%char)).
  { apply Forall_replicate. unfold anyCaseBase. cbn. set_solver. }
  rewrite (xorDNAStrings_anyCase dna1 dna2), (xorDNAStrings_anyCase dna2 dna1),
    (xorDNAStrings_anyCase dna1 dna1), (xorDNAStrings_anyCase dna1 (replicate _ _))
    by (try assumption; try done; by rewrite length_replicate).
  clear HA. revert dna2 H2 Hlen.
  induction H1 as [|c1 dna1 Hc1 H1 IH]; intros [|c2 dna2] H2 Hlen; try discriminate.
  { repeat split. }
  apply Forall_cons in H2 as [Hc2 H2]. injection Hlen as Hlen.
  destruct (IH dna2 H2 Hlen) as (IHa & IHb & IHc).
  apply anyCaseBase_upper in Hc1, Hc2.
  destruct (xorBase_algebra _ _ Hc1 Hc2) as (Ea & Eb & Ec).
  cbn [fmap list_fmap zip_with length replicate].
  injection IHa as IHa. injection IHb as IHb. injection IHc as IHc.
  change (upperBase "A") with "A"%char.
  repeat split; f_equal; f_equal; assumption.
Qed.

Lemma X13_xor_algebra_witness :
  xorDNAStrings (str "GaTtaCA") (str "cATGgta") = xorDNAStrings (str "cATGgta") (str "GaTtaCA") /\
  xorDNAStrings (str "GaTtaCA") (str "GaTtaCA") = Ok (replicate 7 "A"%char) /\
  xorDNAStrings (str "GaTtaCA") (replicate 7 "A"%char) = Ok (upperBase <$> str "GaTtaCA").
Proof.
  apply (X13_xor_algebra (str "GaTtaCA") (str "cATGgta")).
  - repeat constructor; cbn; set_solver.
  - repeat constructor; cbn; set_solver.
  - reflexivity.
Defined.

(** ** When [xorDNAStrings] fails *)

(** [binaryToDNABase] never fails: its error branch cannot be reached. *)
Lemma binaryToDNABase_total val : exists c, isBase c /\ binaryToDNABase val = Ok (rune c).
Proof.
  unfold binaryToDNABase, isBase. change 3 with (Z.ones 2).
  rewrite Z.land_ones by lia. pose proof (Z.mod_pos_bound val (2 ^ 2) ltac:(lia)) as Hm.
  destruct (Z.eqb_spec (val mod 2 ^ 2) 0); [exists "A"%char; tauto|].
  destruct (Z.eqb_spec (val mod 2 ^ 2) 1); [exists "T"%char; tauto|].
  destruct (Z.eqb_spec (val mod 2 ^ 2) 2); [exists "C"%char; tauto|].
  destruct (Z.eqb_spec (val mod 2 ^ 2) (Z.ones 2)); [exists "G"%char; tauto|].
  change (Z.ones 2) with 3 in *. change (2 ^ 2) with 4 in *. lia.
Qed.

Lemma index_lookup s (i : nat) : index s (Z.of_nat i) =
  match s !! i with Some c => Ok c | None => Panic end.
Proof. unfold index. destruct (Z.ltb_spec (Z.of_nat i) 0); [lia|]. by rewrite Nat2Z.id. Qed.

(** One step of the loop at a position both operands have. *)
Lemma xorStep_at dna1 dna2 sb (i : nat) c1 c2 :
  dna1 !! i = Some c1 -> dna2 !! i = Some c2 ->
  xorStep dna1 dna2 (Ok sb) (Z.of_nat i) =
    if decide (anyCaseBase c1) then
      if decide (anyCaseBase c2) then Ok (sb ++ [xorBase c1 c2])
      else Err (InvalidBaseAt 2 (Z.of_nat i) (InvalidBase (rune c2)))
    else Err (InvalidBaseAt 1 (Z.of_nat i) (InvalidBase (rune c1))).
Proof.
  intros H1 H2. unfold xorStep. cbn [mbind outcome_bind].
  rewrite !index_lookup, H1, H2. cbn [mbind outcome_bind].
  destruct (decide (anyCaseBase c1)) as [V1|V1];
    [|by rewrite (dnaBaseToBinary_invalid c1 V1)].
  destruct (dnaBaseToBinary_valid c1 V1) as (v1 & E1 & _). rewrite E1.
  cbn [located mbind outcome_bind].
  destruct (decide (anyCaseBase c2)) as [V2|V2];
    [|by rewrite (dnaBaseToBinary_invalid c2 V2)].
  destruct (dnaBaseToBinary_valid c2 V2) as (v2 & E2 & _). rewrite E2.
  cbn [located mbind outcome_bind].
  destruct (binaryToDNABase_total (Z.lxor v1 v2)) as (c & Hc & Ec). rewrite Ec.
  cbn [mbind outcome_bind].
  destruct (isBase_mapped c Hc) as [Hlt _]. rewrite (EncodeRune_ascii7 c Hlt).
  unfold xorBase. rewrite E1, E2, Ec. by rewrite byte_rune.
Qed.

(** X14. [xorDNAStrings] succeeds exactly when its operands have the same
    length and hold nothing but bases, in either case. The conversion back
    from two bits never fails. *)
Theorem X14_xor_succeeds_iff dna1 dna2 :
  (exists out, xorDNAStrings dna1 dna2 = Ok out) <->
  length dna1 = length dna2 /\ Forall anyCaseBase dna1 /\ Forall anyCaseBase dna2.
Proof.
  split.
  - intros [out H]. rewrite xorDNAStrings_loop in H.
    destruct (Z.eqb_spec (len dna1) (len dna2)) as [Hlen|]; [|discriminate].
    cbn [negb] in H. unfold len in Hlen. apply Nat2Z.inj in Hlen. split; [exact Hlen|].
    assert (Hall : forall n sb, (n <= length dna1)%nat ->
              foldl (xorStep dna1 dna2) (Ok []) (seqZ 0 (Z.of_nat n)) = Ok sb ->
              Forall anyCaseBase (take n dna1) /\ Forall anyCaseBase (take n dna2)).
    { induction n as [|n IH]; intros sb Hn Hn'; [by rewrite !take_0|].
      rewrite seqZ_S, foldl_app in Hn'. cbn [foldl] in Hn'. rewrite Z.add_0_l in Hn'.
      destruct (foldl (xorStep dna1 dna2) (Ok []) (seqZ 0 (Z.of_nat n))) as [sb'|e|] eqn:E;
        [|discriminate|discriminate].
      destruct (IH sb' ltac:(lia) eq_refl) as [IH1 IH2].
      destruct (lookup_lt_is_Some_2 dna1 n ltac:(lia)) as [c1 Hc1].
      destruct (lookup_lt_is_Some_2 dna2 n ltac:(lia)) as [c2 Hc2].
      rewrite (xorStep_at dna1 dna2 sb' n c1 c2 Hc1 Hc2) in Hn'.
      destruct (decide (anyCaseBase c1)); [|discriminate].
      destruct (decide (anyCaseBase c2)); [|discriminate].
      rewrite (take_S_r dna1 n c1), (take_S_r dna2 n c2) by assumption.
      split; apply Forall_app; split; try assumption; by constructor. }
    unfold len in H. destruct (Hall (length dna1) out ltac:(lia) H) as [H1 H2].
    rewrite take_ge in H1 by lia. rewrite take_ge in H2 by lia. by split.
  - intros (Hlen & H1 & H2). eexists. by apply xorDNAStrings_anyCase.
Qed.

(** X15. When the operands have the same length, the error of
    [xorDNAStrings] names the first position at which one of them holds a
    byte that is not a base, the operand (the first one when both are at
    fault), and the byte. *)
Theorem X15_xor_first_invalid dna1 dna2 (i : nat) c1 c2 :
  length dna1 = length dna2 ->
  Forall anyCaseBase (take i dna1) -> Forall anyCaseBase (take i dna2) ->
  dna1 !! i = Some c1 -> dna2 !! i = Some c2 ->
  ~ (anyCaseBase c1 /\ anyCaseBase c2) ->
  xorDNAStrings dna1 dna2 =
    Err (if decide (anyCaseBase c1)
         then InvalidBaseAt 2 (Z.of_nat i) (InvalidBase (rune c2))
         else InvalidBaseAt 1 (Z.of_nat i) (InvalidBase (rune c1))).
Proof.
  intros Hlen H1 H2 Hc1 Hc2 Hbad. rewrite xorDNAStrings_loop.
  unfold len. rewrite Hlen, Z.eqb_refl. cbn [negb]. rewrite <- Hlen.
  pose proof (lookup_lt_Some _ _ _ Hc1) as Hi.
  replace (Z.of_nat (length dna1))
    with (Z.of_nat i + (1 + Z.of_nat (length dna1 - S i))) by lia.
  rewrite seqZ_app, foldl_app by lia.
  assert (Hpre : forall n, (n <= i)%nat ->
            exists sb, foldl (xorStep dna1 dna2) (Ok []) (seqZ 0 (Z.of_nat n)) = Ok sb).
  { induction n as [|n IH]; intros Hn; [by exists []|].
    destruct (IH ltac:(lia)) as [sb E].
    rewrite seqZ_S, foldl_app, E. cbn [foldl]. rewrite Z.add_0_l.
    destruct (lookup_lt_is_Some_2 dna1 n ltac:(lia)) as [d1 Hd1].
    destruct (lookup_lt_is_Some_2 dna2 n ltac:(lia)) as [d2 Hd2].
    rewrite (xorStep_at dna1 dna2 sb n d1 d2 Hd1 Hd2).
    assert (V1 : anyCaseBase d1).
    { apply (proj1 (Forall_lookup _ _) H1 n). rewrite lookup_take_lt by lia. exact Hd1. }
    assert (V2 : anyCaseBase d2).
    { apply (proj1 (Forall_lookup _ _) H2 n). rewrite lookup_take_lt by lia. exact Hd2. }
    rewrite (decide_True _ _ V1), (decide_True _ _ V2). by eexists. }
  destruct (Hpre i ltac:(lia)) as [sb ->].
  rewrite Z.add_0_l, (seqZ_cons (Z.of_nat i)) by lia. cbn [foldl].
  rewrite (xorStep_at dna1 dna2 sb i c1 c2 Hc1 Hc2).
  destruct (decide (anyCaseBase c1)) as [V1|V1].
  - destruct (decide (anyCaseBase c2)) as [V2|V2]; [tauto|].
    by apply xorStep_failed.
  - by apply xorStep_failed.
Qed.

Lemma X15_xor_first_invalid_witness :
  xorDNAStrings (str "GAxTA") (str "TTNCA") =
    Err (InvalidBaseAt 1 2 (InvalidBase (rune "x"))) /\
  xorDNAStrings (str "GATTA") (str "TTNCA") =
    Err (InvalidBaseAt 2 2 (InvalidBase (rune "N"))).
Proof.
  split.
  - apply (X15_xor_first_invalid (str "GAxTA") (str "TTNCA") 2 "x" "N").
    + reflexivity.
    + repeat constructor; cbn; set_solver.
    + repeat constructor; cbn; set_solver.
    + reflexivity.
    + reflexivity.
    + intros [H _]. apply anyCaseBase_cases in H. repeat destruct H as [H|H]; discriminate.
  - apply (X15_xor_first_invalid (str "GATTA") (str "TTNCA") 2 "T" "N").
    + reflexivity.
    + repeat constructor; cbn; set_solver.
    + repeat constructor; cbn; set_solver.
    + reflexivity.
    + reflexivity.
    + intros [_ H]. apply anyCaseBase_cases in H. repeat destruct H as [H|H]; discriminate.
Defined.

(** ** [dnaToText] on every input *)

Lemma dnaToByte_loop dna :
  dnaToByte dna =
    if negb (len dna =? 4) then Err (InvalidSequence "DNA sequence must be 4 bases long")
    else foldl dnaToByteStep (Ok 0) (utf8.rangeString dna).
Proof. reflexivity. Qed.

Lemma dnaToText_loop dna :
  dnaToText dna =
    if negb (irem (len dna) 4 =? 0)
    then Err (InvalidSequence "DNA sequence length must be a multiple of 4")
    else foldl (dnaToTextStep dna) (Ok []) ((fun k => 4 * k) <$> seqZ 0 ((len dna + 3) / 4)).
Proof. reflexivity. Qed.

Lemma dnaToByteStep_failed l : forall acc,
  (forall b, acc <> Ok b) -> foldl dnaToByteStep acc l = acc.
Proof.
  induction l as [|i l IH]; intros acc Hacc; [reflexivity|].
  cbn [foldl]. destruct acc as [b|e|]; [by destruct (Hacc b)| |]; by apply IH.
Qed.

Lemma dnaToTextStep_failed dna l : forall acc,
  (forall sb, acc <> Ok sb) -> foldl (dnaToTextStep dna) acc l = acc.
Proof.
  induction l as [|i l IH]; intros acc Hacc; [reflexivity|].
  cbn [foldl]. destruct acc as [b|e|]; [by destruct (Hacc b)| |]; by apply IH.
Qed.

Lemma dnaBaseToBinary_high r : 128 <= r -> dnaBaseToBinary r = Err (InvalidBase r).
Proof.
  intros Hr. unfold dnaBaseToBinary.
  assert (Hne : forall d : ascii, rune d < 128 -> (r =? rune d) = false)
    by (intros d Hd; apply Z.eqb_neq; lia).
  rewrite !Hne by (vm_compute; reflexivity). reflexivity.
Qed.

(** A segment holding a byte that is not a base is refused, with the first
    rune at fault. *)
Lemma dnaToByteStep_invalid s : ~ Forall anyCaseBase s ->
  forall off b, exists r, foldl dnaToByteStep (Ok b) (utf8.rangeFrom 0 off s) = Err (InvalidBase r).
Proof.
  induction s as [|c t IH]; intros Hbad off b; [destruct Hbad; constructor|].
  cbn [utf8.rangeFrom].
  destruct (DecodeRuneInString_head c t) as [[Hlt ->]|[Hge Hr]].
  - cbn [Nat.pred foldl]. change (dnaToByteStep (Ok b) (off, rune c))
      with (val ← dnaBaseToBinary (rune c); Ok (u8 (Z.lor (u8 (Z.shiftl b 2)) val))).
    destruct (decide (anyCaseBase c)) as [V|V].
    + destruct (dnaBaseToBinary_valid c V) as (v & -> & _). cbn [mbind outcome_bind].
      apply IH. intros Ht. apply Hbad. by constructor.
    + rewrite (dnaBaseToBinary_invalid c V). cbn [mbind outcome_bind].
      exists (rune c). by apply dnaToByteStep_failed.
  - destruct (utf8.DecodeRuneInString (c :: t)) as [r w]. cbn [fst] in Hr. cbn [foldl].
    change (dnaToByteStep (Ok b) (off, r))
      with (val ← dnaBaseToBinary r; Ok (u8 (Z.lor (u8 (Z.shiftl b 2)) val))).
    rewrite (dnaBaseToBinary_high r Hr). cbn [mbind outcome_bind].
    exists r. by apply dnaToByteStep_failed.
Qed.

Lemma dnaToByte_invalid seg : length seg = 4%nat -> ~ Forall anyCaseBase seg ->
  exists r, dnaToByte seg = Err (InvalidBase r).
Proof.
  intros Hl Hbad. rewrite dnaToByte_loop. unfold len. rewrite Hl. cbn [Z.eqb negb Z.of_nat].
  change (Z.pos (Pos.of_succ_nat 3) =? 4) with true. cbn [negb].
  by apply dnaToByteStep_invalid.
Qed.

(** A segment of four bases in either case is the form of a byte. *)
Lemma dnaToByte_anyCase seg : length seg = 4%nat -> Forall anyCaseBase seg ->
  exists b, dnaToByte seg = Ok b /\ byteToDNA b = upperBase <$> seg /\ 0 <= b < 256.
Proof.
  intros Hl Hv.
  destruct seg as [|c1 [|c2 [|c3 [|c4 [|]]]]]; try discriminate.
  apply Forall_cons in Hv as [H1 Hv]. apply Forall_cons in Hv as [H2 Hv].
  apply Forall_cons in Hv as [H3 Hv]. apply Forall_cons in Hv as [H4 _].
  apply anyCaseBase_cases in H1, H2, H3, H4.
  destruct H1 as [-> | [-> | [-> | [-> | [-> | [-> | [-> | ->]]]]]]];
  destruct H2 as [-> | [-> | [-> | [-> | [-> | [-> | [-> | ->]]]]]]];
  destruct H3 as [-> | [-> | [-> | [-> | [-> | [-> | [-> | ->]]]]]]];
  destruct H4 as [-> | [-> | [-> | [-> | [-> | [-> | [-> | ->]]]]]]];
  (eexists; split; [vm_compute; reflexivity|split; [vm_compute; reflexivity|lia]]).
Qed.

Lemma rune_byte b : 0 <= b < 256 -> rune (byte b) = b.
Proof.
  intros Hb. unfold rune, byte, u8. rewrite Z.mod_small by lia.
  rewrite N_ascii_embedding; [lia|]. change 256%N with (Z.to_N 256). lia.
Qed.

(** The loop of [dnaToText] takes the segments one after the other. *)
Lemma dnaToTextStep_segments dna : len dna < 2 ^ 62 ->
  forall n m text, (4 * (m + n) <= length dna)%nat ->
    foldl (dnaToTextStep dna) (Ok text) ((fun k => 4 * k) <$> seqZ (Z.of_nat m) (Z.of_nat n))
    = decodeSegments n (drop (4 * m) dna) text.
Proof.
  intros Hfit. induction n as [|n IH]; intros m text Hle; [reflexivity|].
  rewrite seqZ_cons by lia. cbn [fmap list_fmap foldl decodeSegments].
  replace (Z.succ (Z.of_nat m)) with (Z.of_nat (S m)) by lia.
  replace (Z.pred (Z.of_nat (S n))) with (Z.of_nat n) by lia.
  assert (Hslice : slice dna (4 * Z.of_nat m) (iadd (4 * Z.of_nat m) 4)
                   = Ok (take 4 (drop (4 * m) dna))).
  { unfold slice, iadd, len in *. rewrite wrap64_id by (unfold fits64; lia).
    destruct (Z.leb_spec 0 (4 * Z.of_nat m)); [|lia].
    destruct (Z.leb_spec (4 * Z.of_nat m) (4 * Z.of_nat m + 4)); [|lia].
    destruct (Z.leb_spec (4 * Z.of_nat m + 4) (Z.of_nat (length dna))); [|lia].
    cbn [andb]. do 2 f_equal; [|f_equal]; lia. }
  unfold dnaToTextStep at 2. cbn [mbind outcome_bind]. rewrite Hslice.
  cbn [mbind outcome_bind].
  destruct (dnaToByte (take 4 (drop (4 * m) dna))) as [b|e|]; cbn [mbind outcome_bind].
  - rewrite IH by lia. rewrite drop_drop. do 2 f_equal. lia.
  - by apply dnaToTextStep_failed.
  - by apply dnaToTextStep_failed.
Qed.

Lemma dnaToText_segments dna (n : nat) : len dna < 2 ^ 62 -> length dna = (4 * n)%nat ->
  dnaToText dna = decodeSegments n dna [].
Proof.
  intros Hfit Hlen. rewrite dnaToText_loop. unfold irem, len. rewrite Hlen.
  replace (Z.of_nat (4 * n)) with (Z.of_nat n * 4) by lia.
  rewrite Z.rem_mul by lia. cbn [Z.eqb negb].
  replace ((Z.of_nat n * 4 + 3) / 4) with (Z.of_nat n) by (apply Z.div_unique with 3; lia).
  apply (dnaToTextStep_segments dna Hfit n 0 []). lia.
Qed.

Lemma decodeSegments_valid : forall n dna text,
  length dna = (4 * n)%nat -> Forall anyCaseBase dna ->
  exists text', decodeSegments n dna text = Ok (text ++ text') /\
                textToDNA text' = upperBase <$> dna /\ length text' = n.
Proof.
  induction n as [|n IH]; intros dna text Hlen Hv.
  - destruct dna; [|discriminate]. exists []. by rewrite app_nil_r.
  - cbn [decodeSegments]. rewrite <- (take_drop 4 dna) in Hv.
    apply Forall_app in Hv as [Hv1 Hv2].
    destruct (dnaToByte_anyCase (take 4 dna)) as (b & -> & Hb & Hr);
      [rewrite length_take; lia|assumption|].
    cbn [mbind outcome_bind].
    destruct (IH (drop 4 dna) (text ++ [byte b])) as (text' & -> & Ht & Hl);
      [rewrite length_drop; lia|assumption|].
    exists (byte b :: text'). rewrite <- app_assoc. split; [reflexivity|].
    split; [|simpl; lia].
    rewrite textToDNA_flat in *. cbn [mbind list_bind]. rewrite rune_byte by assumption.
    rewrite Hb, Ht, <- fmap_app. by rewrite take_drop.
Qed.

Lemma decodeSegments_invalid : forall n dna text,
  length dna = (4 * n)%nat -> ~ Forall anyCaseBase dna ->
  exists r, decodeSegments n dna text = Err (InvalidBase r).
Proof.
  induction n as [|n IH]; intros dna text Hlen Hbad.
  - destruct dna; [|discriminate]. destruct Hbad. constructor.
  - cbn [decodeSegments].
    destruct (decide (Forall anyCaseBase (take 4 dna))) as [Hv|Hv].
    + destruct (dnaToByte_anyCase (take 4 dna)) as (b & -> & _);
        [rewrite length_take; lia|assumption|].
      cbn [mbind outcome_bind]. apply IH; [rewrite length_drop; lia|].
      intros Hv2. apply Hbad. rewrite <- (take_drop 4 dna). by apply Forall_app.
    + destruct (dnaToByte_invalid (take 4 dna)) as (r & ->);
        [rewrite length_take; lia|assumption|].
      by exists r.
Qed.

(** X16. On a string of bases in either case whose length is a multiple of
    four, [dnaToText] succeeds, and the text it returns is the one whose DNA
    form is the string in upper case: [textToDNA] inverts [dnaToText] up to
    the case. *)
Theorem X16_dnaToText_inverse dna :
  len dna < 2 ^ 62 -> (4 | len dna) -> Forall anyCaseBase dna ->
  exists text,
    dnaToText dna = Ok text /\ textToDNA text = upperBase <$> dna /\
    4 * len text = len dna.
Proof.
  intros Hfit [k Hk] Hv. pose proof (len_nonneg dna) as Hn.
  assert (Hlen : length dna = (4 * Z.to_nat k)%nat) by (unfold len in *; lia).
  rewrite (dnaToText_segments dna (Z.to_nat k) Hfit Hlen).
  destruct (decodeSegments_valid (Z.to_nat k) dna [] Hlen Hv) as (text & -> & Ht & Hl).
  exists text. split; [reflexivity|]. split; [exact Ht|]. unfold len in *. lia.
Qed.

Lemma X16_dnaToText_inverse_witness :
  exists text,
    dnaToText (str "TcAgtCGA") = Ok text /\ textToDNA text = upperBase <$> str "TcAgtCGA" /\
    4 * len text = len (str "TcAgtCGA").
Proof.
  apply (X16_dnaToText_inverse (str "TcAgtCGA")).
  - reflexivity.
  - exists 2. reflexivity.
  - repeat constructor; by apply (bool_decide_unpack _).
Defined.

(** X17. [dnaToText] refuses every other string: one whose length is not a
    multiple of four, with [InvalidSequence]; and one of such a length that
    holds a byte that is not a base, with the error [InvalidBase] of
    [dnaToByte], unwrapped. It never panics. *)
Theorem X17_dnaToText_rejects dna :
  len dna < 2 ^ 62 -> ~ ((4 | len dna) /\ Forall anyCaseBase dna) ->
  (~ (4 | len dna) /\
   dnaToText dna = Err (InvalidSequence "DNA sequence length must be a multiple of 4")) \/
  ((4 | len dna) /\ exists r, dnaToText dna = Err (InvalidBase r)).
Proof.
  intros Hfit Hbad. pose proof (len_nonneg dna) as Hn.
  destruct (Z.eqb_spec (Z.rem (len dna) 4) 0) as [E|E].
  - apply Z.rem_divide in E; [|lia]. right. split; [exact E|].
    destruct E as [k Hk].
    assert (Hlen : length dna = (4 * Z.to_nat k)%nat) by (unfold len in *; lia).
    rewrite (dnaToText_segments dna (Z.to_nat k) Hfit Hlen).
    apply decodeSegments_invalid; [exact Hlen|]. intros Hv. apply Hbad. split; [|exact Hv].
    by exists k.
  - left. split.
    + intros Hd. apply E. by apply Z.rem_divide.
    + rewrite dnaToText_loop. unfold irem.
      destruct (Z.eqb_spec (Z.rem (len dna) 4) 0); [contradiction|reflexivity].
Qed.

Lemma X17_dnaToText_rejects_witness :
  (~ (4 | len (str "TcAxtCGA")) /\
   dnaToText (str "TcAxtCGA") = Err (InvalidSequence "DNA sequence length must be a multiple of 4")) \/
  ((4 | len (str "TcAxtCGA")) /\ exists r, dnaToText (str "TcAxtCGA") = Err (InvalidBase r)).
Proof.
  apply (X17_dnaToText_rejects (str "TcAxtCGA")).
  - reflexivity.
  - intros [_ H]. apply Forall_cons in H as [_ H]. apply Forall_cons in H as [_ H].
    apply Forall_cons in H as [_ H]. apply Forall_cons in H as [H _].
    apply anyCaseBase_cases in H. repeat destruct H as [H|H]; discriminate.
Defined.

(** ** The commands [encrypt] and [decrypt] *)

Lemma trimLeading_base c s : anyCaseBase c -> trimLeading (c :: s) = Some (c :: s).
Proof.
  intros H. apply anyCaseBase_cases in H.
  destruct H as [-> | [-> | [-> | [-> | [-> | [-> | [-> | ->]]]]]]]; reflexivity.
Qed.

(** A string of bases has nothing to trim. *)
Lemma TrimSpace_bases s : Forall anyCaseBase s -> TrimSpace s = Some s.
Proof.
  intros H. unfold TrimSpace.
  assert (Hl : forall l, Forall anyCaseBase l -> trimLeading l = Some l).
  { intros [|c l] Hv; [reflexivity|]. apply Forall_cons in Hv as [Hc _].
    by apply trimLeading_base. }
  rewrite (Hl s H). cbn [mbind option_bind].
  rewrite (Hl (reverse s)) by (by apply Forall_reverse).
  cbn [mbind option_bind]. by rewrite reverse_involutive.
Qed.

Lemma slice_prefix s n : 0 <= n <= len s -> slice s 0 n = Ok (take (Z.to_nat n) s).
Proof.
  intros Hn. unfold slice.
  destruct (Z.leb_spec 0 0); [|lia]. destruct (Z.leb_spec 0 n); [|lia].
  destruct (Z.leb_spec n (len s)); [|lia]. cbn [andb]. by rewrite Z.sub_0_r, drop_0.
Qed.

Lemma min_spec a b : min a b = Z.min a b.
Proof. unfold min. destruct (Z.ltb_spec a b); lia. Qed.

(** The first part of [encrypt]: the plaintext as DNA, and the sample of it
    that is printed, which never panics. *)
Lemma encryptCommand_eq plaintext keyFile :
  encryptCommand plaintext keyFile =
    (keyDNA ← TrimSpace keyFile;
     if len keyDNA <? len (textToDNA plaintext)
     then Some (Fatal (KeyTooShort (len (textToDNA plaintext)) (len keyDNA)))
     else
       match xorDNAStrings (textToDNA plaintext)
               (take (length (textToDNA plaintext)) keyDNA) with
       | Ok ciphertextDNA => Some (Written ciphertextDNA)
       | Err e => Some (Fatal (DuringEncryption e))
       | Panic => Some Crashed
       end).
Proof.
  unfold encryptCommand. pose proof (len_nonneg (textToDNA plaintext)) as Hn.
  rewrite slice_prefix by (rewrite min_spec; lia).
  destruct (TrimSpace keyFile) as [keyDNA|]; [|reflexivity]. cbn [mbind option_bind].
  destruct (Z.ltb_spec (len keyDNA) (len (textToDNA plaintext))); [reflexivity|].
  rewrite slice_prefix by lia. unfold len. by rewrite Nat2Z.id.
Qed.

(** X18. With a key file that holds, between optional ASCII white space,
    exactly four bases (in either case) per byte of the plaintext, the
    command [encrypt] writes a ciphertext of upper-case bases, and the
    command [decrypt], given that ciphertext and the same key file, writes
    the plaintext. *)
Theorem X18_commands_roundtrip plaintext keyFile keyDNA :
  TrimSpace keyFile = Some keyDNA -> Forall anyCaseBase keyDNA ->
  len keyDNA = 4 * len plaintext -> 4 * len plaintext < 2 ^ 62 ->
  exists ciphertextDNA,
    encryptCommand plaintext keyFile = Some (Written ciphertextDNA) /\
    Forall isBase ciphertextDNA /\ len ciphertextDNA = 4 * len plaintext /\
    decryptCommand ciphertextDNA keyFile = Some (Written plaintext).
Proof.
  intros Htrim Hkey Hlen Hfit.
  destruct (textToDNA_bases plaintext) as [Hbases Hlen4].
  assert (Hsame : length (textToDNA plaintext) = length keyDNA) by (unfold len in Hlen; lia).
  set (key := upperBase <$> keyDNA).
  assert (Hk : Forall isBase key).
  { apply Forall_fmap. eapply Forall_impl; [exact Hkey|]. apply anyCaseBase_upper. }
  assert (Hp : Forall anyCaseBase (textToDNA plaintext)).
  { eapply Forall_impl; [exact Hbases|]. intros c Hc. by apply isBase_anyCase. }
  assert (Hup : upperBase <$> textToDNA plaintext = textToDNA plaintext).
  { apply list_eq. intros i. rewrite list_lookup_fmap.
    destruct (textToDNA plaintext !! i) as [c|] eqn:E; [|reflexivity]. cbn. f_equal.
    apply isBase_anyCase. exact (proj1 (Forall_lookup _ _) Hbases _ _ E). }
  exists (zip_with xorBase (textToDNA plaintext) key).
  assert (Hc : Forall isBase (zip_with xorBase (textToDNA plaintext) key))
    by (by apply zip_xorBase_bases).
  assert (Hcl : length (zip_with xorBase (textToDNA plaintext) key) = length keyDNA).
  { rewrite length_zip_with. unfold key. rewrite length_fmap. lia. }
  split; [|split; [exact Hc|split; [unfold len in *; lia|]]].
  - rewrite encryptCommand_eq, Htrim. cbn [mbind option_bind].
    destruct (Z.ltb_spec (len keyDNA) (len (textToDNA plaintext))); [unfold len in *; lia|].
    rewrite take_ge by lia.
    rewrite (xorDNAStrings_anyCase (textToDNA plaintext) keyDNA) by assumption.
    by rewrite Hup.
  - unfold decryptCommand.
    assert (Hca : Forall anyCaseBase (zip_with xorBase (textToDNA plaintext) key))
      by (eapply Forall_impl; [exact Hc|]; intros c Hcc; by apply isBase_anyCase).
    rewrite (TrimSpace_bases _ Hca).
    cbn [mbind option_bind]. rewrite Htrim. cbn [mbind option_bind].
    unfold len. rewrite Hcl, Z.eqb_refl. cbn [negb].
    rewrite <- xorDNAStrings_upper.
    replace (upperBase <$> zip_with xorBase (textToDNA plaintext) key)
      with (zip_with xorBase (textToDNA plaintext) key).
    2:{ apply list_eq. intros i. rewrite list_lookup_fmap.
        destruct (zip_with xorBase (textToDNA plaintext) key !! i) as [c|] eqn:E;
          [|reflexivity]. cbn. f_equal. symmetry.
        apply isBase_anyCase. exact (proj1 (Forall_lookup _ _) Hc _ _ E). }
    fold key. rewrite xorDNAStrings_bases;
      [|assumption|assumption|rewrite Hcl; unfold key; by rewrite length_fmap].
    rewrite zip_xorBase_twice; [|assumption|assumption|unfold key; rewrite length_fmap; lia].
    rewrite dnaToText_textToDNA by lia. reflexivity.
Qed.

Lemma X18_commands_roundtrip_witness :
  exists ciphertextDNA,
    encryptCommand (str "Hi") (str " gaTTacat  ") = Some (Written ciphertextDNA) /\
    Forall isBase ciphertextDNA /\ len ciphertextDNA = 4 * len (str "Hi") /\
    decryptCommand ciphertextDNA (str " gaTTacat  ") = Some (Written (str "Hi")).
Proof.
  apply (X18_commands_roundtrip (str "Hi") (str " gaTTacat  ") (str "gaTTacat")).
  - reflexivity.
  - repeat constructor; by apply (bool_decide_unpack _).
  - reflexivity.
  - reflexivity.
Defined.

(** X19. [encrypt] accepts a key longer than the plaintext needs and uses
    only its first bases (what follows them is not even examined), but
    [decrypt] refuses the same key file for the ciphertext so obtained,
    because the lengths differ; and [encrypt] refuses a key that is too
    short. *)
Theorem X19_key_length_asymmetry plaintext keyFile keyDNA :
  TrimSpace keyFile = Some keyDNA -> 4 * len plaintext < 2 ^ 62 ->
  (len keyDNA < 4 * len plaintext ->
     encryptCommand plaintext keyFile =
       Some (Fatal (KeyTooShort (4 * len plaintext) (len keyDNA)))) /\
  (4 * len plaintext < len keyDNA ->
   Forall anyCaseBase (take (Z.to_nat (4 * len plaintext)) keyDNA) ->
   exists ciphertextDNA,
     encryptCommand plaintext keyFile = Some (Written ciphertextDNA) /\
     xorDNAStrings (textToDNA plaintext) (take (Z.to_nat (4 * len plaintext)) keyDNA)
       = Ok ciphertextDNA /\
     decryptCommand ciphertextDNA keyFile =
       Some (Fatal (KeyLengthMismatch (len keyDNA) (4 * len plaintext)))).
Proof.
  intros Htrim Hfit.
  destruct (textToDNA_bases plaintext) as [Hbases Hlen4].
  assert (Hl : len (textToDNA plaintext) = 4 * len plaintext) by (unfold len; lia).
  split.
  - intros Hshort. rewrite encryptCommand_eq, Htrim. cbn [mbind option_bind]. rewrite Hl.
    destruct (Z.ltb_spec (len keyDNA) (4 * len plaintext)); [reflexivity|lia].
  - intros Hlong Hkey.
    replace (Z.to_nat (4 * len plaintext)) with (length (textToDNA plaintext)) in *
      by (unfold len in *; lia).
    assert (Hp : Forall anyCaseBase (textToDNA plaintext)).
    { eapply Forall_impl; [exact Hbases|]. intros c Hc. by apply isBase_anyCase. }
    assert (Hsame : length (textToDNA plaintext)
                    = length (take (length (textToDNA plaintext)) keyDNA)).
    { rewrite length_take. unfold len in *. lia. }
    pose proof (xorDNAStrings_anyCase _ _ Hp Hkey Hsame) as Hx.
    eexists. split; [|split; [exact Hx|]].
    + rewrite encryptCommand_eq, Htrim. cbn [mbind option_bind]. rewrite Hl.
      destruct (Z.ltb_spec (len keyDNA) (4 * len plaintext)); [lia|]. by rewrite Hx.
    + unfold decryptCommand.
      assert (Hc : Forall isBase (zip_with xorBase (upperBase <$> textToDNA plaintext)
                     (upperBase <$> take (length (textToDNA plaintext)) keyDNA))).
      { apply zip_xorBase_bases; apply Forall_fmap;
          (eapply Forall_impl; [eassumption|]; apply anyCaseBase_upper). }
      assert (Hca : Forall anyCaseBase (zip_with xorBase (upperBase <$> textToDNA plaintext)
                      (upperBase <$> take (length (textToDNA plaintext)) keyDNA)))
        by (eapply Forall_impl; [exact Hc|]; intros c Hcc; by apply isBase_anyCase).
      rewrite (TrimSpace_bases _ Hca).
      cbn [mbind option_bind]. rewrite Htrim. cbn [mbind option_bind].
      assert (Hcl : len (zip_with xorBase (upperBase <$> textToDNA plaintext)
                     (upperBase <$> take (length (textToDNA plaintext)) keyDNA))
                    = 4 * len plaintext).
      { unfold len. rewrite length_zip_with, !length_fmap. unfold len in *. lia. }
      rewrite Hcl. destruct (Z.eqb_spec (len keyDNA) (4 * len plaintext)); [lia|].
      reflexivity.
Qed.

Lemma X19_key_length_asymmetry_witness :
  exists ciphertextDNA,
    encryptCommand (str "Hi") (str "GATTACATxx") = Some (Written ciphertextDNA) /\
    xorDNAStrings (textToDNA (str "Hi")) (take (Z.to_nat (4 * len (str "Hi"))) (str "GATTACATxx"))
      = Ok ciphertextDNA /\
    decryptCommand ciphertextDNA (str "GATTACATxx") =
      Some (Fatal (KeyLengthMismatch (len (str "GATTACATxx")) (4 * len (str "Hi")))).
Proof.
  destruct (X19_key_length_asymmetry (str "Hi") (str "GATTACATxx") (str "GATTACATxx"))
    as [_ H].
  - reflexivity.
  - reflexivity.
  - apply H.
    + reflexivity.
    + repeat constructor; by apply (bool_decide_unpack _).
Defined.

(** ** The command [genkey] *)

Lemma foldl_byteToDNA bytes : forall sb,
  foldl (fun sb b => sb ++ byteToDNA (rune b)) sb bytes = sb ++ textToDNA bytes.
Proof.
  rewrite textToDNA_flat.
  induction bytes as [|b bytes IH]; intros sb; [by rewrite app_nil_r|].
  cbn [foldl mbind list_bind]. by rewrite IH, <- app_assoc.
Qed.

Section genkey_facts.

Variable tpm : nat -> Z -> option (list ascii).
Variable keyLength : Z.
Hypothesis keyLength_fits : keyLength + 3 < 2 ^ 63.

(** The number of bytes the loop asks the TPM for. *)
Lemma bytesNeeded_range remaining : 0 < remaining <= keyLength ->
  let bytesNeeded := idiv (iadd remaining 3) 4 in
  1 <= u16 (if bytesNeeded >? 1024 then 1024 else bytesNeeded) <= 1024.
Proof.
  intros Hr. cbn zeta. unfold idiv, iadd.
  rewrite (wrap64_id (remaining + 3)) by (unfold fits64; lia).
  rewrite quot_div_nonneg by lia.
  assert (1 <= (remaining + 3) / 4) by (apply Z.div_le_lower_bound; lia).
  assert ((remaining + 3) / 4 <= remaining + 3) by (apply Z.div_le_upper_bound; lia).
  rewrite wrap64_id by (unfold fits64; lia).
  unfold u16. destruct (Z.gtb_spec ((remaining + 3) / 4) 1024).
  - rewrite Z.mod_small; lia.
  - rewrite Z.mod_small; lia.
Qed.

Hypothesis tpm_answers : forall call n, 1 <= n <= 1024 ->
  exists bytes, tpm call n = Some bytes /\ bytes <> [].

Lemma genkeyLoop_ends : forall fuel call keyBuilder,
  Forall isBase keyBuilder -> len keyBuilder < keyLength ->
  keyLength - len keyBuilder <= 4 * Z.of_nat fuel ->
  exists keyBuilder',
    genkeyLoop tpm keyLength fuel call (keyLength - len keyBuilder) keyBuilder
      = Some (inr keyBuilder') /\
    Forall isBase keyBuilder' /\ keyLength <= len keyBuilder'.
Proof.
  induction fuel as [|fuel IH]; intros call kb Hkb Hlt Hfuel; [lia|].
  pose proof (len_nonneg kb) as Hn.
  cbn [genkeyLoop]. destruct (Z.gtb_spec (keyLength - len kb) 0); [|lia].
  destruct (tpm_answers call _ (bytesNeeded_range (keyLength - len kb) ltac:(lia)))
    as (bytes & -> & Hne).
  rewrite foldl_byteToDNA. destruct (textToDNA_bases bytes) as [Hb Hl].
  assert (Hkb' : Forall isBase (kb ++ textToDNA bytes)) by (by apply Forall_app).
  assert (Hlen : len (kb ++ textToDNA bytes) = len kb + 4 * len bytes).
  { unfold len. rewrite length_app, Hl. lia. }
  assert (0 < len bytes) by (destruct bytes; [done|unfold len; simpl; lia]).
  destruct (Z.geb_spec (len (kb ++ textToDNA bytes)) keyLength) as [Hge|Hlt'].
  - exists (kb ++ textToDNA bytes). split; [reflexivity|]. split; [exact Hkb'|lia].
  - unfold isub. rewrite wrap64_id by (unfold fits64; lia).
    apply IH; [exact Hkb'|lia|lia].
Qed.

End genkey_facts.

(** X20. When every call of the TPM returns at least one byte, [genkey]
    ends (after at most one iteration per four bases asked for), asks the
    TPM for between 1 and 1024 bytes at a time, never panics on the final
    slice, and writes a key of exactly the length asked for, made of the
    four bases in upper case. *)
Theorem X20_genkey_writes_key tpm keyLength fuel :
  0 < keyLength -> keyLength + 3 < 2 ^ 63 ->
  (forall call n, 1 <= n <= 1024 -> exists bytes, tpm call n = Some bytes /\ bytes <> []) ->
  keyLength <= 4 * Z.of_nat fuel ->
  exists keyDNA,
    genkeyCommand tpm keyLength fuel = Some (Written keyDNA) /\
    len keyDNA = keyLength /\ Forall isBase keyDNA.
Proof.
  intros Hpos Hfit Htpm Hfuel. unfold genkeyCommand.
  destruct (Z.leb_spec keyLength 0); [lia|].
  destruct (genkeyLoop_ends tpm keyLength Hfit Htpm fuel 0 [])
    as (kb & Hloop & Hkb & Hlen);
    [constructor|exact Hpos|change (len (@nil ascii)) with 0; lia|].
  change (len (@nil ascii)) with 0 in Hloop. rewrite Z.sub_0_r in Hloop. rewrite Hloop.
  rewrite slice_prefix by lia.
  eexists. split; [reflexivity|]. split.
  - unfold len in *. rewrite length_take. lia.
  - by apply Forall_take.
Qed.

Lemma X20_genkey_writes_key_witness :
  exists keyDNA,
    genkeyCommand (fun _ n => Some (replicate (Z.to_nat n) "K"%char)) 6 2 = Some (Written keyDNA) /\
    len keyDNA = 6 /\ Forall isBase keyDNA.
Proof.
  apply (X20_genkey_writes_key (fun _ n => Some (replicate (Z.to_nat n) "K"%char)) 6 2).
  - reflexivity.
  - reflexivity.
  - intros call n Hn. eexists. split; [reflexivity|].
    destruct (Z.to_nat n) eqn:E; [lia|discriminate].
  - cbn. lia.
Defined.

(** X21. The loop of [genkey] does not guard against an empty answer: with
    a TPM that returns no byte and no error, the command never ends. *)
Theorem X21_genkey_empty_answers tpm keyLength fuel :
  0 < keyLength < 2 ^ 63 -> (forall call n, tpm call n = Some []) ->
  genkeyCommand tpm keyLength fuel = None.
Proof.
  intros Hpos Htpm. unfold genkeyCommand.
  destruct (Z.leb_spec keyLength 0); [lia|].
  enough (Hloop : forall call, genkeyLoop tpm keyLength fuel call keyLength [] = None)
    by (by rewrite Hloop).
  induction fuel as [|fuel IH]; intros call; [reflexivity|].
  cbn [genkeyLoop]. destruct (Z.gtb_spec keyLength 0); [|lia].
  rewrite Htpm. cbn [foldl]. change (len []) with 0.
  destruct (Z.geb_spec 0 keyLength); [lia|].
  unfold isub. rewrite Z.sub_0_r.
  rewrite wrap64_id by (unfold fits64; lia). apply IH.
Qed.

Lemma X21_genkey_empty_answers_witness :
  genkeyCommand (fun _ _ => Some []) 6 1000 = None.
Proof. apply (X21_genkey_empty_answers (fun _ _ => Some []) 6 1000); [lia|reflexivity]. Defined.

(** * Properties of the byte codec (dnacodec) *)

(** ** The buffered writer *)

Section bufio_facts.

Import bufio.

Lemma contents_WriteByte w c : contents (WriteByte w c) = contents w ++ [c].
Proof.
  unfold contents, WriteByte. destruct (Available w <=? 0); cbn.
  - reflexivity.
  - by rewrite app_assoc.
Qed.

Lemma out_Flush w : out (Flush w) = contents w.
Proof. reflexivity. Qed.

Lemma contents_NewWriter output : contents (NewWriter output) = output.
Proof. unfold contents. cbn. by rewrite app_nil_r. Qed.

End bufio_facts.

(** ** Decoding what the encoder wrote *)

Lemma twoBits_range b i : 0 <= twoBits b i < 4.
Proof.
  unfold twoBits. change 3 with (Z.ones 2). rewrite Z.land_ones by lia.
  apply Z.mod_pos_bound. lia.
Qed.

Lemma classify_dnaBaseOf bits : 0 <= bits < 4 -> classify (rune (dnaBaseOf bits)) = Bits bits.
Proof.
  intros H. assert (bits = 0 \/ bits = 1 \/ bits = 2 \/ bits = 3) as [-> | [-> | [-> | ->]]] by lia;
    reflexivity.
Qed.

Lemma decodeLoop_bits c bits rest currentByte bitsCollected writer :
  classify (rune c) = Bits bits ->
  decodeLoop (c :: rest) currentByte bitsCollected writer =
    if iadd bitsCollected 2 =? 8
    then decodeLoop rest 0 0 (bufio.WriteByte writer (byte (shiftIn currentByte bits)))
    else decodeLoop rest (shiftIn currentByte bits) (iadd bitsCollected 2) writer.
Proof. intros H. cbn [decodeLoop]. by rewrite H. Qed.

Lemma decodeLoop_newline rest currentByte bitsCollected writer :
  decodeLoop (newline :: rest) currentByte bitsCollected writer =
  decodeLoop rest currentByte bitsCollected writer.
Proof. reflexivity. Qed.

(** The four pairs of bits of a byte, shifted in one after the other, give
    the byte again. *)
Lemma shiftIn_twoBits v : 0 <= v < 256 ->
  shiftIn (shiftIn (shiftIn (shiftIn 0 (twoBits v 3)) (twoBits v 2)) (twoBits v 1)) (twoBits v 0) = v.
Proof.
  intros Hv.
  assert (H : (shiftIn (shiftIn (shiftIn (shiftIn 0 (twoBits v 3)) (twoBits v 2)) (twoBits v 1))
                 (twoBits v 0) =? v) = true)
    by (revert v Hv; apply forall_u8; vm_compute; reflexivity).
  by apply Z.eqb_eq in H.
Qed.

(** One base written by the encoder, with the newline that may follow it, is
    read by the decoder as that base alone. *)
Lemma encodeBase_decodes wrapWidth b st i :
  exists l,
    contents (encodeBase wrapWidth b st i).1 = contents st.1 ++ l /\
    forall rest currentByte bitsCollected writer,
      decodeLoop (l ++ rest) currentByte bitsCollected writer =
      decodeLoop (dnaBaseOf (twoBits b i) :: rest) currentByte bitsCollected writer.
Proof.
  destruct st as [w chars]. unfold encodeBase. fold (twoBits b i).
  destruct ((wrapWidth >? 0) && (iadd chars 1 >=? wrapWidth)); cbn [fst].
  - exists [dnaBaseOf (twoBits b i); newline].
    rewrite !contents_WriteByte, <- app_assoc. split; [reflexivity|].
    intros rest cur k wr. cbn [app].
    rewrite (decodeLoop_bits _ (twoBits b i) (newline :: rest))
      by (apply classify_dnaBaseOf, twoBits_range).
    rewrite !decodeLoop_newline. symmetry.
    apply decodeLoop_bits, classify_dnaBaseOf, twoBits_range.
  - exists [dnaBaseOf (twoBits b i)]. rewrite contents_WriteByte. by split.
Qed.

Lemma encodeByte_decodes wrapWidth c st :
  exists l,
    contents (foldl (encodeBase wrapWidth (rune c)) st [3; 2; 1; 0]).1 = contents st.1 ++ l /\
    forall rest writer,
      decodeLoop (l ++ rest) 0 0 writer = decodeLoop rest 0 0 (bufio.WriteByte writer c).
Proof.
  cbn [foldl].
  destruct (encodeBase_decodes wrapWidth (rune c) st 3) as (l3 & E3 & D3).
  set (st3 := encodeBase wrapWidth (rune c) st 3) in *.
  destruct (encodeBase_decodes wrapWidth (rune c) st3 2) as (l2 & E2 & D2).
  set (st2 := encodeBase wrapWidth (rune c) st3 2) in *.
  destruct (encodeBase_decodes wrapWidth (rune c) st2 1) as (l1 & E1 & D1).
  set (st1 := encodeBase wrapWidth (rune c) st2 1) in *.
  destruct (encodeBase_decodes wrapWidth (rune c) st1 0) as (l0 & E0 & D0).
  exists (l3 ++ l2 ++ l1 ++ l0). split.
  - rewrite E0, E1, E2, E3. by rewrite <- !app_assoc.
  - intros rest writer. rewrite <- !app_assoc.
    rewrite D3, (decodeLoop_bits _ (twoBits (rune c) 3))
      by (apply classify_dnaBaseOf, twoBits_range).
    change (iadd 0 2 =? 8) with false. cbv iota.
    rewrite D2, (decodeLoop_bits _ (twoBits (rune c) 2))
      by (apply classify_dnaBaseOf, twoBits_range).
    change (iadd (iadd 0 2) 2 =? 8) with false. cbv iota.
    rewrite D1, (decodeLoop_bits _ (twoBits (rune c) 1))
      by (apply classify_dnaBaseOf, twoBits_range).
    change (iadd (iadd (iadd 0 2) 2) 2 =? 8) with false. cbv iota.
    rewrite D0, (decodeLoop_bits _ (twoBits (rune c) 0))
      by (apply classify_dnaBaseOf, twoBits_range).
    change (iadd (iadd (iadd (iadd 0 2) 2) 2) 2 =? 8) with true. cbv iota.
    by rewrite shiftIn_twoBits, byte_rune by apply rune_range.
Qed.

Lemma encodeBytes_decodes wrapWidth input : forall st,
  exists l,
    contents (foldl (fun st b => foldl (encodeBase wrapWidth (rune b)) st [3; 2; 1; 0])
                    st input).1 = contents st.1 ++ l /\
    forall rest writer,
      exists writer',
        decodeLoop (l ++ rest) 0 0 writer = decodeLoop rest 0 0 writer' /\
        contents writer' = contents writer ++ input.
Proof.
  set (F := fun (st : bufio.Writer * Z) (b : ascii) =>
              foldl (encodeBase wrapWidth (rune b)) st [3; 2; 1; 0]).
  induction input as [|c input IH]; intros st.
  - exists []. rewrite app_nil_r. split; [reflexivity|].
    intros rest writer. exists writer. by rewrite app_nil_r.
  - change (foldl F st (c :: input)) with (foldl F (F st c) input).
    destruct (encodeByte_decodes wrapWidth c st) as (l & E & D).
    change (foldl (encodeBase wrapWidth (rune c)) st [3; 2; 1; 0]) with (F st c) in E.
    destruct (IH (F st c)) as (l' & E' & D').
    exists (l ++ l'). split; [by rewrite E', E, <- app_assoc|].
    intros rest writer. rewrite <- app_assoc, D.
    destruct (D' rest (bufio.WriteByte writer c)) as (writer' & -> & Hc).
    exists writer'. split; [reflexivity|].
    by rewrite Hc, contents_WriteByte, <- app_assoc.
Qed.

(** X22. Whatever the line width (positive, zero or negative),
    [encodeBytesToDNA] returns no error, and decoding what it wrote for a byte
    string succeeds and appends exactly that byte string to the output. *)
Theorem X22_codec_roundtrip input wrapWidth output :
  exists encoded,
    encodeBytesToDNA input [] wrapWidth = (encoded, None) /\
    decodeDNAToBytes encoded output = (output ++ input, None).
Proof.
  unfold encodeBytesToDNA.
  destruct (encodeBytes_decodes wrapWidth input (bufio.NewWriter [], 0)) as (l & E & D).
  destruct (foldl _ _ input) as [w chars]. cbn [fst] in E.
  rewrite contents_NewWriter in E. cbn [app] in E.
  eexists. split; [reflexivity|]. rewrite out_Flush.
  assert (Henc : exists tail,
            contents (if (wrapWidth >? 0) && (chars >? 0)
                      then bufio.WriteByte w newline else w) = l ++ tail /\
            (tail = [] \/ tail = [newline])).
  { destruct ((wrapWidth >? 0) && (chars >? 0)).
    - rewrite contents_WriteByte, E. exists [newline]. tauto.
    - rewrite E. exists []. rewrite app_nil_r. tauto. }
  destruct Henc as (tail & -> & Htail). unfold decodeDNAToBytes.
  destruct (D tail (bufio.NewWriter output)) as (writer' & -> & Hc).
  rewrite contents_NewWriter in Hc.
  assert (Hend : decodeLoop tail 0 0 writer' = (writer', None))
    by (by destruct Htail as [-> | ->]).
  by rewrite Hend, out_Flush, Hc.
Qed.

(** ** What the decoder does not see *)

Lemma classify_upperBase c :
  classify (rune (upperBase c)) = classify (rune c) /\
  (classify (rune c) = Unknown -> upperBase c = c).
Proof.
  unfold upperBase.
  destruct (Z.eqb_spec (rune c) (rune "a")) as [E|_]; [apply rune_inj in E; by subst|].
  destruct (Z.eqb_spec (rune c) (rune "t")) as [E|_]; [apply rune_inj in E; by subst|].
  destruct (Z.eqb_spec (rune c) (rune "c")) as [E|_]; [apply rune_inj in E; by subst|].
  destruct (Z.eqb_spec (rune c) (rune "g")) as [E|_]; [apply rune_inj in E; by subst|].
  by split.
Qed.

Lemma decodeLoop_canonical input : forall currentByte bitsCollected writer,
  decodeLoop (upperBase <$> List.filter (fun c => negb (skipped c)) input)
             currentByte bitsCollected writer =
  decodeLoop input currentByte bitsCollected writer.
Proof.
  induction input as [|c input IH]; intros cur k w; [reflexivity|].
  cbn [List.filter]. unfold skipped at 1.
  destruct (classify_upperBase c) as [Hup Hunk].
  destruct (classify (rune c)) as [bits| |] eqn:E; cbn [negb fmap list_fmap].
  - rewrite (decodeLoop_bits (upperBase c) bits) by (by rewrite Hup).
    rewrite (decodeLoop_bits c bits) by assumption. by rewrite !IH.
  - cbn [decodeLoop]. rewrite E. apply IH.
  - rewrite Hunk by reflexivity. cbn [decodeLoop]. by rewrite E.
Qed.

(** X23. [decodeDNAToBytes] sees neither the case of the bases nor the
    newlines, carriage returns and spaces between them: removing these bytes
    and putting the bases in upper case changes neither the bytes written
    nor the error. *)
Theorem X23_decoder_ignores_layout input output :
  decodeDNAToBytes (upperBase <$> List.filter (fun c => negb (skipped c)) input) output =
  decodeDNAToBytes input output.
Proof. unfold decodeDNAToBytes. by rewrite decodeLoop_canonical. Qed.

(** ** When the decoder fails, and what it has written by then *)

Lemma WriteByte_blocks output w c :
  flushedInBlocks output w -> flushedInBlocks output (bufio.WriteByte w c).
Proof.
  intros (written & Hout & Hdiv & Hbuf). unfold bufio.WriteByte, bufio.Available.
  change bufio.defaultBufSize with 4096.
  destruct (Z.leb_spec (4096 - len (bufio.buf w)) 0).
  - exists (written ++ bufio.buf w). cbn. rewrite Hout, <- app_assoc.
    split; [reflexivity|]. split; [|unfold len; simpl; lia].
    unfold len in *. rewrite length_app, Nat2Z.inj_add.
    apply Z.divide_add_r; [exact Hdiv|]. exists 1. lia.
  - exists written. cbn. split; [exact Hout|]. split; [exact Hdiv|].
    unfold len in *. rewrite length_app. simpl. lia.
Qed.

Lemma pending_iadd k : pending k -> iadd k 2 = k + 2.
Proof.
  intros H. unfold iadd. apply wrap64_id. unfold fits64, pending in *. lia.
Qed.

(** The loop writes at most one byte per four bytes read, and leaves whole
    buffers under the writer. *)
Lemma decodeLoop_written output input : forall currentByte bitsCollected writer writer' err,
  flushedInBlocks output writer -> pending bitsCollected ->
  decodeLoop input currentByte bitsCollected writer = (writer', err) ->
  flushedInBlocks output writer' /\
  8 * (len (contents writer') - len (contents writer)) <= 2 * len input + bitsCollected.
Proof.
  induction input as [|c input IH]; intros cur k w w' err Hw Hk H.
  - cbn [decodeLoop] in H. assert (w' = w) as -> by (destruct (negb _); congruence).
    split; [exact Hw|]. unfold pending, len in *. simpl. lia.
  - assert (Hlen : len (c :: input) = len input + 1) by (unfold len; simpl; lia).
    rewrite Hlen. cbn [decodeLoop] in H.
    destruct (classify (rune c)) as [bits| |].
    + rewrite (pending_iadd k Hk) in H.
      destruct (Z.eqb_spec (k + 2) 8) as [E|E].
      * apply IH in H as [H1 H2]; [|by apply WriteByte_blocks|by left].
        split; [exact H1|]. rewrite contents_WriteByte in H2.
        unfold len in *. rewrite length_app in H2. simpl in H2. lia.
      * apply IH in H as [H1 H2]; [|exact Hw|unfold pending in *; lia].
        split; [exact H1|]. lia.
    + apply IH in H as [H1 H2]; [|exact Hw|exact Hk]. split; [exact H1|]. lia.
    + injection H as <- <-. split; [exact Hw|]. unfold pending in *.
      pose proof (len_nonneg input). lia.
Qed.

(** X24. When [decodeDNAToBytes] fails it returns before the final flush:
    the output has received only whole buffers of 4096 decoded bytes, at most
    one byte per four bytes of input; so a failing input of fewer than 16384
    bytes leaves the output untouched, and a longer one may leave a partial
    result. *)
Theorem X24_decoder_partial_output input output out' e :
  decodeDNAToBytes input output = (out', Some e) ->
  exists written,
    out' = output ++ written /\ (4096 | len written) /\ 4 * len written <= len input /\
    (len input < 16384 -> out' = output).
Proof.
  unfold decodeDNAToBytes. intros H.
  destruct (decodeLoop input 0 0 (bufio.NewWriter output)) as [w err] eqn:E.
  apply (decodeLoop_written output) in E as [(written & Hout & Hdiv & Hbuf) Hle];
    [| |by left].
  2:{ exists []. cbn. rewrite app_nil_r. split; [reflexivity|].
      split; [exists 0; reflexivity|unfold len; simpl; lia]. }
  destruct err as [e'|]; [|discriminate]. injection H as <- <-.
  rewrite contents_NewWriter in Hle. unfold contents in Hle. rewrite Hout in Hle.
  unfold len in Hle. rewrite !length_app in Hle. fold (len written) in *.
  pose proof (len_nonneg written) as Hn.
  assert (Hlen : 4 * len written <= len input) by (unfold len in *; lia).
  exists written. split; [exact Hout|]. split; [exact Hdiv|]. split; [exact Hlen|].
  intros Hshort. destruct Hdiv as [q Hq].
  assert (q = 0) by lia. subst q.
  destruct written; [by rewrite app_nil_r in Hout|unfold len in Hq; simpl in Hq; lia].
Qed.

Lemma X24_decoder_partial_output_witness :
  exists written,
    str "out:" = str "out:" ++ written /\ (4096 | len written) /\
    4 * len written <= len (str "CAGACGGx") /\
    (len (str "CAGACGGx") < 16384 -> str "out:" = str "out:").
Proof.
  apply (X24_decoder_partial_output (str "CAGACGGx") (str "out:") (str "out:")
           (InvalidDNABase (rune "x"))).
  reflexivity.
Defined.

(** The loop on bytes it accepts: it consumes them all, and has written one
    byte for every four bases. *)
Lemma decodeLoop_known pre : Forall known pre ->
  forall rest currentByte bitsCollected writer, pending bitsCollected ->
  exists currentByte' bitsCollected' writer' bytes,
    decodeLoop (pre ++ rest) currentByte bitsCollected writer =
      decodeLoop rest currentByte' bitsCollected' writer' /\
    pending bitsCollected' /\
    contents writer' = contents writer ++ bytes /\
    8 * len bytes + bitsCollected' = bitsCollected + 2 * baseCount pre.
Proof.
  induction 1 as [|c pre Hc Hpre IH]; intros rest cur k w Hk.
  - exists cur, k, w, []. rewrite app_nil_r. split; [reflexivity|]. split; [exact Hk|].
    split; [reflexivity|]. unfold baseCount, len. simpl. lia.
  - cbn [app decodeLoop]. unfold baseCount. cbn [List.filter]. fold (baseCount pre).
    unfold known in Hc. destruct (classify (rune c)) as [bits| |]; [| |done].
    + assert (Hbc : len (c :: List.filter
                (fun c => match classify (rune c) with Bits _ => true | _ => false end) pre)
                = baseCount pre + 1) by (unfold baseCount, len; simpl; lia).
      rewrite Hbc, (pending_iadd k Hk).
      destruct (Z.eqb_spec (k + 2) 8) as [E|E].
      * destruct (IH rest 0 0 (bufio.WriteByte w (byte (u8 (Z.lor (u8 (Z.shiftl cur 2)) bits))))
                    ltac:(by left)) as (cur' & k' & w' & bytes & -> & Hk' & Hcont & Hcount).
        exists cur', k', w', (byte (u8 (Z.lor (u8 (Z.shiftl cur 2)) bits)) :: bytes).
        split; [reflexivity|]. split; [exact Hk'|].
        rewrite contents_WriteByte, <- app_assoc in Hcont. split; [exact Hcont|].
        unfold len in *. simpl. lia.
      * destruct (IH rest (u8 (Z.lor (u8 (Z.shiftl cur 2)) bits)) (k + 2) w
                    ltac:(unfold pending in *; lia))
          as (cur' & k' & w' & bytes & -> & Hk' & Hcont & Hcount).
        exists cur', k', w', bytes. split; [reflexivity|]. split; [exact Hk'|].
        split; [exact Hcont|]. lia.
    + destruct (IH rest cur k w Hk) as (cur' & k' & w' & bytes & -> & Hk' & Hcont & Hcount).
      exists cur', k', w', bytes. by repeat split.
Qed.

(** X25. On an input that holds nothing but bases (in either case) and
    skipped bytes, [decodeDNAToBytes] succeeds exactly when the number of
    bases is a multiple of four, and then writes one byte for every four
    bases; otherwise it fails with the error it calls an odd number of bits
    (the number of bits is even, but the last byte is incomplete). *)
Theorem X25_decoder_incomplete_byte input output :
  Forall known input ->
  ((4 | baseCount input) ->
     exists bytes, decodeDNAToBytes input output = (output ++ bytes, None) /\
                   4 * len bytes = baseCount input) /\
  (~ (4 | baseCount input) ->
     exists out', decodeDNAToBytes input output = (out', Some OddNumberOfBits)).
Proof.
  intros Hknown. unfold decodeDNAToBytes.
  destruct (decodeLoop_known input Hknown [] 0 0 (bufio.NewWriter output) ltac:(by left))
    as (cur' & k' & w' & bytes & Hrun & Hk' & Hcont & Hcount).
  rewrite app_nil_r in Hrun. rewrite Hrun, contents_NewWriter in *. cbn [decodeLoop].
  split.
  - intros [q Hq]. assert (k' = 0) as -> by (unfold pending in Hk'; lia).
    cbn [Z.eqb negb]. rewrite out_Flush, Hcont. exists bytes. split; [reflexivity|lia].
  - intros Hnot. destruct (Z.eqb_spec k' 0) as [->|_]; cbn [negb]; [|by eexists].
    destruct Hnot. exists (len bytes). lia.
Qed.

Lemma X25_decoder_incomplete_byte_witness :
  (exists bytes, decodeDNAToBytes (str "cagA CGgc") (str "out:") = (str "out:" ++ bytes, None) /\
                 4 * len bytes = baseCount (str "cagA CGgc")) /\
  (exists out', decodeDNAToBytes (str "cagA CG") (str "out:") = (out', Some OddNumberOfBits)).
Proof.
  split.
  - apply (X25_decoder_incomplete_byte (str "cagA CGgc") (str "out:")).
    + repeat constructor; discriminate.
    + exists 2. reflexivity.
  - apply (X25_decoder_incomplete_byte (str "cagA CG") (str "out:")).
    + repeat constructor; discriminate.
    + intros [q Hq]. change (baseCount (str "cagA CG")) with 6 in Hq. lia.
Defined.

(** X26. [decodeDNAToBytes] stops at the first byte that is neither a base
    nor a skipped byte, and reports it, whatever follows it and however many
    bits are pending. *)
Theorem X26_decoder_invalid_byte pre c rest output :
  Forall known pre -> classify (rune c) = Unknown ->
  exists out', decodeDNAToBytes (pre ++ c :: rest) output
               = (out', Some (InvalidDNABase (rune c))).
Proof.
  intros Hknown Hc. unfold decodeDNAToBytes.
  destruct (decodeLoop_known pre Hknown (c :: rest) 0 0 (bufio.NewWriter output)
              ltac:(by left)) as (cur' & k' & w' & bytes & -> & _).
  cbn [decodeLoop]. rewrite Hc. by eexists.
Qed.

Lemma X26_decoder_invalid_byte_witness :
  exists out', decodeDNAToBytes (str "CAGA" ++ "N"%char :: str "CGGC") (str "out:")
               = (out', Some (InvalidDNABase (rune "N"))).
Proof.
  apply (X26_decoder_invalid_byte (str "CAGA") "N" (str "CGGC") (str "out:")).
  - repeat constructor; discriminate.
  - reflexivity.
Defined.

(** ** The lines the encoder writes *)

Lemma encode_flat wrapWidth input : forall st,
  foldl (fun st b => foldl (encodeBase wrapWidth (rune b)) st [3; 2; 1; 0]) st input =
  foldl (emitBase wrapWidth) st (allBases input).
Proof.
  unfold allBases. induction input as [|c input IH]; intros st; [reflexivity|].
  cbn [mbind list_bind]. rewrite foldl_app, <- IH. reflexivity.
Qed.

Lemma allBases_length input : len (allBases input) = 4 * len input.
Proof.
  unfold allBases, len. induction input as [|c input IH]; [reflexivity|].
  cbn [mbind list_bind]. rewrite length_app. unfold codecBases at 1. simpl length. lia.
Qed.

(** Without wrapping the writer receives the bases and nothing else. *)
Lemma emitBase_unwrapped wrapWidth bases : wrapWidth <= 0 -> forall writer chars,
  contents (foldl (emitBase wrapWidth) (writer, chars) bases).1 = contents writer ++ bases.
Proof.
  intros Hw. induction bases as [|b bases IH]; intros w chars.
  - cbn. by rewrite app_nil_r.
  - cbn [foldl]. unfold emitBase at 2.
    destruct (Z.gtb_spec wrapWidth 0) as [|_]; [lia|]. cbn [andb].
    by rewrite IH, contents_WriteByte, <- app_assoc.
Qed.

(** With wrapping: the lines written so far, and the line being written. *)
Lemma emitBase_lines wrapWidth bases : 0 < wrapWidth < 2 ^ 63 ->
  forall writer before current,
    contents writer = before ++ current -> len current < wrapWidth ->
    exists writer' full partial,
      foldl (emitBase wrapWidth) (writer, len current) bases = (writer', len partial) /\
      contents writer' = before ++ concat ((fun l => l ++ [newline]) <$> full) ++ partial /\
      current ++ bases = concat full ++ partial /\
      Forall (fun l => len l = wrapWidth) full /\ len partial < wrapWidth.
Proof.
  intros Hw. induction bases as [|b bases IH]; intros w before cur Hc Hcur.
  - exists w, [], cur. cbn. rewrite app_nil_r. by repeat split.
  - cbn [foldl]. unfold emitBase at 2.
    pose proof (len_nonneg cur) as Hn.
    unfold iadd. rewrite wrap64_id by (unfold fits64; lia).
    destruct (Z.gtb_spec wrapWidth 0) as [_|]; [|lia]. cbn [andb].
    assert (Hlen : len (cur ++ [b]) = len cur + 1)
      by (unfold len; rewrite length_app; simpl; lia).
    destruct (Z.geb_spec (len cur + 1) wrapWidth) as [Hfull|Hpart].
    + destruct (IH (bufio.WriteByte (bufio.WriteByte w b) newline)
                   (before ++ (cur ++ [b]) ++ [newline]) [])
        as (w' & full & partial & Hrun & Hcont & Hsplit & Hall & Hp).
      * rewrite !contents_WriteByte, Hc, app_nil_r. by rewrite <- !app_assoc.
      * unfold len. simpl. lia.
      * change (len (@nil ascii)) with 0 in Hrun.
        exists w', ((cur ++ [b]) :: full), partial. split; [exact Hrun|].
        cbn [fmap list_fmap concat]. split.
        { rewrite Hcont. by rewrite <- !app_assoc. }
        split; [|split; [constructor; [lia|exact Hall]|exact Hp]].
        cbn [app] in Hsplit. rewrite <- !app_assoc, <- Hsplit. reflexivity.
    + destruct (IH (bufio.WriteByte w b) before (cur ++ [b]))
        as (w' & full & partial & Hrun & Hcont & Hsplit & Hall & Hp).
      * rewrite contents_WriteByte, Hc. by rewrite <- app_assoc.
      * lia.
      * rewrite Hlen in Hrun. exists w', full, partial. split; [exact Hrun|].
        split; [exact Hcont|]. split; [|by split].
        rewrite <- Hsplit, <- app_assoc. reflexivity.
Qed.

(** X27. With a positive line width [encodeBytesToDNA] writes the bases of
    the input (four per byte) as lines, each ended by a newline: no line is
    empty, every line but the last holds exactly the line width, and the
    last holds what is left; the empty input gives the empty output. *)
Theorem X27_encoder_lines input output wrapWidth :
  0 < wrapWidth < 2 ^ 63 ->
  exists lines,
    encodeBytesToDNA input output wrapWidth =
      (output ++ concat ((fun l => l ++ [newline]) <$> lines), None) /\
    concat lines = allBases input /\
    Forall (fun l => 0 < len l <= wrapWidth) lines /\
    forall (i : nat) l, lines !! i = Some l -> (i + 1 < length lines)%nat -> len l = wrapWidth.
Proof.
  intros Hw. unfold encodeBytesToDNA. rewrite encode_flat.
  destruct (emitBase_lines wrapWidth (allBases input) Hw (bufio.NewWriter output) output [])
    as (w' & full & partial & Hrun & Hcont & Hsplit & Hall & Hp).
  { by rewrite contents_NewWriter, app_nil_r. }
  { change (len (@nil ascii)) with 0. lia. }
  change (len (@nil ascii)) with 0 in Hrun. rewrite Hrun. cbn [app] in Hsplit.
  destruct (Z.gtb_spec wrapWidth 0) as [_|]; [|lia]. cbn [andb].
  assert (Hfull : Forall (fun l => 0 < len l <= wrapWidth) full)
    by (eapply Forall_impl; [exact Hall|]; cbn; intros; lia).
  destruct (Z.gtb_spec (len partial) 0) as [Hpos|Hzero].
  - exists (full ++ [partial]). rewrite out_Flush, contents_WriteByte, Hcont.
    rewrite fmap_app, !concat_app. cbn [fmap list_fmap concat]. rewrite !app_nil_r.
    split; [by rewrite <- !app_assoc|]. split; [by rewrite Hsplit|].
    split; [apply Forall_app; split; [exact Hfull|constructor; [lia|constructor]]|].
    intros i l Hl Hi. rewrite length_app in Hi. simpl in Hi.
    rewrite lookup_app_l in Hl by lia.
    exact (proj1 (Forall_lookup _ _) Hall i l Hl).
  - assert (partial = []) as -> by (destruct partial; [done|unfold len in *; simpl in *; lia]).
    exists full. rewrite out_Flush, Hcont, !app_nil_r in *.
    split; [reflexivity|]. split; [by rewrite Hsplit|]. split; [exact Hfull|].
    intros i l Hl _. exact (proj1 (Forall_lookup _ _) Hall i l Hl).
Qed.

Lemma X27_encoder_lines_witness :
  exists lines,
    encodeBytesToDNA (str "Hi") [] 3 = (concat ((fun l => l ++ [newline]) <$> lines), None) /\
    concat lines = allBases (str "Hi") /\
    Forall (fun l => 0 < len l <= 3) lines /\
    forall (i : nat) l, lines !! i = Some l -> (i + 1 < length lines)%nat -> len l = 3.
Proof. apply (X27_encoder_lines (str "Hi") [] 3). lia. Defined.

(** X28. With the line width zero (or negative) [encodeBytesToDNA] writes
    the bases of the input, four per byte, and no newline at all, not even
    a final one. *)
Theorem X28_encoder_unwrapped input output wrapWidth :
  wrapWidth <= 0 ->
  encodeBytesToDNA input output wrapWidth = (output ++ allBases input, None) /\
  len (allBases input) = 4 * len input /\
  Forall (fun c => c ∈ str "ACGT") (allBases input).
Proof.
  intros Hw. split; [|split; [apply allBases_length|]].
  - unfold encodeBytesToDNA. rewrite encode_flat.
    pose proof (emitBase_unwrapped wrapWidth (allBases input) Hw (bufio.NewWriter output) 0)
      as Hc.
    destruct (foldl _ _ _) as [w chars]. cbn [fst] in Hc.
    destruct (Z.gtb_spec wrapWidth 0) as [|_]; [lia|]. cbn [andb].
    by rewrite out_Flush, Hc, contents_NewWriter.
  - unfold allBases. apply Forall_forall. intros c Hc.
    apply list_elem_of_bind in Hc as (b & Hc & _). unfold codecBases in Hc.
    apply list_elem_of_fmap in Hc as (i & -> & _).
    pose proof (twoBits_range (rune b) i) as Hr. unfold dnaBaseOf.
    assert (twoBits (rune b) i = 0 \/ twoBits (rune b) i = 1 \/ twoBits (rune b) i = 2
            \/ twoBits (rune b) i = 3) as [-> | [-> | [-> | ->]]] by lia;
      cbn; rewrite !elem_of_cons; tauto.
Qed.

Lemma X28_encoder_unwrapped_witness :
  encodeBytesToDNA (str "Hi") (str "out:") 0 = (str "out:" ++ allBases (str "Hi"), None) /\
  len (allBases (str "Hi")) = 4 * len (str "Hi") /\
  Forall (fun c => c ∈ str "ACGT") (allBases (str "Hi")).
Proof. apply (X28_encoder_unwrapped (str "Hi") (str "out:") 0). lia. Defined.

(** ** The two alphabets *)

Lemma codecBases_relabel c : codecBases c = relabel <$> byteToDNA (rune c).
Proof. destruct c as [[] [] [] [] [] [] [] []]; vm_compute; reflexivity. Qed.

(** X29. dnacrypt and dnacodec both write a byte as four bases, most
    significant pair of bits first, but with different letters for the pairs
    01, 10 and 11 (T, C, G in dnacrypt; C, G, T in dnacodec): the bases of
    dnacodec are those of [textToDNA] relabelled letter by letter, so the two
    programs agree on a byte string only when every byte of it is zero. *)
Theorem X29_alphabets_differ input :
  allBases input = relabel <$> textToDNA input /\
  (allBases input = textToDNA input <-> Forall (fun c => rune c = 0) input).
Proof.
  assert (Hrel : allBases input = relabel <$> textToDNA input).
  { rewrite textToDNA_flat. unfold allBases.
    induction input as [|c input IH]; [reflexivity|].
    cbn [mbind list_bind]. by rewrite fmap_app, <- IH, codecBases_relabel. }
  split; [exact Hrel|]. clear Hrel. rewrite textToDNA_flat. unfold allBases.
  induction input as [|c input IH]; [by split|].
  cbn [mbind list_bind]. rewrite Forall_cons, <- IH. split.
  - intros H. apply app_inj_1 in H as [H1 H2].
    + split; [|exact H2]. clear -H1.
      destruct c as [[] [] [] [] [] [] [] []]; vm_compute in H1; try discriminate.
      reflexivity.
    + destruct (byteToDNA_spec c) as (_ & Hl & _). rewrite Hl. reflexivity.
  - intros [H1 H2]. f_equal; [|exact H2].
    change 0 with (rune "000") in H1. apply rune_inj in H1. by subst.
Qed.

(** * The command of dnapng.go *)

Lemma ToUpper_bases s : Forall anyCaseBase s -> ToUpper s = Some (upperBase <$> s).
Proof.
  intros H. unfold ToUpper.
  assert (Hascii : forallb (fun c => rune c <? 128) s = true).
  { apply forallb_forall. intros c Hc. apply list_elem_of_In in Hc.
    pose proof (proj1 (Forall_forall _ _) H c Hc) as Hv. apply anyCaseBase_cases in Hv.
    destruct Hv as [-> | [-> | [-> | [-> | [-> | [-> | [-> | ->]]]]]]]; reflexivity. }
  rewrite Hascii. f_equal. apply Forall_fmap_ext_1. eapply Forall_impl; [exact H|].
  intros c Hv. apply anyCaseBase_cases in Hv.
  destruct Hv as [-> | [-> | [-> | [-> | [-> | [-> | [-> | ->]]]]]]]; reflexivity.
Qed.

Lemma validateDNA_bases s paddingChar : Forall isBase s -> validateDNA s paddingChar = true.
Proof.
  intros H. unfold validateDNA, utf8.rangeString. generalize 0.
  induction H as [|c s Hc Hs IH]; intros off; [reflexivity|].
  cbn [utf8.rangeFrom].
  destruct (DecodeRuneInString_head c s) as [[Hlt ->]|[Hge _]].
  - cbn [Nat.pred forallb]. rewrite IH, andb_true_r.
    destruct Hc as [-> | [-> | [-> | ->]]]; reflexivity.
  - destruct (isBase_mapped c Hc) as [Hlt _]. lia.
Qed.

(** X30. [main] puts the input in upper case before it validates it: an
    input that holds, between optional ASCII white space, bases in either
    case passes the validation, and for a valid layout the grid built is the
    one of the sequence in upper case. [main] writes that grid and ends normally when the
    sequence is not empty and [png.Encode] accepts the size of the grid;
    otherwise (for an input of white space only, in particular) it writes
    nothing and ends through [os.Exit(1)]. *)
Theorem X30_command_accepts_lower_case cfg data trimmed images :
  PaddingChar cfg <> [] -> TrimSpace data = Some trimmed ->
  Forall anyCaseBase trimmed -> layout_ok cfg (len trimmed) ->
  exists img,
    dnaToGrid (upperBase <$> trimmed) cfg = Ok img /\
    (serialisable cfg (len trimmed) ->
       mainEncode cfg data images = Some (images ++ [img], Success)) /\
    (~ serialisable cfg (len trimmed) ->
       mainEncode cfg data images = Some (images, Failure)).
Proof.
  intros Hpad Htrim Hv layout. unfold mainEncode.
  destruct (PaddingChar cfg) as [|c rest]; [done|].
  rewrite Htrim. cbn [mbind option_bind]. rewrite (ToUpper_bases _ Hv).
  cbn [mbind option_bind].
  rewrite validateDNA_bases
    by (apply Forall_fmap; eapply Forall_impl; [exact Hv|]; apply anyCaseBase_upper).
  cbn [negb].
  assert (Hlen : len (upperBase <$> trimmed) = len trimmed)
    by (unfold len; by rewrite length_fmap).
  assert (layout' : layout_ok cfg (len (upperBase <$> trimmed))) by (by rewrite Hlen).
  destruct (dnaToGrid_pixels _ cfg layout') as (img & Himg & _).
  destruct (dnaToPNGGrayscale_encoded (upperBase <$> trimmed) images cfg img layout' Himg)
    as [Hyes Hno].
  rewrite Hlen in Hyes, Hno.
  exists img. split; [exact Himg|]. split; intros Hpng.
  - by rewrite (Hyes Hpng).
  - by rewrite (Hno Hpng).
Qed.

Lemma X30_command_accepts_lower_case_witness :
  (exists img,
     dnaToGrid (upperBase <$> str "gattaca") (withLayout 2 4 1 defaultConfig) = Ok img /\
     mainEncode (withLayout 2 4 1 defaultConfig) (str "  gattaca ") [] = Some ([img], Success)) /\
  mainEncode defaultConfig (str "   ") [] = Some ([], Failure).
Proof.
  split.
  - destruct (X30_command_accepts_lower_case (withLayout 2 4 1 defaultConfig)
                (str "  gattaca ") (str "gattaca") []) as (img & Himg & Hyes & _).
    + discriminate.
    + reflexivity.
    + repeat constructor; by apply (bool_decide_unpack _).
    + repeat split; reflexivity.
    + exists img. split; [exact Himg|]. apply Hyes.
      unfold serialisable. vm_compute. repeat split; reflexivity.
  - destruct (X30_command_accepts_lower_case defaultConfig (str "   ") [] [])
      as (img & _ & _ & Hno).
    + discriminate.
    + reflexivity.
    + constructor.
    + repeat split; reflexivity.
    + apply Hno. intros [Hpos _]. revert Hpos. vm_compute. discriminate.
Defined.
